(** * solana-trade: pool resolution, listing caches, transaction compiler and
      relay router

    A shallow embedding of the TypeScript sources

      - [src/trader.ts]                      (class [SolanaTrade])
      - [src/builder.ts]                     ([buildTransaction])
      - [src/markets/meteora-dlmm/client.ts] ([MeteoraDlmmClient])
      - [src/markets/meteora-damm-v1/client.ts]
      - [src/markets/meteora-damm-v2/client.ts]
      - [src/markets/meteora-dbc/client.ts]
      - [src/markets/raydium-clmm/client.ts]

    Conventions of the embedding.

    - A JavaScript [number] is an extended rational: [NaN], the two
      infinities, or a finite value carried as a [Q]; every binary64 value
      is one of these.  Comparisons, [||], [Math.max], [Math.min],
      [Math.round] and [Number.isFinite] follow ECMAScript on these values.
      A product is rounded to binary64 as [*] rounds it (to the nearest
      value, ties to even, with gradual underflow and overflow to an
      infinity), so that on binary64 operands [JS.mul] is the product of
      the source.  The rounding of [/] and the sign of zero are not
      represented, and the index [Math.floor(Math.random() * n)] is the
      floor of the exact product.
    - Strings are [string]; [a < b] on strings is the lexicographic order on
      code units ([String.compare]).
    - A [throw] is the [Err] branch of [result]; [async] code is sequential
      state passing over a [World] that holds the static class fields, the
      cache files, the clock and the answers of the network and of the venue
      SDKs.
    - Static [Map<string, _>] fields are [gmap string _]; a [Map] whose
      iteration order is observed is an association list. *)

From Stdlib Require Import ZArith QArith Qround Qabs Qpower Bool List String
  Ascii Lia Lqa.
From stdpp Require Import base option gmap strings.
Import ListNotations.

Local Open Scope string_scope.
Local Open Scope Z_scope.

(** ** Errors and fallible results *)

(** [new Error(msg)]: the sources throw plain [Error] objects that are told
    apart by their message only. *)
Inductive Error : Type :=
| Throw (msg : string).

Inductive result (A : Type) : Type :=
| Ok (a : A)
| Err (e : Error).
Arguments Ok {A} a.
Arguments Err {A} e.

Definition is_ok {A} (r : result A) : bool :=
  match r with Ok _ => true | Err _ => false end.

#[global] Instance result_ret : MRet result := fun _ a => Ok a.
#[global] Instance result_bind : MBind result := fun _ _ k r =>
  match r with
  | Ok a => k a
  | Err e => Err e
  end.

(** ** JavaScript numbers *)

Module JS.

Inductive number : Type :=
| NaN
| NegInfinity
| Finite (q : Q)
| Infinity.

Definition Qlt_bool (x y : Q) : bool := negb (Qle_bool y x).

(** [a < b] *)
Definition lt (a b : number) : bool :=
  match a, b with
  | NaN, _ | _, NaN => false
  | NegInfinity, NegInfinity => false
  | NegInfinity, _ => true
  | _, NegInfinity => false
  | Infinity, _ => false
  | Finite _, Infinity => true
  | Finite x, Finite y => Qlt_bool x y
  end.

(** [a <= b] *)
Definition le (a b : number) : bool :=
  match a, b with
  | NaN, _ | _, NaN => false
  | NegInfinity, _ => true
  | _, NegInfinity => false
  | _, Infinity => true
  | Infinity, Finite _ => false
  | Finite x, Finite y => Qle_bool x y
  end.

(** [a > b] and [a >= b] *)
Definition gt (a b : number) : bool := lt b a.
Definition ge (a b : number) : bool := le b a.

(** ToBoolean on a number: [0] and [NaN] are falsy. *)
Definition truthy (a : number) : bool :=
  match a with
  | NaN => false
  | Finite q => negb (Qeq_bool q 0)
  | NegInfinity | Infinity => true
  end.

(** [a || b] on numbers *)
Definition or (a b : number) : number := if truthy a then a else b.

Definition zero : number := Finite 0.

(** [Math.max(a, b)] and [Math.min(a, b)]: [NaN] when an argument is. *)
Definition Math_max (a b : number) : number :=
  match a, b with
  | NaN, _ | _, NaN => NaN
  | _, _ => if lt a b then b else a
  end.

Definition Math_min (a b : number) : number :=
  match a, b with
  | NaN, _ | _, NaN => NaN
  | _, _ => if lt b a then b else a
  end.

Definition isFinite (a : number) : bool :=
  match a with Finite _ => true | _ => false end.

Definition sign_pos (q : Q) : bool := Qlt_bool 0 q.

(** The integer nearest to [x]; of two nearest integers the even one. *)
Definition round_half_even (x : Q) : Z :=
  let f := Qfloor x in
  match Qcompare (x - inject_Z f) (1 # 2) with
  | Lt => f
  | Gt => (f + 1)%Z
  | Eq => if Z.even f then f else (f + 1)%Z
  end.

(** [floor (log2 a)] for a positive [a] *)
Definition ilog2 (a : Q) : Z :=
  let k := (Z.log2 (Qnum a) - Z.log2 (Zpos (Qden a)))%Z in
  if Qle_bool (2 ^ k) a then k else (k - 1)%Z.

(** The multiple of [2^e] nearest to a positive [a], where [e] leaves 53
    significant bits and is at least -1074, the exponent of the subnormal
    numbers. *)
Definition nearest64 (a : Q) : Q :=
  let e := Z.max (-1074) (ilog2 a - 52) in
  (inject_Z (round_half_even (a / 2 ^ e)) * 2 ^ e)%Q.

(** The binary64 number that stands for the exact result [x] of an
    operation: the nearest one, an infinity from [2^1024] on. *)
Definition binary64 (x : Q) : number :=
  if Qeq_bool x 0 then Finite 0
  else
    let r := nearest64 (Qabs x) in
    if Qle_bool (2 ^ 1024) r
    then (if sign_pos x then Infinity else NegInfinity)
    else Finite (if sign_pos x then r else - r).

(** [a * b] *)
Definition mul (a b : number) : number :=
  match a, b with
  | NaN, _ | _, NaN => NaN
  | Finite x, Finite y => binary64 (x * y)
  | Finite x, Infinity | Infinity, Finite x =>
      if Qeq_bool x 0 then NaN else if sign_pos x then Infinity else NegInfinity
  | Finite x, NegInfinity | NegInfinity, Finite x =>
      if Qeq_bool x 0 then NaN else if sign_pos x then NegInfinity else Infinity
  | Infinity, Infinity | NegInfinity, NegInfinity => Infinity
  | Infinity, NegInfinity | NegInfinity, Infinity => NegInfinity
  end.

(** [a / b] *)
Definition div (a b : number) : number :=
  match a, b with
  | NaN, _ | _, NaN => NaN
  | Finite x, Finite y =>
      if Qeq_bool y 0
      then (if Qeq_bool x 0 then NaN
            else if sign_pos x then Infinity else NegInfinity)
      else Finite (x / y)
  | Finite _, (Infinity | NegInfinity) => Finite 0
  | Infinity, Finite y => if Qlt_bool y 0 then NegInfinity else Infinity
  | NegInfinity, Finite y => if Qlt_bool y 0 then Infinity else NegInfinity
  | (Infinity | NegInfinity), (Infinity | NegInfinity) => NaN
  end.

(** A value read from parsed JSON where the sources expect a number. *)
Inductive value : Type :=
| Undefined
| Null
| Num (n : number)
| Str (s : string).

(** [v ?? d] *)
Definition nullish (v d : value) : value :=
  match v with
  | Undefined | Null => d
  | _ => v
  end.

(** ToBoolean on an optional string: [undefined] and [""] are falsy. *)
Definition truthy_str (s : option string) : bool :=
  match s with
  | Some (String _ _) => true
  | _ => false
  end.

(** [[a, b].sort()]: the default comparator on two strings keeps the pair
    unless the second is strictly smaller than the first. *)
Definition sort2 (a b : string) : string * string :=
  if String.ltb b a then (b, a) else (a, b).

End JS.

Import JS.

Coercion Finite : Q >-> number.

(** ** Keys, instructions and transactions *)

(** A [PublicKey] is identified with its base58 text; [equals] is equality of
    that text. *)
Definition PublicKey : Type := string.

Record Keypair : Type := { publicKey : PublicKey }.

(** [mint: PublicKey | string] and [poolAddress?: PublicKey | string] *)
Inductive KeyInput : Type :=
| KeyObject (k : PublicKey)
| KeyText (s : string).

(** What a venue SDK puts in the transaction it returns. *)
Record VenueInstruction : Type := {
  v_programId : PublicKey;
  v_data : string
}.

(** The instructions a transaction is made of, by the code that built them:
    [createComputeBudgetInstructions], [createTipInstruction], or a venue
    SDK. *)
Inductive TransactionInstruction : Type :=
| ComputeBudgetIx (data : string)
| TipIx (tipAddress payer : PublicKey) (sol : number)
| SwapIx (ix : VenueInstruction).

Definition ComputeBudgetProgram_programId : PublicKey :=
  "ComputeBudget111111111111111111111111111111".
Definition SystemProgram_programId : PublicKey :=
  "11111111111111111111111111111111".

Definition programId (ix : TransactionInstruction) : PublicKey :=
  match ix with
  | ComputeBudgetIx _ => ComputeBudgetProgram_programId
  | TipIx _ _ _ => SystemProgram_programId
  | SwapIx v => v_programId v
  end.

Definition is_compute_budget (ix : TransactionInstruction) : bool :=
  String.eqb (programId ix) ComputeBudgetProgram_programId.

Definition is_tip (ix : TransactionInstruction) : bool :=
  match ix with TipIx _ _ _ => true | _ => false end.

Definition is_swap (ix : TransactionInstruction) : bool :=
  match ix with SwapIx _ => true | _ => false end.

Record Transaction : Type := {
  instructions : list TransactionInstruction;
  feePayer : option PublicKey
}.

Definition new_Transaction : Transaction :=
  {| instructions := []; feePayer := None |}.

(** [tx.add(ix)] *)
Definition tx_add (tx : Transaction) (ix : TransactionInstruction) : Transaction :=
  {| instructions := instructions tx ++ [ix]; feePayer := feePayer tx |}.

Definition tx_add_all (tx : Transaction) (ixs : list TransactionInstruction)
  : Transaction :=
  fold_left tx_add ixs tx.

(** [createTipInstruction(to, from, sol)] of helpers/instructions *)
Definition createTipInstruction (to from : PublicKey) (sol : number)
  : TransactionInstruction := TipIx to from sol.

(** ** Venue adapters *)

Inductive Market : Type :=
| PUMP_FUN | PUMP_SWAP | RAYDIUM_AMM | RAYDIUM_CLMM | RAYDIUM_CPMM
| RAYDIUM_LAUNCHPAD | METEORA_DLMM | METEORA_DAMM_V1 | METEORA_DAMM_V2
| METEORA_DBC | ORCA_WHIRLPOOL | MOONIT | HEAVEN | SUGAR | BOOP_FUN.

(** The [case] labels of [createMarketClient], top to bottom. *)
Definition market_cases : list Market :=
  [ PUMP_FUN; PUMP_SWAP; RAYDIUM_AMM; RAYDIUM_CLMM; RAYDIUM_CPMM;
    RAYDIUM_LAUNCHPAD; METEORA_DLMM; METEORA_DAMM_V1; METEORA_DAMM_V2;
    METEORA_DBC; ORCA_WHIRLPOOL; MOONIT; HEAVEN; SUGAR; BOOP_FUN ].

Inductive Side : Type := Buy | Sell.

(** Arguments of [getBuyInstructions] / [getSellInstructions];
    [amount] is [solAmount] on a buy and [tokenAmount] on a sell. *)
Record SwapArgs : Type := {
  mintAddress : PublicKey;
  wallet : PublicKey;
  amount : number;
  slippage : number
}.

(** [stripNonEssentialInstructions], the same method in the four Meteora
    clients: drop what belongs to the compute-budget program. *)
Definition stripNonEssentialInstructions (ixs : list TransactionInstruction)
  : list TransactionInstruction :=
  List.filter (fun ix => negb (String.eqb (programId ix)
                                 ComputeBudgetProgram_programId)) ixs.

(** Constants of helpers/constants, which is outside the sources. *)
Record Constants : Type := {
  Markets : Market -> string;
  SwapDirection_BUY : string;
  SwapDirection_SELL : string;
  NOZOMI_TIP_ADDRESSES : list string;
  ASTRALANE_TIP_ADDRESSES : list string;
  JITO_TIP_ADDRESSES : list string;
  NOZOMI_MIN_TIP_SOL : number;
  ASTRALANE_MIN_TIP_SOL : number;
  JITO_MIN_TIP_SOL : number;
  NOZOMI_REGIONS : list (string * string);
  ASTRALANE_REGIONS : list (string * string);
  JITO_REGIONS : list (string * string);
  DEV_TIP_ADDRESS : PublicKey;
  DEV_TIP_RATE : number
}.

(** What the process and its collaborators answer during one call. *)
Record Env : Type := {
  (** [new PublicKey(s)] accepts [s] *)
  isPublicKey : string -> bool;
  (** payloads of the instructions [createComputeBudgetInstructions(fee)]
      returns (helpers/instructions is outside the sources) *)
  computeBudgetData : number -> list string;
  (** [process.env.TIP_ADDRESS] *)
  env_TIP_ADDRESS : option string;
  (** [tx.instructions] of the transaction the venue SDK returns for a
      client of the sources, or the error of any step before it (pool
      lookup, quote, RPC) *)
  sdkTransaction : Market -> Side -> SwapArgs -> result (list VenueInstruction);
  (** what a client outside the sources returns *)
  foreignClient : Market -> Side -> SwapArgs -> result (list VenueInstruction);
  (** the [Math.random()] draws of [chooseRegion] and [computeProviderTip] *)
  random_region : Q;
  random_tip : Q
}.

Section Compiler.

Context (K : Constants) (E : Env).

(** [new PublicKey(s)] *)
Definition new_PublicKey (s : string) : result PublicKey :=
  if isPublicKey E s then Ok s else Err (Throw "Invalid public key input").

(** [createComputeBudgetInstructions(priorityFeeSol)] *)
Definition createComputeBudgetInstructions (priorityFeeSol : number)
  : list TransactionInstruction :=
  map ComputeBudgetIx (computeBudgetData E priorityFeeSol).

(** *** The clients of the sources *)

(** [getBuyInstructions] and [getSellInstructions] end in
    [return this.stripNonEssentialInstructions(tx.instructions)] in the
    DLMM, DAMM v1, DAMM v2 and DBC clients, and in
    [return make.transaction.instructions] in the Raydium CLMM client. *)
Definition MeteoraDlmmClient (s : Side) (a : SwapArgs)
  : result (list TransactionInstruction) :=
  raw ← sdkTransaction E METEORA_DLMM s a;
  Ok (stripNonEssentialInstructions (map SwapIx raw)).

Definition MeteoraDammV1Client (s : Side) (a : SwapArgs)
  : result (list TransactionInstruction) :=
  raw ← sdkTransaction E METEORA_DAMM_V1 s a;
  Ok (stripNonEssentialInstructions (map SwapIx raw)).

Definition MeteoraDammV2Client (s : Side) (a : SwapArgs)
  : result (list TransactionInstruction) :=
  raw ← sdkTransaction E METEORA_DAMM_V2 s a;
  Ok (stripNonEssentialInstructions (map SwapIx raw)).

Definition MeteoraDbcClient (s : Side) (a : SwapArgs)
  : result (list TransactionInstruction) :=
  raw ← sdkTransaction E METEORA_DBC s a;
  Ok (stripNonEssentialInstructions (map SwapIx raw)).

Definition RaydiumClmmClient (s : Side) (a : SwapArgs)
  : result (list TransactionInstruction) :=
  raw ← sdkTransaction E RAYDIUM_CLMM s a;
  Ok (map SwapIx raw).

(** The client object [createMarketClient] instantiates for a case. *)
Definition MarketClient (m : Market) (s : Side) (a : SwapArgs)
  : result (list TransactionInstruction) :=
  match m with
  | METEORA_DLMM => MeteoraDlmmClient s a
  | METEORA_DAMM_V1 => MeteoraDammV1Client s a
  | METEORA_DAMM_V2 => MeteoraDammV2Client s a
  | METEORA_DBC => MeteoraDbcClient s a
  | RAYDIUM_CLMM => RaydiumClmmClient s a
  | _ => raw ← foreignClient E m s a; Ok (map SwapIx raw)
  end.

(** *** builder.ts *)

Record BuildTransactionParams : Type := {
  bp_market : string;
  bp_direction : string;
  bp_wallet : Keypair;
  bp_mint : PublicKey;
  bp_poolAddress : option PublicKey;
  bp_amount : number;
  bp_slippage : number;
  bp_priorityFeeSol : option number;
  bp_tipAmountSol : option number
}.

(** [switch (market)]: the first [case] whose constant is the string. *)
Definition createMarketClient (market : string) : result Market :=
  match List.find (fun m => String.eqb market (Markets K m)) market_cases with
  | Some m => Ok m
  | None => Err (Throw ("Unsupported market: " ++ market))
  end.

Definition createDirectionInvoker (direction : string) : result Side :=
  if String.eqb direction (SwapDirection_BUY K) then Ok Buy
  else if String.eqb direction (SwapDirection_SELL K) then Ok Sell
  else Err (Throw ("Unsupported direction: " ++ direction)).

(** The optional tip of [buildTransaction]: taken from the environment
    variable, an invalid address being ignored. *)
Definition builder_tip (wallet : Keypair) (tipAmountSol : number)
  : list TransactionInstruction :=
  if JS.gt tipAmountSol JS.zero then
    match env_TIP_ADDRESS E with
    | Some (String _ _ as tipAddressEnv) =>
        match new_PublicKey tipAddressEnv with
        | Ok tipAddress =>
            [createTipInstruction tipAddress (publicKey wallet) tipAmountSol]
        | Err _ => []
        end
    | _ => []
    end
  else [].

Definition slippage_error : Error :=
  Throw "slippage must be between 0 and 1".

(** Everything [buildTransaction] does after the slippage check. *)
Definition assemble (params : BuildTransactionParams) : result Transaction :=
  let priorityFeeSol := default (Finite (1 # 10000)) (bp_priorityFeeSol params) in
  let tipAmountSol := default JS.zero (bp_tipAmountSol params) in
  let tx := new_Transaction in
  let budgetIx := createComputeBudgetInstructions priorityFeeSol in
  let tx := tx_add_all tx budgetIx in
  let tx := tx_add_all tx (builder_tip (bp_wallet params) tipAmountSol) in
  client ← createMarketClient (bp_market params);
  invocation ← createDirectionInvoker (bp_direction params);
  marketInstructions ←
    MarketClient client invocation
      {| mintAddress := bp_mint params;
         wallet := publicKey (bp_wallet params);
         amount := bp_amount params;
         slippage := bp_slippage params |};
  let tx := tx_add_all tx marketInstructions in
  Ok {| instructions := instructions tx;
        feePayer := Some (publicKey (bp_wallet params)) |}.

Definition buildTransaction (params : BuildTransactionParams)
  : result Transaction :=
  if JS.lt (bp_slippage params) JS.zero
     || JS.gt (bp_slippage params) (Finite 1)
  then Err slippage_error
  else assemble params.

End Compiler.

(** ** trader.ts *)

Inductive Provider : Type := ASTRALANE | NOZOMI | JITO.

Inductive Sender : Type :=
| StandardClient
| NozomiSenderClient
| AstralaneSenderClient
| JitoSenderClient.

(** The call [sender.sendTransaction(tx, wallet, priorityFeeSol,
    tipAmountSol, false, options, metadata)] that ends [trade]; the senders
    themselves are outside the sources. *)
Record Submission : Type := {
  sub_sender : Sender;
  sub_tx : Transaction;
  sub_payer : Keypair;
  sub_priorityFee : number;
  sub_tipAmount : number;
  sub_region : option string;
  sub_antimev : option bool
}.

Inductive TradeOutcome : Type :=
| Returned (tx : Transaction)
| Submitted (s : Submission).

Definition outcome_tx (o : TradeOutcome) : Transaction :=
  match o with
  | Returned tx => tx
  | Submitted s => sub_tx s
  end.

(** The backend a call is routed to; [None] when [send] is [false]. *)
Definition outcome_sender (o : TradeOutcome) : option Sender :=
  match o with
  | Returned _ => None
  | Submitted s => Some (sub_sender s)
  end.

Record TradeParams : Type := {
  tp_market : string;
  tp_direction : string;
  tp_wallet : Keypair;
  tp_mint : KeyInput;
  tp_amount : number;
  tp_slippage : number;
  tp_priorityFeeSol : option number;
  tp_tipAmountSol : option number;
  tp_poolAddress : option KeyInput;
  tp_send : option bool;
  tp_sender : option Provider;
  tp_antimev : option bool;
  tp_region : option string
}.

(** [{ ...params, direction }] *)
Definition with_direction (params : TradeParams) (direction : string)
  : TradeParams :=
  {| tp_market := tp_market params;
     tp_direction := direction;
     tp_wallet := tp_wallet params;
     tp_mint := tp_mint params;
     tp_amount := tp_amount params;
     tp_slippage := tp_slippage params;
     tp_priorityFeeSol := tp_priorityFeeSol params;
     tp_tipAmountSol := tp_tipAmountSol params;
     tp_poolAddress := tp_poolAddress params;
     tp_send := tp_send params;
     tp_sender := tp_sender params;
     tp_antimev := tp_antimev params;
     tp_region := tp_region params |}.

Definition upper_ascii (c : ascii) : ascii :=
  let n := nat_of_ascii c in
  if (Nat.leb 97 n && Nat.leb n 122)%bool then ascii_of_nat (n - 32) else c.

(** [s.toUpperCase()], on the ASCII letters *)
Fixpoint toUpperCase (s : string) : string :=
  match s with
  | EmptyString => EmptyString
  | String c r => String (upper_ascii c) (toUpperCase r)
  end.

(** [map[key]] on a [Record<string, string>] *)
Fixpoint record_get (map : list (string * string)) (key : string)
  : option string :=
  match map with
  | [] => None
  | (k, v) :: rest => if String.eqb k key then Some v else record_get rest key
  end.

(** [Math.floor(r * n)] as an index *)
Definition random_index (r : Q) (n : nat) : nat :=
  Z.to_nat (Qfloor (r * inject_Z (Z.of_nat n))).

Section Trader.

Context (K : Constants) (E : Env).

Definition normalizeMint (mint : KeyInput) : result PublicKey :=
  match mint with
  | KeyObject k => Ok k
  | KeyText s => new_PublicKey E s
  end.

Definition normalizeSlippage (slippagePercent : number) : result number :=
  if negb (JS.isFinite slippagePercent) then Err (Throw "Invalid slippage")
  else
    let clamped :=
      Math_max JS.zero (Math_min (Finite 100) slippagePercent) in
    Ok (JS.div clamped (Finite 100)).

Definition normalizePoolAddress (pool : option KeyInput)
  : result (option PublicKey) :=
  match pool with
  | None => Ok None
  | Some (KeyObject k) => Ok (Some k)
  | Some (KeyText s) =>
      match new_PublicKey E s with
      | Ok k => Ok (Some k)
      | Err _ => Err (Throw "Invalid poolAddress")
      end
  end.

Definition chooseProvider (provided : option Provider)
  (tipAmountSol : number) : option Provider :=
  let tip := JS.or tipAmountSol JS.zero in
  if JS.le tip JS.zero then None
  else match provided with
       | Some p => Some p
       | None =>
           if JS.ge tip (Finite (1 # 1000)) then Some NOZOMI
           else Some ASTRALANE
       end.

Definition provider_regions (provider : Provider) : list (string * string) :=
  match provider with
  | NOZOMI => NOZOMI_REGIONS K
  | ASTRALANE => ASTRALANE_REGIONS K
  | JITO => JITO_REGIONS K
  end.

Definition chooseRegion (provider : option Provider)
  (desiredRegion : option string) : option string :=
  match provider with
  | None => None
  | Some provider =>
      let map := provider_regions provider in
      let entries := List.map fst map in
      match entries with
      | [] => None
      | _ =>
          let pick :=
            nth_error entries
              (random_index (random_region E) (List.length entries)) in
          match desiredRegion with
          | Some (String _ _ as desired) =>
              let key := toUpperCase desired in
              if truthy_str (record_get map key) then Some key else pick
          | _ => pick
          end
      end
  end.

Definition provider_tip_addresses (provider : Provider) : list string :=
  match provider with
  | NOZOMI => NOZOMI_TIP_ADDRESSES K
  | ASTRALANE => ASTRALANE_TIP_ADDRESSES K
  | JITO => JITO_TIP_ADDRESSES K
  end.

Definition provider_min_tip (provider : Provider) : number :=
  match provider with
  | NOZOMI => NOZOMI_MIN_TIP_SOL K
  | ASTRALANE => ASTRALANE_MIN_TIP_SOL K
  | JITO => JITO_MIN_TIP_SOL K
  end.

(** Returns [{ tipAddress, finalTip }].  When the table is empty [addr] is
    [undefined], and [new PublicKey(undefined)] fails in its first test,
    which reads [undefined._bn]: a [TypeError], with the message of the
    engine. *)
Definition computeProviderTip (provider : Provider) (userTip : number)
  : result (PublicKey * number) :=
  let list := provider_tip_addresses provider in
  let min := provider_min_tip provider in
  let finalTip := Math_max (JS.or userTip JS.zero) min in
  match nth_error list (random_index (random_tip E) (List.length list)) with
  | Some addr =>
      tipAddress ← new_PublicKey E addr;
      Ok (tipAddress, finalTip)
  | None => Err (Throw "Cannot read properties of undefined (reading '_bn')")
  end.

(** The developer tip of a buy, added after the venue instructions. *)
Definition dev_tip (direction : string) (wallet : Keypair) (amount : number)
  : list TransactionInstruction :=
  if String.eqb direction (SwapDirection_BUY K) then
    let devTipSol := JS.mul (JS.or amount JS.zero) (DEV_TIP_RATE K) in
    if JS.gt devTipSol JS.zero
    then [createTipInstruction (DEV_TIP_ADDRESS K) (publicKey wallet) devTipSol]
    else []
  else [].

(** The relay tip, added last. *)
Definition provider_tip (provider : option Provider) (wallet : Keypair)
  (tipAmountSol : number) : result (list TransactionInstruction) :=
  match provider with
  | Some provider =>
      if JS.gt (JS.or tipAmountSol JS.zero) JS.zero then
        '(tipAddress, finalTip) ← computeProviderTip provider tipAmountSol;
        if JS.gt finalTip JS.zero
        then Ok [createTipInstruction tipAddress (publicKey wallet) finalTip]
        else Ok []
      else Ok []
  | None => Ok []
  end.

Definition route (provider : option Provider) : Sender :=
  match provider with
  | None => StandardClient
  | Some NOZOMI => NozomiSenderClient
  | Some ASTRALANE => AstralaneSenderClient
  | Some JITO => JitoSenderClient
  end.

Definition trade (params : TradeParams) : result TradeOutcome :=
  let market := tp_market params in
  let direction := tp_direction params in
  let wallet := tp_wallet params in
  let amount := tp_amount params in
  let priorityFeeSol := default (Finite (1 # 10000)) (tp_priorityFeeSol params) in
  let tipAmountSol := default JS.zero (tp_tipAmountSol params) in
  let send := default true (tp_send params) in
  let providedSender := tp_sender params in
  mint ← normalizeMint (tp_mint params);
  poolAddress ← normalizePoolAddress (tp_poolAddress params);
  slippageFraction ← normalizeSlippage (tp_slippage params);
  let provider := chooseProvider providedSender tipAmountSol in
  let regionSelected := chooseRegion provider (tp_region params) in
  tx ← buildTransaction K E
         {| bp_market := market;
            bp_direction := direction;
            bp_wallet := wallet;
            bp_mint := mint;
            bp_poolAddress := poolAddress;
            bp_amount := amount;
            bp_slippage := slippageFraction;
            bp_priorityFeeSol := Some priorityFeeSol;
            bp_tipAmountSol := None |};
  let tx := tx_add_all tx (dev_tip direction wallet amount) in
  tipIx ← provider_tip provider wallet tipAmountSol;
  let tx := tx_add_all tx tipIx in
  if negb send then Ok (Returned tx)
  else
    Ok (Submitted
          {| sub_sender := route provider;
             sub_tx := tx;
             sub_payer := wallet;
             sub_priorityFee := priorityFeeSol;
             sub_tipAmount := tipAmountSol;
             sub_region := match provider with
                           | None => None
                           | Some _ => regionSelected
                           end;
             sub_antimev := match provider with
                            | None => None
                            | Some _ => tp_antimev params
                            end |}).

(** [buy] and [sell]: [this.trade({ ...params, direction })]. *)
Definition buy (params : TradeParams) : result TradeOutcome :=
  trade (with_direction params (SwapDirection_BUY K)).

Definition sell (params : TradeParams) : result TradeOutcome :=
  trade (with_direction params (SwapDirection_SELL K)).

(** [trade] in two pieces: the argument it gives to [buildTransaction], and
    what it does with the transaction [buildTransaction] returns. *)
Definition forwarded (params : TradeParams) (mint : PublicKey)
  (poolAddress : option PublicKey) (slippageFraction : number)
  : BuildTransactionParams :=
  {| bp_market := tp_market params;
     bp_direction := tp_direction params;
     bp_wallet := tp_wallet params;
     bp_mint := mint;
     bp_poolAddress := poolAddress;
     bp_amount := tp_amount params;
     bp_slippage := slippageFraction;
     bp_priorityFeeSol :=
       Some (default (Finite (1 # 10000)) (tp_priorityFeeSol params));
     bp_tipAmountSol := None |}.

Definition after_build (params : TradeParams) (tx : Transaction)
  : result TradeOutcome :=
  let wallet := tp_wallet params in
  let priorityFeeSol := default (Finite (1 # 10000)) (tp_priorityFeeSol params) in
  let tipAmountSol := default JS.zero (tp_tipAmountSol params) in
  let provider := chooseProvider (tp_sender params) tipAmountSol in
  let regionSelected := chooseRegion provider (tp_region params) in
  let tx := tx_add_all tx (dev_tip (tp_direction params) wallet (tp_amount params)) in
  tipIx ← provider_tip provider wallet tipAmountSol;
  let tx := tx_add_all tx tipIx in
  if negb (default true (tp_send params)) then Ok (Returned tx)
  else
    Ok (Submitted
          {| sub_sender := route provider;
             sub_tx := tx;
             sub_payer := wallet;
             sub_priorityFee := priorityFeeSol;
             sub_tipAmount := tipAmountSol;
             sub_region := match provider with
                           | None => None
                           | Some _ => regionSelected
                           end;
             sub_antimev := match provider with
                            | None => None
                            | Some _ => tp_antimev params
                            end |}).

End Trader.

(** ** The listing caches: files, clock and network *)

(** String-to-number conversions of the JavaScript runtime. *)
Record JsRuntime : Type := {
  parseFloat : string -> number;
  StringToNumber : string -> number
}.

(** [Number(v)] *)
Definition Number_of (R : JsRuntime) (v : value) : number :=
  match v with
  | Undefined => NaN
  | Null => JS.zero
  | Num n => n
  | Str s => StringToNumber R s
  end.

(** What [fs.readFileSync] followed by [JSON.parse] finds in a cache file. *)
Inductive FileContent (A : Type) : Type :=
| JsonArray (items : list A)
| JsonOther
| Unreadable.
Arguments JsonArray {A} items.
Arguments JsonOther {A}.
Arguments Unreadable {A}.

Record File (A : Type) : Type := {
  mtimeMs : Z;
  content : FileContent A
}.
Arguments mtimeMs {A} f.
Arguments content {A} f.

(** The body of a listing answer: an array, or an object with optional
    [data] and [rows] arrays. *)
Inductive Json (A : Type) : Type :=
| JArray (items : list A)
| JObject (data rows : option (list A)).
Arguments JArray {A} items.
Arguments JObject {A} data rows.

(** The outcome of one [fetch]: rejected, answered with a status that is not
    ok, or answered with a body. *)
Inductive HttpResponse (A : Type) : Type :=
| FetchRejected
| HttpStatus (status : string)
| HttpOk (json : Json A).
Arguments FetchRejected {A}.
Arguments HttpStatus {A} status.
Arguments HttpOk {A} json.

Definition CACHE_TTL_MS_DEFAULT : Q := inject_Z (5 * 60 * 1000).

(** [getCacheTtlMs], the same static method in every Meteora client;
    [fromEnv] is [Number(process.env.<name>)]. *)
Definition getCacheTtlMs (fromEnv : number) : Q :=
  match fromEnv with
  | Finite q => if Qlt_bool 0 q then q else CACHE_TTL_MS_DEFAULT
  | _ => CACHE_TTL_MS_DEFAULT
  end.

(** [now - t < ttl] *)
Definition younger (now t : Z) (ttl : Q) : bool :=
  Qlt_bool (inject_Z (now - t)) ttl.

(** The wrapped-SOL mint, [mints.WSOL] of helpers/constants. *)
Definition WSOL : string := "So11111111111111111111111111111111111111112".

(** ** meteora-dlmm/client.ts *)

Module Dlmm.

(** [normalizeKey] *)
Definition normalizeKey (a b : string) : string := a ++ ":" ++ b.

(** A record of the [pair/all] listing.  A [null] item behaves as a record
    without fields. *)
Record Pair : Type := {
  address : option string;
  mint_x : option string;
  mint_y : option string;
  reserve_x_amount : value;
  reserve_y_amount : value;
  liquidity : value
}.

(** An account of [DLMM.getLbPairs]. *)
Record LbPairAccount : Type := {
  lb_publicKey : PublicKey;
  tokenXMint : option string;
  tokenYMint : option string
}.

Inductive SdkCall : Type :=
| GetCustomizablePermissionlessLbPairIfExists (x y : string)
| GetLbPairs.

Record World : Type := {
  (** [Date.now()] *)
  clock : Z;
  (** [Number(process.env.PAIRS_CACHE_TTL_MSCACHE_TTL_MS)] *)
  ttlFromEnv : number;
  (** static fields of the class *)
  pairCache : gmap string string;
  cacheLoadedAt : Z;
  rawPairs : list Pair;
  rawLoadedAt : Z;
  (** [.cache/dlmm_pairs.json] *)
  cacheFile : option (File Pair);
  diskWritable : bool;
  (** the answer to the n-th request, and the requests sent so far *)
  network : nat -> HttpResponse Pair;
  requests : nat;
  (** [new PublicKey(s)] accepts [s] *)
  isPublicKey : string -> bool;
  (** the DLMM SDK and the calls made to it so far *)
  lbPairIfExists : string -> string -> result (option PublicKey);
  lbPairs : result (list LbPairAccount);
  sdkCalls : list SdkCall
}.

Definition M (A : Type) : Type := World -> result A * World.

Definition with_raw (w : World) (items : list Pair) (at_ : Z) : World :=
  {| clock := clock w; ttlFromEnv := ttlFromEnv w;
     pairCache := pairCache w; cacheLoadedAt := cacheLoadedAt w;
     rawPairs := items; rawLoadedAt := at_;
     cacheFile := cacheFile w; diskWritable := diskWritable w;
     network := network w; requests := requests w;
     isPublicKey := isPublicKey w;
     lbPairIfExists := lbPairIfExists w; lbPairs := lbPairs w;
     sdkCalls := sdkCalls w |}.

Definition with_file (w : World) (f : option (File Pair)) : World :=
  {| clock := clock w; ttlFromEnv := ttlFromEnv w;
     pairCache := pairCache w; cacheLoadedAt := cacheLoadedAt w;
     rawPairs := rawPairs w; rawLoadedAt := rawLoadedAt w;
     cacheFile := f; diskWritable := diskWritable w;
     network := network w; requests := requests w;
     isPublicKey := isPublicKey w;
     lbPairIfExists := lbPairIfExists w; lbPairs := lbPairs w;
     sdkCalls := sdkCalls w |}.

Definition with_request (w : World) : World :=
  {| clock := clock w; ttlFromEnv := ttlFromEnv w;
     pairCache := pairCache w; cacheLoadedAt := cacheLoadedAt w;
     rawPairs := rawPairs w; rawLoadedAt := rawLoadedAt w;
     cacheFile := cacheFile w; diskWritable := diskWritable w;
     network := network w; requests := S (requests w);
     isPublicKey := isPublicKey w;
     lbPairIfExists := lbPairIfExists w; lbPairs := lbPairs w;
     sdkCalls := sdkCalls w |}.

Definition with_pairCache (w : World) (m : gmap string string) (at_ : Z)
  : World :=
  {| clock := clock w; ttlFromEnv := ttlFromEnv w;
     pairCache := m; cacheLoadedAt := at_;
     rawPairs := rawPairs w; rawLoadedAt := rawLoadedAt w;
     cacheFile := cacheFile w; diskWritable := diskWritable w;
     network := network w; requests := requests w;
     isPublicKey := isPublicKey w;
     lbPairIfExists := lbPairIfExists w; lbPairs := lbPairs w;
     sdkCalls := sdkCalls w |}.

Definition with_call (w : World) (c : SdkCall) : World :=
  {| clock := clock w; ttlFromEnv := ttlFromEnv w;
     pairCache := pairCache w; cacheLoadedAt := cacheLoadedAt w;
     rawPairs := rawPairs w; rawLoadedAt := rawLoadedAt w;
     cacheFile := cacheFile w; diskWritable := diskWritable w;
     network := network w; requests := requests w;
     isPublicKey := isPublicKey w;
     lbPairIfExists := lbPairIfExists w; lbPairs := lbPairs w;
     sdkCalls := sdkCalls w ++ [c] |}.

(** The caller lets time pass between two calls. *)
Definition at_time (w : World) (t : Z) : World :=
  {| clock := t; ttlFromEnv := ttlFromEnv w;
     pairCache := pairCache w; cacheLoadedAt := cacheLoadedAt w;
     rawPairs := rawPairs w; rawLoadedAt := rawLoadedAt w;
     cacheFile := cacheFile w; diskWritable := diskWritable w;
     network := network w; requests := requests w;
     isPublicKey := isPublicKey w;
     lbPairIfExists := lbPairIfExists w; lbPairs := lbPairs w;
     sdkCalls := sdkCalls w |}.

(** A new process: the static fields are as the class initialises them,
    the cache file is as the last process left it. *)
Definition restart (w : World) : World :=
  {| clock := clock w; ttlFromEnv := ttlFromEnv w;
     pairCache := ∅; cacheLoadedAt := 0;
     rawPairs := []; rawLoadedAt := 0;
     cacheFile := cacheFile w; diskWritable := diskWritable w;
     network := network w; requests := requests w;
     isPublicKey := isPublicKey w;
     lbPairIfExists := lbPairIfExists w; lbPairs := lbPairs w;
     sdkCalls := sdkCalls w |}.

Definition ttl (w : World) : Q := getCacheTtlMs (ttlFromEnv w).

(** The disk tier of [ensureRawPairs]: the array of a file younger than the
    TTL; anything thrown on the way is swallowed. *)
Definition disk_lookup (w : World) : option (list Pair) :=
  match cacheFile w with
  | Some f =>
      if younger (clock w) (mtimeMs f) (ttl w) then
        match content f with
        | JsonArray data => Some data
        | JsonOther | Unreadable => None
        end
      else None
  | None => None
  end.

(** [Array.isArray(json) ? json : json?.data || json?.rows || []] *)
Definition listing_items (json : Json Pair) : list Pair :=
  match json with
  | JArray items => items
  | JObject (Some data) _ => data
  | JObject None (Some rows) => rows
  | JObject None None => []
  end.

(** The network tier of [ensureRawPairs]. *)
Definition fetch_pairs : M (list Pair) := fun w =>
  let now := clock w in
  let res := network w (requests w) in
  let w := with_request w in
  match res with
  | FetchRejected => (Err (Throw "fetch failed"), w)
  | HttpStatus status => (Err (Throw ("DLMM API status " ++ status)), w)
  | HttpOk json =>
      let items := listing_items json in
      let w := with_raw w items now in
      let w :=
        if diskWritable w
        then with_file w (Some {| mtimeMs := clock w;
                                  content := JsonArray items |})
        else w in
      (Ok (rawPairs w), w)
  end.

Definition ensureRawPairs : M (list Pair) := fun w =>
  let now := clock w in
  if younger now (rawLoadedAt w) (ttl w)
     && Nat.ltb 0 (List.length (rawPairs w))
  then (Ok (rawPairs w), w)
  else
    match disk_lookup w with
    | Some data =>
        let w := with_raw w data now in
        (Ok (rawPairs w), w)
    | None => fetch_pairs w
    end.

(** One turn of the loop of [loadPairsFromApiIfNeeded]. *)
Definition cache_pair (m : gmap string string) (it : Pair)
  : gmap string string :=
  if negb (truthy_str (mint_x it)) || negb (truthy_str (mint_y it)) then m
  else
    match mint_x it, mint_y it with
    | Some mx, Some my =>
        if negb (String.eqb mx WSOL) && negb (String.eqb my WSOL) then m
        else
          let other := if String.eqb mx WSOL then my else mx in
          if negb (truthy_str (Some other)) || negb (truthy_str (address it))
          then m
          else
            match address it with
            | Some address =>
                <[normalizeKey WSOL other := address]>
                  (<[normalizeKey other WSOL := address]> m)
            | None => m
            end
    | _, _ => m
    end.

Definition loadPairsFromApiIfNeeded : M unit := fun w =>
  let now := clock w in
  if younger now (cacheLoadedAt w) (ttl w)
     && Nat.ltb 0 (size (pairCache w))
  then (Ok tt, w)
  else
    match ensureRawPairs w with
    | (Ok items, w) =>
        (Ok tt, with_pairCache w (fold_left cache_pair items (pairCache w))
                  (clock w))
    | (Err _, w) => (Ok tt, w)
    end.

Section Resolver.

Context (R : JsRuntime).

(** The filter of [findMintWsolPair]: exact mints, either order. *)
Definition is_candidate (token : string) (it : Pair) : bool :=
  (bool_decide (mint_x it = Some token) && bool_decide (mint_y it = Some WSOL))
  || (bool_decide (mint_y it = Some token) && bool_decide (mint_x it = Some WSOL)).

Definition tokenReserve (token : string) (it : Pair) : number :=
  let tokenIsX := bool_decide (mint_x it = Some token) in
  JS.or (Number_of R (if tokenIsX then reserve_x_amount it
                      else reserve_y_amount it)) JS.zero.

Definition totalLiq (it : Pair) : number :=
  match liquidity it with
  | Str s => parseFloat R s
  | v => JS.or (Number_of R v) JS.zero
  end.

Definition score (token : string) (it : Pair) : number :=
  if JS.gt (tokenReserve token it) JS.zero
  then tokenReserve token it
  else totalLiq it.

(** The accumulator [{ address, score }] of the [reduce]. *)
Record Best : Type := {
  best_address : option string;
  best_score : number
}.

Definition reducer (token : string) (acc : option Best) (it : Pair)
  : option Best :=
  let score := score token it in
  match acc with
  | None => Some {| best_address := address it; best_score := score |}
  | Some a =>
      if JS.gt score (best_score a)
      then Some {| best_address := address it; best_score := score |}
      else acc
  end.

(** The snapshot strategy: the address of the best candidate, when there
    is a candidate and its address is truthy. *)
Definition snapshot_best (token : string) (items : list Pair)
  : option string :=
  let subset := List.filter (is_candidate token) items in
  match fold_left (reducer token) subset None with
  | Some best =>
      if truthy_str (best_address best) then best_address best else None
  | None => None
  end.

(** The loop over [DLMM.getLbPairs]: the first account of the pair. *)
Definition scan (token : string) (all : list LbPairAccount)
  : option PublicKey :=
  option_map lb_publicKey
    (List.find
       (fun acc =>
          truthy_str (tokenXMint acc) && truthy_str (tokenYMint acc)
          && ((bool_decide (tokenXMint acc = Some token)
               && bool_decide (tokenYMint acc = Some WSOL))
              || (bool_decide (tokenYMint acc = Some token)
                  && bool_decide (tokenXMint acc = Some WSOL))))
       all).

Definition new_PublicKey (s : string) : M PublicKey := fun w =>
  if isPublicKey w s then (Ok s, w)
  else (Err (Throw "Invalid public key input"), w).

Definition not_found : Error :=
  Throw "Meteora DLMM pool for mint-WSOL not found".

(** Fallback 2 of [findMintWsolPair] and the final [throw]. *)
Definition full_scan (token : string) : M PublicKey := fun w =>
  let w := with_call w GetLbPairs in
  match lbPairs w with
  | Ok all =>
      match scan token all with
      | Some pk => (Ok pk, w)
      | None => (Err not_found, w)
      end
  | Err _ => (Err not_found, w)
  end.

(** Fallback 1 of [findMintWsolPair], then fallback 2. *)
Definition sdk_helper (token : string) : M PublicKey := fun w =>
  let w := with_call w (GetCustomizablePermissionlessLbPairIfExists token WSOL) in
  match lbPairIfExists w token WSOL with
  | Err e => (Err e, w)
  | Ok (Some found) => (Ok found, w)
  | Ok None =>
      let w := with_call w (GetCustomizablePermissionlessLbPairIfExists WSOL token) in
      match lbPairIfExists w WSOL token with
      | Err e => (Err e, w)
      | Ok (Some found) => (Ok found, w)
      | Ok None => full_scan token w
      end
  end.

(** [const cached = pairCache.get(key); if (cached)] *)
Definition cache_hit (w : World) (key : string) : option string :=
  match pairCache w !! key with
  | Some (String _ _ as cached) => Some cached
  | _ => None
  end.

(** The prebuilt pair cache, then the SDK fallbacks. *)
Definition prebuilt_cache (token : string) : M PublicKey := fun w =>
  let key := normalizeKey token WSOL in
  let '(_, w) := loadPairsFromApiIfNeeded w in
  match cache_hit w key with
  | Some cached => new_PublicKey cached w
  | None => sdk_helper token w
  end.

Definition findMintWsolPair (mint : PublicKey) : M PublicKey := fun w =>
  let token := mint in
  match ensureRawPairs w with
  | (Err e, w) => (Err e, w)
  | (Ok items, w) =>
      match snapshot_best token items with
      | Some address => new_PublicKey address w
      | None => prebuilt_cache token w
      end
  end.

End Resolver.

End Dlmm.

(** ** The two-tier pair cache of the DAMM clients *)

Module PairCache.

Section Tiers.

Context {A : Type}.

Record World : Type := {
  (** [Date.now()] *)
  clock : Z;
  (** [Number(process.env.PAIRS_CACHE_TTL_MS)] *)
  ttlFromEnv : number;
  (** the static [pairCache]: pair key to [{ data, loadedAt }] *)
  pairCache : gmap string (list A * Z);
  (** the cache files, by pair key *)
  files : gmap string (File A);
  diskWritable : bool;
  (** the answer to the n-th request, and the requests sent so far *)
  network : nat -> HttpResponse A;
  requests : nat;
  (** [new PublicKey(s)] accepts [s] *)
  isPublicKey : string -> bool
}.

Definition M (B : Type) : Type := World -> result B * World.

Definition with_entry (w : World) (pairKey : string) (data : list A)
  (loadedAt : Z) : World :=
  {| clock := clock w; ttlFromEnv := ttlFromEnv w;
     pairCache := <[pairKey := (data, loadedAt)]> (pairCache w);
     files := files w; diskWritable := diskWritable w;
     network := network w; requests := requests w;
     isPublicKey := isPublicKey w |}.

Definition with_file (w : World) (pairKey : string) (f : File A) : World :=
  {| clock := clock w; ttlFromEnv := ttlFromEnv w;
     pairCache := pairCache w;
     files := <[pairKey := f]> (files w); diskWritable := diskWritable w;
     network := network w; requests := requests w;
     isPublicKey := isPublicKey w |}.

Definition with_requests (w : World) (n : nat) : World :=
  {| clock := clock w; ttlFromEnv := ttlFromEnv w;
     pairCache := pairCache w;
     files := files w; diskWritable := diskWritable w;
     network := network w; requests := n;
     isPublicKey := isPublicKey w |}.

(** The caller lets time pass between two calls. *)
Definition at_time (w : World) (t : Z) : World :=
  {| clock := t; ttlFromEnv := ttlFromEnv w;
     pairCache := pairCache w;
     files := files w; diskWritable := diskWritable w;
     network := network w; requests := requests w;
     isPublicKey := isPublicKey w |}.

(** A new process: the static [pairCache] is empty again, the cache files
    are as the last process left them. *)
Definition restart (w : World) : World :=
  {| clock := clock w; ttlFromEnv := ttlFromEnv w;
     pairCache := ∅;
     files := files w; diskWritable := diskWritable w;
     network := network w; requests := requests w;
     isPublicKey := isPublicKey w |}.

Definition ttl (w : World) : Q := getCacheTtlMs (ttlFromEnv w).

(** [mem && now - mem.loadedAt < ttl] *)
Definition memory_lookup (w : World) (pairKey : string) : option (list A) :=
  match pairCache w !! pairKey with
  | Some (data, loadedAt) =>
      if younger (clock w) loadedAt (ttl w) then Some data else None
  | None => None
  end.

(** The [try] block over the cache file. *)
Definition disk_lookup (w : World) (pairKey : string) : option (list A) :=
  match files w !! pairKey with
  | Some f =>
      if younger (clock w) (mtimeMs f) (ttl w) then
        match content f with
        | JsonArray data => Some data
        | JsonOther | Unreadable => None
        end
      else None
  | None => None
  end.

(** What follows a successful fetch: both tiers are written, the file
    only if the disk takes it. *)
Definition store (pairKey : string) (items : list A) (now : Z) (w : World)
  : World :=
  let w := with_entry w pairKey items now in
  if diskWritable w
  then with_file w pairKey {| mtimeMs := clock w; content := JsonArray items |}
  else w.

(** [fetchPoolsForTokenPair] around its network tier [query]. *)
Definition cached (pairKey : string) (query : M (list A)) : M (list A) :=
  fun w =>
    let now := clock w in
    match memory_lookup w pairKey with
    | Some data => (Ok data, w)
    | None =>
        match disk_lookup w pairKey with
        | Some data => (Ok data, with_entry w pairKey data now)
        | None =>
            match query w with
            | (Ok items, w) => (Ok items, store pairKey items now w)
            | (Err e, w) => (Err e, w)
            end
        end
    end.

(** One [fetch] of a listing endpoint. *)
Definition request (w : World) : HttpResponse A * World :=
  (network w (requests w), with_requests w (S (requests w))).

Definition new_PublicKey (s : string) : M PublicKey := fun w =>
  if isPublicKey w s then (Ok s, w)
  else (Err (Throw "Invalid public key input"), w).

End Tiers.

Arguments World A : clear implicits.
Arguments M A B : clear implicits.

End PairCache.

(** [map.set(key, v)] on a [Map] whose [values()] are read in insertion
    order: a key already present keeps its place. *)
Fixpoint ordered_set {V : Type} (m : list (string * V)) (key : string) (v : V)
  : list (string * V) :=
  match m with
  | [] => [(key, v)]
  | (k, v') :: rest =>
      if String.eqb k key then (k, v) :: rest
      else (k, v') :: ordered_set rest key v
  end.

(** ** meteora-damm-v2/client.ts *)

Module DammV2.

Import PairCache.

Record DammV2Pool : Type := {
  pool_address : option string;
  token_a_mint : option string;
  token_b_mint : option string;
  token_a_amount : value;
  token_b_amount : value;
  liquidity : value;
  tvl : value
}.

Definition getPairCacheKey (a b : string) : string :=
  let '(x, y) := sort2 a b in x ++ "-" ++ y.

(** [Array.isArray(json?.data) ? json.data : Array.isArray(json) ? json : []] *)
Definition listing_items (json : Json DammV2Pool) : list DammV2Pool :=
  match json with
  | JObject (Some data) _ => data
  | JArray items => items
  | JObject None _ => []
  end.

Definition queryPools : M DammV2Pool (list DammV2Pool) := fun w =>
  let '(res, w) := request w in
  match res with
  | FetchRejected => (Err (Throw "fetch failed"), w)
  | HttpStatus status => (Err (Throw ("DAMM v2 API status " ++ status)), w)
  | HttpOk json => (Ok (listing_items json), w)
  end.

(** [for (const it of [...aThenB, ...bThenA]) if (it?.pool_address) map.set(...)]
    then [Array.from(map.values())] *)
Definition dedupe (pools : list DammV2Pool) : list DammV2Pool :=
  map snd
    (fold_left
       (fun m it =>
          match pool_address it with
          | Some (String _ _ as a) => ordered_set m a it
          | _ => m
          end)
       pools []).

(** The network tier: both directions are requested before either answer
    is looked at; the first failure in that order is the one thrown. *)
Definition query_both : M DammV2Pool (list DammV2Pool) := fun w =>
  let '(r1, w) := queryPools w in
  let '(r2, w) := queryPools w in
  match r1, r2 with
  | Ok aThenB, Ok bThenA => (Ok (dedupe (aThenB ++ bThenA)), w)
  | Err e, _ => (Err e, w)
  | _, Err e => (Err e, w)
  end.

Definition fetchPoolsForTokenPair (tokenMint otherMint : string)
  : M DammV2Pool (list DammV2Pool) :=
  cached (getPairCacheKey tokenMint otherMint) query_both.

Section Resolver.

Context (R : JsRuntime).

(** [typeof raw === 'string' ? parseFloat(raw) : Number(raw ?? 0)] *)
Definition to_number (raw : value) : number :=
  match raw with
  | Str s => parseFloat R s
  | v => Number_of R (nullish v (Num JS.zero))
  end.

Definition is_candidate (targetMint wsolMint : string) (it : DammV2Pool)
  : bool :=
  truthy_str (token_a_mint it) && truthy_str (token_b_mint it)
  && ((bool_decide (token_a_mint it = Some targetMint)
       && bool_decide (token_b_mint it = Some wsolMint))
      || (bool_decide (token_b_mint it = Some targetMint)
          && bool_decide (token_a_mint it = Some wsolMint))).

Definition tokenReserve (targetMint : string) (it : DammV2Pool) : number :=
  let tokenIsA := bool_decide (token_a_mint it = Some targetMint) in
  to_number (if tokenIsA then token_a_amount it else token_b_amount it).

Definition pool_tvl (it : DammV2Pool) : number :=
  to_number (nullish (tvl it) (liquidity it)).

Definition score (targetMint : string) (it : DammV2Pool) : number :=
  if JS.gt (tokenReserve targetMint it) JS.zero
  then tokenReserve targetMint it
  else pool_tvl it.

(** The accumulator [{ it, score }] of the [reduce]. *)
Definition reducer (targetMint : string)
  (acc : option (DammV2Pool * number)) (it : DammV2Pool)
  : option (DammV2Pool * number) :=
  let score := score targetMint it in
  match acc with
  | None => Some (it, score)
  | Some (_, acc_score) =>
      if JS.gt score acc_score then Some (it, score) else acc
  end.

Definition chooseBestPool (items : list DammV2Pool)
  (targetMint wsolMint : string) : option DammV2Pool :=
  let subset := List.filter (is_candidate targetMint wsolMint) items in
  match subset with
  | [] => None
  | _ => option_map fst (fold_left (reducer targetMint) subset None)
  end.

Definition not_found : Error :=
  Throw "Meteora DAMM v2 pool for mint-WSOL not found".

Definition findPoolAddressForMint (mint : PublicKey)
  : M DammV2Pool PublicKey := fun w =>
  let token := mint in
  match fetchPoolsForTokenPair token WSOL w with
  | (Err e, w) => (Err e, w)
  | (Ok items, w) =>
      match chooseBestPool items token WSOL with
      | Some {| pool_address := Some (String _ _ as a) |} =>
          new_PublicKey a w
      | _ => (Err not_found, w)
      end
  end.

End Resolver.

End DammV2.

(** ** meteora-damm-v1/client.ts *)

Module DammV1.

Import PairCache.

(** A record of the [pools/search] answer. *)
Record Pool : Type := {
  pool_address : option string;
  pool_token_mints : option (list string);
  pool_token_usd_amounts : option (list string);
  pool_tvl : option string
}.

Definition getPairCacheKey (a b : string) : string :=
  let '(x, y) := sort2 a b in x ++ "-" ++ y.

(** [Array.isArray(json?.data) ? json.data : []] *)
Definition listing_items (json : Json Pool) : list Pool :=
  match json with
  | JObject (Some data) _ => data
  | _ => []
  end.

Definition search : M Pool (list Pool) := fun w =>
  let '(res, w) := request w in
  match res with
  | FetchRejected => (Err (Throw "fetch failed"), w)
  | HttpStatus status => (Err (Throw ("DAMM v1 API status " ++ status)), w)
  | HttpOk json => (Ok (listing_items json), w)
  end.

Definition fetchPoolsForTokenPair (tokenMint otherMint : string)
  : M Pool (list Pool) :=
  cached (getPairCacheKey tokenMint otherMint) search.

Section Resolver.

Context (R : JsRuntime).

Definition is_candidate (token : string) (it : Pool) : bool :=
  match pool_token_mints it with
  | Some [m0; m1] =>
      (String.eqb m0 token && String.eqb m1 WSOL)
      || (String.eqb m1 token && String.eqb m0 WSOL)
  | _ => false
  end.

(** [parseFloat(x ?? '0') || 0] *)
Definition parse_or_zero (x : option string) : number :=
  JS.or (parseFloat R (default "0" x)) JS.zero.

Definition score (token : string) (it : Pool) : number :=
  let idx :=
    match pool_token_mints it with
    | Some (m0 :: _) => if String.eqb m0 token then 0%nat else 1%nat
    | _ => 1%nat
    end in
  let tokenUsd :=
    parse_or_zero (mbind (fun l => nth_error l idx)
                     (pool_token_usd_amounts it)) in
  let tvl := parse_or_zero (pool_tvl it) in
  if JS.gt tokenUsd JS.zero then tokenUsd else tvl.

(** The accumulator [{ address, score }] of the [reduce]. *)
Definition reducer (token : string) (acc : option (option string * number))
  (it : Pool) : option (option string * number) :=
  let score := score token it in
  match acc with
  | None => Some (pool_address it, score)
  | Some (_, acc_score) =>
      if JS.gt score acc_score then Some (pool_address it, score) else acc
  end.

Definition not_found : Error :=
  Throw "Meteora DAMM v1 pool for mint-WSOL not found".
Definition address_not_found : Error :=
  Throw "Meteora DAMM v1 pool address not found".

Definition findPoolAddressForMint (mint : PublicKey) : M Pool PublicKey :=
  fun w =>
  let token := mint in
  match fetchPoolsForTokenPair token WSOL w with
  | (Err e, w) => (Err e, w)
  | (Ok items, w) =>
      let subset := List.filter (is_candidate token) items in
      match subset with
      | [] => (Err not_found, w)
      | _ =>
          match fold_left (reducer token) subset None with
          | Some (Some (String _ _ as a), _) => new_PublicKey a w
          | _ => (Err address_not_found, w)
          end
      end
  end.

End Resolver.

End DammV1.

Definition is_number (a : number) : Prop := a <> NaN.

Definition clamp_percent (p : number) : number :=
  Math_max JS.zero (Math_min (Finite 100) p).

(** The arguments [buildTransaction] hands to the venue client. *)
Definition swap_args (params : BuildTransactionParams) : SwapArgs :=
  {| mintAddress := bp_mint params;
     wallet := publicKey (bp_wallet params);
     amount := bp_amount params;
     slippage := bp_slippage params |}.

(** The layout the end-to-end scenario with a relay tip words: the
    compute-budget instructions, then one tip instruction, then the venue
    swap instructions. *)
Fixpoint tip_then_swap (ixs : list TransactionInstruction) : bool :=
  match ixs with
  | ComputeBudgetIx _ :: rest => tip_then_swap rest
  | TipIx _ _ _ :: rest => forallb is_swap rest
  | _ => false
  end.

Definition count_tips (ixs : list TransactionInstruction) : nat :=
  List.length (List.filter is_tip ixs).

(** The memory tier of [ensureRawPairs] answers: young and not empty. *)
Definition dlmm_memory_hit (w : Dlmm.World) : bool :=
  younger (Dlmm.clock w) (Dlmm.rawLoadedAt w) (Dlmm.ttl w)
  && Nat.ltb 0 (List.length (Dlmm.rawPairs w)).

(** Pool resolution with the three strategies C5 names, in its order: the
    snapshot filter, then the SDK helper, then the full scan. *)
Definition resolve_as_worded (R : JsRuntime) (mint : PublicKey)
  : Dlmm.M PublicKey := fun w =>
  match Dlmm.ensureRawPairs w with
  | (Err e, w) => (Err e, w)
  | (Ok items, w) =>
      match Dlmm.snapshot_best R mint items with
      | Some address => Dlmm.new_PublicKey address w
      | None => Dlmm.sdk_helper mint w
      end
  end.

(** ** Sample inputs *)

Module Sample.

Definition wallet : Keypair := {| publicKey := "Wallet1" |}.

(** Constants with the thresholds quoted in [chooseProvider]: Nozomi's
    minimum tip is 0.001, Astralane's 0.00001. *)
Definition constants (dev_tip_rate : number) : Constants :=
  {| Markets := fun m =>
       match m with
       | PUMP_FUN => "PUMP_FUN" | PUMP_SWAP => "PUMP_SWAP"
       | RAYDIUM_AMM => "RAYDIUM_AMM" | RAYDIUM_CLMM => "RAYDIUM_CLMM"
       | RAYDIUM_CPMM => "RAYDIUM_CPMM"
       | RAYDIUM_LAUNCHPAD => "RAYDIUM_LAUNCHPAD"
       | METEORA_DLMM => "METEORA_DLMM" | METEORA_DAMM_V1 => "METEORA_DAMM_V1"
       | METEORA_DAMM_V2 => "METEORA_DAMM_V2" | METEORA_DBC => "METEORA_DBC"
       | ORCA_WHIRLPOOL => "ORCA_WHIRLPOOL" | MOONIT => "MOONIT"
       | HEAVEN => "HEAVEN" | SUGAR => "SUGAR" | BOOP_FUN => "BOOP_FUN"
       end;
     SwapDirection_BUY := "buy";
     SwapDirection_SELL := "sell";
     NOZOMI_TIP_ADDRESSES := ["NozomiTip1"; "NozomiTip2"];
     ASTRALANE_TIP_ADDRESSES := ["AstralaneTip1"];
     JITO_TIP_ADDRESSES := ["JitoTip1"];
     NOZOMI_MIN_TIP_SOL := Finite (1 # 1000);
     ASTRALANE_MIN_TIP_SOL := Finite (1 # 100000);
     JITO_MIN_TIP_SOL := Finite (1 # 1000);
     NOZOMI_REGIONS := [("NY", "https://ny.example"); ("FRA", "https://fra.example")];
     ASTRALANE_REGIONS := [("FR", "https://fr.example")];
     JITO_REGIONS := [("NY", "https://ny.example")];
     DEV_TIP_ADDRESS := "DevTip1";
     DEV_TIP_RATE := dev_tip_rate |}.

Definition setLimit : VenueInstruction :=
  {| v_programId := ComputeBudgetProgram_programId; v_data := "setComputeUnitLimit" |}.
Definition swapIx : VenueInstruction :=
  {| v_programId := "VenueProgram1"; v_data := "swap" |}.

(** An environment in which every address is accepted, the helper makes one
    compute-budget instruction, and the venue SDK answers with [raw]. *)
Definition env (raw : list VenueInstruction) : Env :=
  {| isPublicKey := fun _ => true;
     computeBudgetData := fun _ => ["setComputeUnitPrice"];
     env_TIP_ADDRESS := None;
     sdkTransaction := fun _ _ _ => Ok raw;
     foreignClient := fun _ _ _ => Ok raw;
     random_region := 0;
     random_tip := 0 |}.

Definition build_params (slippage : number) : BuildTransactionParams :=
  {| bp_market := "METEORA_DLMM";
     bp_direction := "buy";
     bp_wallet := wallet;
     bp_mint := "MintM";
     bp_poolAddress := None;
     bp_amount := Finite (3 # 2);
     bp_slippage := slippage;
     bp_priorityFeeSol := None;
     bp_tipAmountSol := None |}.

(** A request for mint [M], amount 1.5, slippage 1 percent. *)
Definition request (direction : string) (tip : option number) : TradeParams :=
  {| tp_market := "METEORA_DLMM";
     tp_direction := direction;
     tp_wallet := wallet;
     tp_mint := KeyText "MintM";
     tp_amount := Finite (3 # 2);
     tp_slippage := Finite 1;
     tp_priorityFeeSol := None;
     tp_tipAmountSol := tip;
     tp_poolAddress := None;
     tp_send := None;
     tp_sender := None;
     tp_antimev := None;
     tp_region := None |}.

(** A runtime whose string conversions are never reached by the samples,
    which carry their figures as numbers. *)
Definition runtime : JsRuntime :=
  {| parseFloat := fun _ => NaN; StringToNumber := fun _ => NaN |}.

(** Two DAMM v2 pools of the pair (M, WSOL): the first without target-side
    reserve and with the larger TVL, the second with a reserve of 5. *)
Definition v2_pool (a : string) (reserve tvl : Q) : DammV2.DammV2Pool :=
  {| DammV2.pool_address := Some a;
     DammV2.token_a_mint := Some "MintM";
     DammV2.token_b_mint := Some WSOL;
     DammV2.token_a_amount := Num (Finite reserve);
     DammV2.token_b_amount := Num (Finite 7);
     DammV2.liquidity := Undefined;
     DammV2.tvl := Num (Finite tvl) |}.

(** The same two pools as DLMM listing records. *)
Definition dlmm_pair (a : option string) (reserve liq : Q) : Dlmm.Pair :=
  {| Dlmm.address := a;
     Dlmm.mint_x := Some "MintM";
     Dlmm.mint_y := Some WSOL;
     Dlmm.reserve_x_amount := Num (Finite reserve);
     Dlmm.reserve_y_amount := Num (Finite 7);
     Dlmm.liquidity := Num (Finite liq) |}.

(** A process that has just started: nothing in memory, [file] on disk, a
    network that answers every request with [answer], a DLMM SDK that knows
    the pair [helper] and the accounts [accounts]. *)
Definition dlmm_world (file : option (File Dlmm.Pair)) (writable : bool)
  (answer : HttpResponse Dlmm.Pair) (helper : option PublicKey)
  (accounts : list Dlmm.LbPairAccount) : Dlmm.World :=
  {| Dlmm.clock := 1700000000000;
     Dlmm.ttlFromEnv := NaN;
     Dlmm.pairCache := ∅;
     Dlmm.cacheLoadedAt := 0;
     Dlmm.rawPairs := [];
     Dlmm.rawLoadedAt := 0;
     Dlmm.cacheFile := file;
     Dlmm.diskWritable := writable;
     Dlmm.network := fun _ => answer;
     Dlmm.requests := 0;
     Dlmm.isPublicKey := fun _ => true;
     Dlmm.lbPairIfExists := fun _ _ => Ok helper;
     Dlmm.lbPairs := Ok accounts;
     Dlmm.sdkCalls := [] |}.

Definition v2_world (answer : HttpResponse DammV2.DammV2Pool)
  : PairCache.World DammV2.DammV2Pool :=
  {| PairCache.clock := 1700000000000;
     PairCache.ttlFromEnv := NaN;
     PairCache.pairCache := ∅;
     PairCache.files := ∅;
     PairCache.diskWritable := true;
     PairCache.network := fun _ => answer;
     PairCache.requests := 0;
     PairCache.isPublicKey := fun _ => true |}.

Definition v1_world (answer : HttpResponse DammV1.Pool)
  : PairCache.World DammV1.Pool :=
  {| PairCache.clock := 1700000000000;
     PairCache.ttlFromEnv := NaN;
     PairCache.pairCache := ∅;
     PairCache.files := ∅;
     PairCache.diskWritable := true;
     PairCache.network := fun _ => answer;
     PairCache.requests := 0;
     PairCache.isPublicKey := fun _ => true |}.

End Sample.

(** ** Slippage bounds of the venue clients *)

(** [Math.round(a)]: the nearest integer, a half going up. *)
Definition Math_round (a : number) : number :=
  match a with
  | Finite q => Finite (inject_Z (Qfloor (q + (1 # 2))))
  | _ => a
  end.

(** ** meteora-dbc/client.ts *)

Module Dbc.

(** [toBpsFromFraction] *)
Definition toBpsFromFraction (slippage : number) : number :=
  let bps :=
    Math_max JS.zero
      (Math_min (Finite 10000) (Math_round (JS.mul slippage (Finite 10000)))) in
  bps.

Record World : Type := {
  (** [Date.now()] *)
  clock : Z;
  (** [Number(process.env.PAIRS_CACHE_TTL_MS)] *)
  ttlFromEnv : number;
  (** the static [baseMintToPool]: base mint to [{ pool, loadedAt }] *)
  baseMintToPool : gmap string (string * Z);
  (** [client.state.getPoolByBaseMint], and the mints it was asked for *)
  getPoolByBaseMint : string -> result (option PublicKey);
  lookups : list string
}.

Definition M (A : Type) : Type := World -> result A * World.

Definition with_lookup (w : World) (mint : string) : World :=
  {| clock := clock w; ttlFromEnv := ttlFromEnv w;
     baseMintToPool := baseMintToPool w;
     getPoolByBaseMint := getPoolByBaseMint w;
     lookups := lookups w ++ [mint] |}.

Definition with_pool (w : World) (key pool : string) (loadedAt : Z) : World :=
  {| clock := clock w; ttlFromEnv := ttlFromEnv w;
     baseMintToPool := <[key := (pool, loadedAt)]> (baseMintToPool w);
     getPoolByBaseMint := getPoolByBaseMint w;
     lookups := lookups w |}.

(** The caller lets time pass between two calls. *)
Definition at_time (w : World) (t : Z) : World :=
  {| clock := t; ttlFromEnv := ttlFromEnv w;
     baseMintToPool := baseMintToPool w;
     getPoolByBaseMint := getPoolByBaseMint w;
     lookups := lookups w |}.

Definition not_found : Error := Throw "Meteora DBC pool for base mint not found".

(** The SDK tier of [resolvePoolAddressForBaseMint]. *)
Definition resolve_via_sdk (key : string) (now : Z) : M PublicKey := fun w =>
  let pa := getPoolByBaseMint w key in
  let w := with_lookup w key in
  match pa with
  | Err e => (Err e, w)
  | Ok None => (Err not_found, w)
  | Ok (Some pool) => (Ok pool, with_pool w key pool now)
  end.

Definition resolvePoolAddressForBaseMint (baseMint : PublicKey) : M PublicKey :=
  fun w =>
  let key := baseMint in
  let mem := baseMintToPool w !! key in
  let now := clock w in
  match mem with
  | Some (pool, loadedAt) =>
      if younger now loadedAt (getCacheTtlMs (ttlFromEnv w))
      then (Ok pool, w)
      else resolve_via_sdk key now w
  | None => resolve_via_sdk key now w
  end.

End Dbc.

(** [maxFeeBps] of the DLMM client's [getBuyInstructions] and
    [getSellInstructions] *)
Definition dlmm_maxFeeBps (slippage : number) : number :=
  Math_max JS.zero
    (Math_min (Finite 10000) (Math_round (JS.mul slippage (Finite 10000)))).

(** The slippage argument of [pool.getSwapQuote] in the DAMM v1 client *)
Definition damm_v1_slippage (slippage : number) : number :=
  Math_max (Finite 1)
    (Math_min (Finite 100) (Math_round (JS.mul slippage (Finite 100)))).

(** [toPercentFromFraction] of the DAMM v2 client *)
Definition toPercentFromFraction (slippage : number) : number :=
  let pct := Math_max JS.zero (Math_min (Finite 100) (JS.mul slippage (Finite 100))) in
  JS.div (Math_round (JS.mul pct (Finite 100))) (Finite 100).

(** ** The command line (cli.ts) *)

Module Cli.

(** [s.startsWith('--')] *)
Definition is_option (s : string) : bool :=
  match s with
  | String a (String b _) => Ascii.eqb a "-" && Ascii.eqb b "-"
  | _ => false
  end.

(** [s.slice(2)] *)
Definition slice2 (s : string) : string :=
  match s with
  | String _ (String _ rest) => rest
  | _ => ""
  end.

(** [args[key] = v] on the plain object [args]: an own property is written,
    except for the key [__proto__], whose setter on [Object.prototype]
    ignores a string and leaves the object as it is. *)
Definition set_property (key v : string) (args : gmap string string)
  : gmap string string :=
  if String.eqb key "__proto__" then args else <[key := v]> args.

(** The loop of [parseArgs], from position [i]: [argv] is what is left from
    [argv[i]] on, [args] the object filled so far. *)
Fixpoint parse_from (argv : list string) (args : gmap string string)
  : gmap string string :=
  match argv with
  | [] => args
  | arg :: rest =>
      if is_option arg then
        let key := slice2 arg in
        match rest with
        | next :: after =>
            if truthy_str (Some next) && negb (is_option next)
            then parse_from after (set_property key next args)
            else parse_from rest (set_property key "true" args)
        | [] => set_property key "true" args
        end
      else parse_from rest args
  end.

Definition parseArgs (argv : list string) : gmap string string :=
  parse_from (drop 2 argv) ∅.

Definition required : list string :=
  ["market"; "direction"; "mint"; "amount"; "slippage"; "private-key"].

(** The first loop of [main]: the first required option that is missing.
    [r in args] also looks at [Object.prototype], which has none of the six
    names, so it is the test for an own property. *)
Definition check_required (args : gmap string string) : result unit :=
  match List.find (fun r => negb (bool_decide (is_Some (args !! r)))) required with
  | Some r => Err (Throw ("Missing required arg --" ++ r))
  | None => Ok tt
  end.

End Cli.

(** ** More sample inputs *)

Module SampleMore.

(** The sample constants with the Nozomi tables left empty. *)
Definition constants_without_nozomi : Constants :=
  let K := Sample.constants (Finite (1 # 1000)) in
  {| Markets := Markets K;
     SwapDirection_BUY := SwapDirection_BUY K;
     SwapDirection_SELL := SwapDirection_SELL K;
     NOZOMI_TIP_ADDRESSES := [];
     ASTRALANE_TIP_ADDRESSES := ASTRALANE_TIP_ADDRESSES K;
     JITO_TIP_ADDRESSES := JITO_TIP_ADDRESSES K;
     NOZOMI_MIN_TIP_SOL := NOZOMI_MIN_TIP_SOL K;
     ASTRALANE_MIN_TIP_SOL := ASTRALANE_MIN_TIP_SOL K;
     JITO_MIN_TIP_SOL := JITO_MIN_TIP_SOL K;
     NOZOMI_REGIONS := [];
     ASTRALANE_REGIONS := ASTRALANE_REGIONS K;
     JITO_REGIONS := JITO_REGIONS K;
     DEV_TIP_ADDRESS := DEV_TIP_ADDRESS K;
     DEV_TIP_RATE := DEV_TIP_RATE K |}.

(** The sample environment with [TIP_ADDRESS] set and a given test of
    addresses. *)
Definition env_with_tip_address (tipAddress : option string)
  (valid : string -> bool) : Env :=
  {| isPublicKey := valid;
     computeBudgetData := fun _ => ["setComputeUnitPrice"];
     env_TIP_ADDRESS := tipAddress;
     sdkTransaction := fun _ _ _ => Ok [Sample.swapIx];
     foreignClient := fun _ _ _ => Ok [Sample.swapIx];
     random_region := 0;
     random_tip := 0 |}.

Definition build_params (market direction : string) (tip : option number)
  : BuildTransactionParams :=
  {| bp_market := market;
     bp_direction := direction;
     bp_wallet := Sample.wallet;
     bp_mint := "MintM";
     bp_poolAddress := None;
     bp_amount := Finite (3 # 2);
     bp_slippage := Finite (1 # 100);
     bp_priorityFeeSol := None;
     bp_tipAmountSol := tip |}.

(** A started process whose only copy of the listing of (M, WSOL) is a cache
    file written at [mtime], with a network that is down. *)
Definition v2_world_with_file (mtime : Z) (data : list DammV2.DammV2Pool)
  : PairCache.World DammV2.DammV2Pool :=
  {| PairCache.clock := 1700000000000;
     PairCache.ttlFromEnv := NaN;
     PairCache.pairCache := ∅;
     PairCache.files :=
       {[ DammV2.getPairCacheKey "MintM" WSOL :=
            {| mtimeMs := mtime; content := JsonArray data |} ]};
     PairCache.diskWritable := true;
     PairCache.network := fun _ => FetchRejected;
     PairCache.requests := 0;
     PairCache.isPublicKey := fun _ => true |}.

(** A DBC client that has resolved nothing yet, over an SDK giving
    [answer] for every mint. *)
Definition dbc_world (answer : result (option PublicKey)) : Dbc.World :=
  {| Dbc.clock := 1700000000000;
     Dbc.ttlFromEnv := NaN;
     Dbc.baseMintToPool := ∅;
     Dbc.getPoolByBaseMint := fun _ => answer;
     Dbc.lookups := [] |}.

End SampleMore.

(** * Properties *)

(** ** Numbers *)

Lemma Qlt_bool_iff (x y : Q) : Qlt_bool x y = true <-> (x < y)%Q.
Proof.
  unfold Qlt_bool. rewrite negb_true_iff. split.
  - intros H. apply Qnot_le_lt. intros Hle.
    apply Qle_bool_iff in Hle. congruence.
  - intros H. destruct (Qle_bool y x) eqn:Hle; [|reflexivity].
    apply Qle_bool_iff in Hle. exfalso. apply (Qlt_not_le _ _ H Hle).
Qed.

Lemma Qlt_bool_false_iff (x y : Q) : Qlt_bool x y = false <-> (y <= x)%Q.
Proof.
  unfold Qlt_bool. rewrite negb_false_iff. apply Qle_bool_iff.
Qed.

Ltac number_cases :=
  repeat match goal with
         | a : number |- _ => destruct a
         end;
  simpl in *; unfold is_number in *;
  try congruence; try reflexivity; try discriminate.

Lemma lt_trans (a b c : number) :
  JS.lt a b = true -> JS.lt b c = true -> JS.lt a c = true.
Proof.
  number_cases. rewrite !Qlt_bool_iff. apply Qlt_trans.
Qed.

Lemma le_lt_trans (a b c : number) :
  JS.le a b = true -> JS.lt b c = true -> JS.lt a c = true.
Proof.
  number_cases. rewrite Qle_bool_iff, !Qlt_bool_iff. apply Qle_lt_trans.
Qed.

Lemma lt_le_incl (a b : number) : JS.lt a b = true -> JS.le a b = true.
Proof.
  number_cases. rewrite Qle_bool_iff, Qlt_bool_iff. apply Qlt_le_weak.
Qed.

Lemma not_gt_le (a b : number) :
  is_number a -> is_number b -> JS.gt a b = false -> JS.le a b = true.
Proof.
  unfold JS.gt. number_cases. intros _ _.
  rewrite Qlt_bool_false_iff, Qle_bool_iff. trivial.
Qed.

Lemma le_not_gt (a b : number) : JS.le a b = true -> JS.gt a b = false.
Proof.
  unfold JS.gt. number_cases.
  rewrite Qlt_bool_false_iff, Qle_bool_iff. trivial.
Qed.

Lemma lt_irrefl (a : number) : JS.lt a a = false.
Proof.
  number_cases. rewrite Qlt_bool_false_iff. apply Qle_refl.
Qed.

(** ** Rounding to binary64 *)

Lemma pow2_pos (e : Z) : (0 < 2 ^ e)%Q.
Proof. now apply Qpower_0_lt. Qed.

Lemma pow2_le (e e' : Z) : e <= e' -> (2 ^ e <= 2 ^ e')%Q.
Proof. intros H. apply Qpower_le_compat_l; [exact H|discriminate]. Qed.

Lemma pow2_minus (e e' : Z) : (2 ^ (e - e') == 2 ^ e / 2 ^ e')%Q.
Proof. apply Qpower_minus. discriminate. Qed.

Lemma pow2_inject (e : Z) : 0 <= e -> (inject_Z (2 ^ e) == 2 ^ e)%Q.
Proof. intros H. now apply Zpower_Qpower. Qed.

Lemma round_half_even_floor (x : Q) :
  round_half_even x = Qfloor x \/ round_half_even x = Qfloor x + 1.
Proof.
  unfold round_half_even.
  destruct (_ ?= _)%Q; [destruct (Z.even _)| |]; auto.
Qed.

Lemma round_half_even_ge (x : Q) (n : Z) :
  (inject_Z n <= x)%Q -> n <= round_half_even x.
Proof.
  intros H. apply Qfloor_resp_le in H. rewrite Qfloor_Z in H.
  destruct (round_half_even_floor x) as [-> | ->]; lia.
Qed.

Lemma round_half_even_le (x : Q) (n : Z) :
  (x <= inject_Z n)%Q -> round_half_even x <= n.
Proof.
  intros H. pose proof (Qfloor_resp_le _ _ H) as Hf. rewrite Qfloor_Z in Hf.
  destruct (Z.eq_dec (Qfloor x) n) as [Heq|Hne].
  - unfold round_half_even. rewrite Heq.
    assert (Hx : (x - inject_Z n <= 0)%Q) by lra.
    destruct (_ ?= _)%Q eqn:Hc; [|lia|].
    + apply Qeq_alt in Hc. lra.
    + apply Qgt_alt in Hc. lra.
  - destruct (round_half_even_floor x) as [-> | ->]; lia.
Qed.

Lemma round_half_even_small (x : Q) :
  (0 <= x)%Q -> (x <= 1 # 2)%Q -> round_half_even x = 0.
Proof.
  intros H0 H1.
  assert (Hf : Qfloor x = 0).
  { pose proof (Qfloor_le x). pose proof (Qlt_floor x).
    assert (0 <= Qfloor x) by (change 0 with (Qfloor 0); now apply Qfloor_resp_le).
    assert (Qfloor x < 1); [|lia].
    apply Z.lt_nge. intros Hge. rewrite Zle_Qle in Hge.
    change (inject_Z 1) with 1%Q in Hge. lra. }
  unfold round_half_even. rewrite Hf.
  destruct (_ ?= _)%Q eqn:Hc; [reflexivity|reflexivity|].
  apply Qgt_alt in Hc. change (inject_Z 0) with 0%Q in Hc. lra.
Qed.

Lemma round_half_even_above_half (x : Q) :
  (1 # 2 < x)%Q -> 1 <= round_half_even x.
Proof.
  intros H.
  assert (H0 : 0 <= Qfloor x).
  { change 0 with (Qfloor 0). apply Qfloor_resp_le. lra. }
  destruct (Z.eq_dec (Qfloor x) 0) as [Heq|Hne].
  - unfold round_half_even. rewrite Heq. change (inject_Z 0) with 0%Q.
    destruct (_ ?= _)%Q eqn:Hc; [|  |lia].
    + apply Qeq_alt in Hc. lra.
    + apply Qlt_alt in Hc. lra.
  - destruct (round_half_even_floor x) as [-> | ->]; lia.
Qed.

Lemma ilog2_le (a : Q) : (0 < a)%Q -> (2 ^ ilog2 a <= a)%Q.
Proof.
  intros Ha. unfold ilog2. destruct a as [p d]. cbn [Qnum Qden].
  set (lp := Z.log2 p). set (ld := Z.log2 (Z.pos d)).
  destruct (Qle_bool (2 ^ (lp - ld)) (p # d)) eqn:Hk; [now apply Qle_bool_iff|].
  unfold Qlt in Ha. cbn [Qnum Qden] in Ha. rewrite Z.mul_1_r in Ha.
  change (0 * Z.pos d) with 0 in Ha.
  assert (Hp : 2 ^ lp <= p) by (apply Z.log2_spec; lia).
  assert (Hd : Z.pos d < 2 ^ (ld + 1)).
  { replace (ld + 1) with (Z.succ ld) by lia. apply Z.log2_spec. lia. }
  assert (Hlp : 0 <= lp) by apply Z.log2_nonneg.
  assert (Hld : 0 <= ld) by apply Z.log2_nonneg.
  replace (lp - ld - 1) with (lp - (ld + 1)) by lia.
  rewrite pow2_minus.
  rewrite <- !pow2_inject by lia.
  rewrite Zlt_Qlt in Hd. rewrite Zle_Qle in Hp.
  assert (Hq : (p # d == inject_Z p / inject_Z (Z.pos d))%Q) by apply Qmake_Qdiv.
  rewrite Hq.
  assert (Hdp : (0 < inject_Z (Z.pos d))%Q) by reflexivity.
  assert (Hpp : (inject_Z 0 < inject_Z p)%Q) by (rewrite <- Zlt_Qlt; lia).
  change (inject_Z 0) with 0%Q in Hpp.
  set (P := inject_Z p) in *. set (D := inject_Z (Z.pos d)) in *.
  set (A := inject_Z (2 ^ lp)) in *.
  set (B := inject_Z (2 ^ (ld + 1))) in *.
  assert (HA : (inject_Z 0 < A)%Q) by (unfold A; rewrite <- Zlt_Qlt; lia).
  change (inject_Z 0) with 0%Q in HA.
  apply Qle_shift_div_r; [lra|].
  apply Qle_trans with P; [exact Hp|].
  apply Qle_trans with (P / D * D)%Q.
  - assert (Hs : (P / D * D == P)%Q) by (field; lra). rewrite Hs. apply Qle_refl.
  - apply Qmult_le_l; [|lra]. apply Qlt_shift_div_l; lra.
Qed.

Lemma nearest64_nonneg (a : Q) : (0 < a)%Q -> (0 <= nearest64 a)%Q.
Proof.
  intros Ha. unfold nearest64. set (e := Z.max _ _).
  pose proof (pow2_pos e) as HP.
  apply Qmult_le_0_compat; [|lra].
  change 0%Q with (inject_Z 0). rewrite <- Zle_Qle.
  apply round_half_even_ge. change (inject_Z 0) with 0%Q.
  apply Qle_shift_div_l; lra.
Qed.

(** On the integers below [2^53] the grid of binary64 is at least as fine as
    the integers. *)
Lemma scaled_integer (b e : Z) :
  e <= 0 -> (inject_Z (b * 2 ^ (- e)) == inject_Z b / 2 ^ e)%Q.
Proof.
  intros He. rewrite inject_Z_mult, pow2_inject by lia.
  rewrite Qpower_opp. reflexivity.
Qed.

Lemma normal_significand (a : Q) :
  (0 < a)%Q -> (inject_Z (2 ^ 52) <= a / 2 ^ (ilog2 a - 52))%Q.
Proof.
  intros Ha. pose proof (ilog2_le a Ha) as Hlog.
  pose proof (pow2_pos (ilog2 a - 52)) as HP.
  assert (Hsplit : (2 ^ ilog2 a == 2 ^ (ilog2 a - 52) * 2 ^ 52)%Q).
  { rewrite <- Qpower_plus by discriminate.
    now replace (ilog2 a - 52 + 52) with (ilog2 a) by lia. }
  rewrite pow2_inject by lia. apply Qle_shift_div_l; [exact HP|].
  rewrite Qmult_comm, <- Hsplit. exact Hlog.
Qed.

Lemma coarse_grid (a : Q) :
  (0 < a)%Q -> 0 < Z.max (-1074) (ilog2 a - 52) ->
  (2 ^ 53 <= a)%Q
  /\ (inject_Z (2 ^ 52) <= a / 2 ^ Z.max (-1074) (ilog2 a - 52))%Q.
Proof.
  intros Ha He.
  assert (Hmax : Z.max (-1074) (ilog2 a - 52) = ilog2 a - 52) by lia.
  rewrite Hmax in *. split; [|now apply normal_significand].
  apply Qle_trans with (2 ^ ilog2 a)%Q; [|now apply ilog2_le].
  apply pow2_le. lia.
Qed.

Lemma nearest64_ge (b : Z) (a : Q) :
  0 <= b < 2 ^ 53 -> (0 < a)%Q -> (inject_Z b <= a)%Q ->
  (inject_Z b <= nearest64 a)%Q.
Proof.
  intros Hb Ha Hba. unfold nearest64.
  destruct (Z_le_gt_dec (Z.max (-1074) (ilog2 a - 52)) 0) as [He|He].
  - set (e := Z.max _ _) in *. pose proof (pow2_pos e) as HP.
    assert (Hn : b * 2 ^ (- e) <= round_half_even (a / 2 ^ e)).
    { apply round_half_even_ge. rewrite scaled_integer by exact He.
      apply Qmult_le_compat_r; [exact Hba|].
      apply Qlt_le_weak, Qinv_lt_0_compat, HP. }
    rewrite Zle_Qle, scaled_integer in Hn by exact He.
    apply Qle_trans with (inject_Z b / 2 ^ e * 2 ^ e)%Q.
    + assert (Hs : (inject_Z b / 2 ^ e * 2 ^ e == inject_Z b)%Q) by (field; lra).
      rewrite Hs. apply Qle_refl.
    + apply Qmult_le_compat_r; [exact Hn|lra].
  - destruct (coarse_grid a Ha ltac:(lia)) as [_ Hm].
    set (e := Z.max _ _) in *. pose proof (pow2_pos e) as HP.
    apply round_half_even_ge in Hm. rewrite Zle_Qle in Hm.
    assert (H2 : (2 ^ 1 <= 2 ^ e)%Q) by (apply pow2_le; lia).
    change (2 ^ 1)%Q with 2%Q in H2.
    destruct Hb as [_ Hb]. rewrite Zlt_Qlt in Hb.
    assert (H53 : (inject_Z (2 ^ 53) == inject_Z (2 ^ 52) * 2)%Q) by reflexivity.
    apply Qle_trans with (inject_Z (2 ^ 52) * 2)%Q.
    + rewrite <- H53. now apply Qlt_le_weak.
    + apply Qle_trans with (inject_Z (2 ^ 52) * 2 ^ e)%Q.
      * apply Qmult_le_l; [reflexivity|exact H2].
      * apply Qmult_le_compat_r; [exact Hm|lra].
Qed.

Lemma nearest64_le (b : Z) (a : Q) :
  0 <= b < 2 ^ 53 -> (0 < a)%Q -> (a <= inject_Z b)%Q ->
  (nearest64 a <= inject_Z b)%Q.
Proof.
  intros Hb Ha Hab. unfold nearest64.
  destruct (Z_le_gt_dec (Z.max (-1074) (ilog2 a - 52)) 0) as [He|He].
  - set (e := Z.max _ _) in *. pose proof (pow2_pos e) as HP.
    assert (Hn : round_half_even (a / 2 ^ e) <= b * 2 ^ (- e)).
    { apply round_half_even_le. rewrite scaled_integer by exact He.
      apply Qmult_le_compat_r; [exact Hab|].
      apply Qlt_le_weak, Qinv_lt_0_compat, HP. }
    rewrite Zle_Qle, scaled_integer in Hn by exact He.
    apply Qle_trans with (inject_Z b / 2 ^ e * 2 ^ e)%Q.
    + apply Qmult_le_compat_r; [exact Hn|lra].
    + assert (Hs : (inject_Z b / 2 ^ e * 2 ^ e == inject_Z b)%Q) by (field; lra).
      rewrite Hs. apply Qle_refl.
  - destruct (coarse_grid a Ha ltac:(lia)) as [Hbig _].
    exfalso. destruct Hb as [_ Hb]. rewrite Zlt_Qlt in Hb.
    rewrite pow2_inject in Hb by lia. lra.
Qed.

Lemma nearest64_pos (a : Q) : (2 ^ (-1075) < a)%Q -> (0 < nearest64 a)%Q.
Proof.
  intros Ha.
  assert (Ha0 : (0 < a)%Q) by (pose proof (pow2_pos (-1075)); lra).
  unfold nearest64.
  assert (Hm : 1 <= round_half_even (a / 2 ^ Z.max (-1074) (ilog2 a - 52))).
  { destruct (Z.max_spec (-1074) (ilog2 a - 52)) as [[Hlt He]|[Hle He]].
    - rewrite He. pose proof (normal_significand a Ha0) as Hs.
      apply round_half_even_ge in Hs. lia.
    - rewrite He. apply round_half_even_above_half.
      apply Qlt_shift_div_l; [apply pow2_pos|].
      change ((1 # 2) * 2 ^ (-1074))%Q with (2 ^ (-1) * 2 ^ (-1074))%Q.
      rewrite <- Qpower_plus by discriminate. exact Ha. }
  set (e := Z.max _ _) in *. pose proof (pow2_pos e) as HP.
  rewrite Zle_Qle in Hm. change (inject_Z 1) with 1%Q in Hm.
  apply Qlt_le_trans with (1 * 2 ^ e)%Q; [lra|].
  apply Qmult_le_compat_r; [exact Hm|lra].
Qed.

Lemma nearest64_underflow (a : Q) :
  (0 < a)%Q -> (a <= 2 ^ (-1075))%Q -> (nearest64 a == 0)%Q.
Proof.
  intros Ha0 Ha. unfold nearest64. set (e := Z.max _ _).
  pose proof (pow2_pos e) as HP.
  rewrite round_half_even_small; [ring| |].
  - apply Qle_shift_div_l; lra.
  - apply Qle_shift_div_r; [exact HP|].
    apply Qle_trans with (2 ^ (-1075))%Q; [exact Ha|].
    change (1 # 2)%Q with (2 ^ (-1))%Q. rewrite <- Qpower_plus by discriminate.
    apply pow2_le. lia.
Qed.

Lemma binary64_not_NaN (x : Q) : binary64 x <> NaN.
Proof.
  unfold binary64. destruct (Qeq_bool x 0); [discriminate|].
  destruct (Qle_bool _ _); [destruct (sign_pos x)|]; discriminate.
Qed.

Lemma Qabs_of_pos (x : Q) : (0 < x)%Q -> Qabs x == x.
Proof. intros H. apply Qabs_pos. lra. Qed.

Lemma Qeq_bool_nonzero (x : Q) : ~ x == 0 -> Qeq_bool x 0 = false.
Proof.
  intros H. apply not_true_is_false. intros Hc. now apply Qeq_bool_iff in Hc.
Qed.

Lemma binary64_of_pos (x : Q) :
  (0 < x)%Q ->
  (0 <= nearest64 (Qabs x))%Q
  /\ binary64 x = if Qle_bool (2 ^ 1024) (nearest64 (Qabs x)) then Infinity
                  else Finite (nearest64 (Qabs x)).
Proof.
  intros Hx. assert (Ha : (0 < Qabs x)%Q) by (rewrite Qabs_of_pos; lra).
  split; [now apply nearest64_nonneg|].
  unfold binary64, sign_pos.
  rewrite Qeq_bool_nonzero by lra.
  apply Qlt_bool_iff in Hx. now rewrite Hx.
Qed.

Lemma binary64_of_neg (x : Q) :
  (x < 0)%Q ->
  (0 <= nearest64 (Qabs x))%Q
  /\ binary64 x = if Qle_bool (2 ^ 1024) (nearest64 (Qabs x)) then NegInfinity
                  else Finite (- nearest64 (Qabs x)).
Proof.
  intros Hx.
  assert (Ha : (0 < Qabs x)%Q).
  { rewrite Qabs_neg by lra. lra. }
  split; [now apply nearest64_nonneg|].
  unfold binary64, sign_pos.
  rewrite Qeq_bool_nonzero by lra.
  replace (Qlt_bool 0 x) with false; [reflexivity|].
  symmetry. apply Qlt_bool_false_iff. lra.
Qed.

Lemma binary64_of_zero (x : Q) : x == 0 -> binary64 x = Finite 0.
Proof.
  intros Hx. unfold binary64. apply Qeq_bool_iff in Hx. now rewrite Hx.
Qed.

Lemma Q_sign_cases (x : Q) : (x < 0)%Q \/ x == 0 \/ (0 < x)%Q.
Proof.
  destruct (Q_dec x 0) as [[H|H]|H]; auto.
Qed.

(** A result rounds to a positive number exactly when it lies above half
    the least positive binary64 value [2^-1074]. *)
Lemma binary64_pos (x : Q) :
  JS.gt (binary64 x) JS.zero = true <-> (2 ^ (-1075) < x)%Q.
Proof.
  pose proof (pow2_pos (-1075)) as Hmin. unfold JS.gt, JS.zero. split.
  - intros H. apply Qnot_le_lt. intros Hle.
    destruct (Q_sign_cases x) as [Hx|[Hx|Hx]].
    + destruct (binary64_of_neg x Hx) as [Hr Hb]. rewrite Hb in H.
      destruct (Qle_bool _ _); [discriminate|]. cbn in H.
      apply Qlt_bool_iff in H. lra.
    + rewrite (binary64_of_zero x Hx) in H. discriminate.
    + destruct (binary64_of_pos x Hx) as [Hr Hb]. rewrite Hb in H.
      assert (Hz : nearest64 (Qabs x) == 0).
      { apply nearest64_underflow; rewrite Qabs_of_pos; lra. }
      replace (Qle_bool (2 ^ 1024) (nearest64 (Qabs x))) with false in H.
      * cbn in H. apply Qlt_bool_iff in H. lra.
      * symmetry. apply not_true_is_false. intros Hc.
        apply Qle_bool_iff in Hc. pose proof (pow2_pos 1024). lra.
  - intros H. assert (Hx : (0 < x)%Q) by lra.
    destruct (binary64_of_pos x Hx) as [_ ->].
    assert (Hr : (0 < nearest64 (Qabs x))%Q).
    { apply nearest64_pos. rewrite Qabs_of_pos; lra. }
    destruct (Qle_bool _ _); [reflexivity|]. cbn. now apply Qlt_bool_iff.
Qed.

Lemma binary64_ge (b : Z) (x : Q) :
  0 <= b < 2 ^ 53 -> (inject_Z b <= x)%Q ->
  JS.le (Finite (inject_Z b)) (binary64 x) = true.
Proof.
  intros Hb Hx.
  assert (Hb0 : (0 <= inject_Z b)%Q).
  { change 0%Q with (inject_Z 0). rewrite <- Zle_Qle. lia. }
  destruct (Q_sign_cases x) as [Hn|[Hz|Hp]]; [lra| |].
  - rewrite (binary64_of_zero x Hz). cbn. apply Qle_bool_iff. lra.
  - destruct (binary64_of_pos x Hp) as [_ ->].
    destruct (Qle_bool _ _); [reflexivity|]. cbn. apply Qle_bool_iff.
    apply nearest64_ge; [exact Hb | |]; rewrite Qabs_of_pos; lra.
Qed.

Lemma binary64_le (b : Z) (x : Q) :
  0 <= b < 2 ^ 53 -> (x <= inject_Z b)%Q ->
  JS.le (binary64 x) (Finite (inject_Z b)) = true.
Proof.
  intros Hb Hx.
  assert (Hb0 : (0 <= inject_Z b)%Q).
  { change 0%Q with (inject_Z 0). rewrite <- Zle_Qle. lia. }
  destruct (Q_sign_cases x) as [Hn|[Hz|Hp]].
  - destruct (binary64_of_neg x Hn) as [Hr ->].
    destruct (Qle_bool _ _); [reflexivity|]. cbn. apply Qle_bool_iff. lra.
  - rewrite (binary64_of_zero x Hz). cbn. now apply Qle_bool_iff.
  - destruct (binary64_of_pos x Hp) as [_ ->].
    assert (Hr : (nearest64 (Qabs x) <= inject_Z b)%Q).
    { apply nearest64_le; [exact Hb | |]; rewrite Qabs_of_pos; lra. }
    replace (Qle_bool (2 ^ 1024) (nearest64 (Qabs x))) with false.
    + cbn. now apply Qle_bool_iff.
    + symmetry. apply not_true_is_false. intros Hc. apply Qle_bool_iff in Hc.
      assert (H53 : (inject_Z b < 2 ^ 53)%Q).
      { rewrite <- pow2_inject by lia. rewrite <- Zlt_Qlt. lia. }
      assert (Hbig : (2 ^ 53 <= 2 ^ 1024)%Q) by (apply pow2_le; lia).
      lra.
Qed.

(** The rounding at work: a product that is a binary64 number is kept; half
    the least positive number is a tie and goes to the even neighbour 0;
    one and a half times the least positive number is a tie and goes up to
    twice it; a product of [2^1024] is infinite. *)
Lemma binary64_samples :
  let least := (1 # 2 ^ 1074)%Q in
  let same (a : number) (q : Q) :=
    match a with Finite r => Qeq_bool r q | _ => false end in
  same (JS.mul (Finite (3 # 2)) (Finite 2)) 3%Q = true
  /\ same (JS.mul (Finite least) (Finite (1 # 2))) 0%Q = true
  /\ same (JS.mul (Finite (3 * least)) (Finite (1 # 2))) (2 * least)%Q = true
  /\ JS.mul (Finite (2 ^ 1023)) (Finite 2) = Infinity.
Proof. now vm_compute. Qed.

(** ** Appending to a transaction *)

Lemma tx_add_all_instructions (tx : Transaction) (ixs : list TransactionInstruction) :
  instructions (tx_add_all tx ixs) = (instructions tx ++ ixs)%list.
Proof.
  unfold tx_add_all. revert tx.
  induction ixs as [|ix ixs IH]; intros tx; simpl.
  - now rewrite app_nil_r.
  - rewrite IH. simpl. now rewrite <- app_assoc.
Qed.

Lemma tx_add_all_feePayer (tx : Transaction) (ixs : list TransactionInstruction) :
  feePayer (tx_add_all tx ixs) = feePayer tx.
Proof.
  unfold tx_add_all. revert tx.
  induction ixs as [|ix ixs IH]; intros tx; simpl; [reflexivity|].
  now rewrite IH.
Qed.

(** ** Pair keys *)





(** ** Slippage *)

Lemma clamp_percent_finite (q : Q) :
  exists c : Q, clamp_percent (Finite q) = Finite c /\ (0 <= c)%Q /\ (c <= 100)%Q.
Proof.
  unfold clamp_percent, Math_min, Math_max, JS.zero, JS.lt.
  destruct (Qlt_bool q 100) eqn:H100.
  - destruct (Qlt_bool 0 q) eqn:H0.
    + exists q. split; [reflexivity|]. apply Qlt_bool_iff in H100, H0.
      split; apply Qlt_le_weak; assumption.
    + exists 0%Q. split; [reflexivity|]. split; [apply Qle_refl|discriminate].
  - destruct (Qlt_bool 0 100) eqn:H0.
    + exists 100%Q. split; [reflexivity|]. split; [discriminate|apply Qle_refl].
    + discriminate.
Qed.

Lemma slippage_check_passes (f : Q) :
  (0 <= f)%Q -> (f <= 1)%Q ->
  (JS.lt (Finite f) JS.zero || JS.gt (Finite f) (Finite 1))%bool = false.
Proof.
  intros H0 H1. unfold JS.gt, JS.lt, JS.zero.
  apply orb_false_iff. split; apply Qlt_bool_false_iff; assumption.
Qed.

Lemma normalizeSlippage_finite (q : Q) :
  exists f : Q,
    normalizeSlippage (Finite q) = Ok (Finite f)
    /\ Finite f = JS.div (clamp_percent (Finite q)) (Finite 100)
    /\ (0 <= f)%Q /\ (f <= 1)%Q.
Proof.
  destruct (clamp_percent_finite q) as (c & Hc & Hc0 & Hc100).
  exists (c / 100)%Q. unfold normalizeSlippage. fold (clamp_percent (Finite q)).
  rewrite Hc. simpl. repeat split.
  - apply Qle_shift_div_l; [reflexivity|]. now rewrite Qmult_0_l.
  - apply Qle_shift_div_r; [reflexivity|]. now rewrite Qmult_1_l.
Qed.

Lemma normalizeSlippage_not_finite (p : number) :
  JS.isFinite p = false -> normalizeSlippage p = Err (Throw "Invalid slippage").
Proof. intros H. unfold normalizeSlippage. now rewrite H. Qed.

(** ** The compiler *)

Lemma assemble_ok (K : Constants) (E : Env) (params : BuildTransactionParams)
  (m : Market) (side : Side) (ixs : list TransactionInstruction) :
  createMarketClient K (bp_market params) = Ok m ->
  createDirectionInvoker K (bp_direction params) = Ok side ->
  MarketClient E m side (swap_args params) = Ok ixs ->
  assemble K E params =
  Ok {| instructions :=
          (createComputeBudgetInstructions E
             (default (Finite (1 # 10000)) (bp_priorityFeeSol params))
           ++ builder_tip E (bp_wallet params)
                (default JS.zero (bp_tipAmountSol params))
           ++ ixs)%list;
        feePayer := Some (publicKey (bp_wallet params)) |}.
Proof.
  intros Hm Hs Hix. unfold assemble, swap_args in *.
  rewrite Hm. cbn [mbind result_bind]. rewrite Hs. cbn [mbind result_bind].
  rewrite Hix. cbn [mbind result_bind].
  rewrite !tx_add_all_instructions. simpl. now rewrite <- app_assoc.
Qed.

(** C7: [buildTransaction] answers a slippage below 0 or above 1 with its
    slippage error whatever the environment holds, hence before any
    instruction is made; at exactly 0 and exactly 1 the check passes, and the
    transaction is assembled and returned when the venue client answers. *)
Theorem buildTransaction_slippage_bounds
  (K : Constants) (E : Env) (params : BuildTransactionParams) :
  (JS.lt (bp_slippage params) (Finite 0) = true
   \/ JS.gt (bp_slippage params) (Finite 1) = true ->
   buildTransaction K E params = Err (Throw "slippage must be between 0 and 1"))
  /\ (forall q : Q, bp_slippage params = Finite q -> (q == 0 \/ q == 1)%Q ->
      buildTransaction K E params = assemble K E params
      /\ forall m side ixs,
          createMarketClient K (bp_market params) = Ok m ->
          createDirectionInvoker K (bp_direction params) = Ok side ->
          MarketClient E m side (swap_args params) = Ok ixs ->
          exists tx, buildTransaction K E params = Ok tx
                     /\ instructions tx =
                        (createComputeBudgetInstructions E
                           (default (Finite (1 # 10000)) (bp_priorityFeeSol params))
                         ++ builder_tip E (bp_wallet params)
                              (default JS.zero (bp_tipAmountSol params))
                         ++ ixs)%list).
Proof.
  split.
  - intros H. unfold buildTransaction, JS.zero.
    destruct H as [-> | ->]; [reflexivity|]. now rewrite orb_true_r.
  - intros q Hq Hb.
    assert (Hpass : buildTransaction K E params = assemble K E params).
    { unfold buildTransaction. rewrite Hq.
      rewrite slippage_check_passes; [reflexivity| |];
        destruct Hb as [-> | ->]; discriminate. }
    split; [exact Hpass|].
    intros m side ixs Hm Hs Hix. rewrite Hpass.
    rewrite (assemble_ok K E params m side ixs Hm Hs Hix).
    eexists. split; reflexivity.
Qed.

Lemma buildTransaction_slippage_bounds_witness :
  let K := Sample.constants (Finite 0) in
  let E := Sample.env [Sample.swapIx] in
  buildTransaction K E (Sample.build_params (Finite (-1 # 100)))
  = Err (Throw "slippage must be between 0 and 1")
  /\ buildTransaction K E (Sample.build_params (Finite (101 # 100)))
     = Err (Throw "slippage must be between 0 and 1")
  /\ (exists tx, buildTransaction K E (Sample.build_params (Finite 0)) = Ok tx
                 /\ instructions tx
                    = [ComputeBudgetIx "setComputeUnitPrice"; SwapIx Sample.swapIx])
  /\ (exists tx, buildTransaction K E (Sample.build_params (Finite 1)) = Ok tx
                 /\ instructions tx
                    = [ComputeBudgetIx "setComputeUnitPrice"; SwapIx Sample.swapIx]).
Proof.
  intros K E. split; [|split; [|split]].
  - apply (proj1 (buildTransaction_slippage_bounds K E _)). left. reflexivity.
  - apply (proj1 (buildTransaction_slippage_bounds K E _)). right. reflexivity.
  - apply (proj2 (proj2 (buildTransaction_slippage_bounds K E
                           (Sample.build_params (Finite 0))) 0%Q
                    eq_refl (or_introl (Qeq_refl 0)))
             METEORA_DLMM Buy [SwapIx Sample.swapIx]); reflexivity.
  - apply (proj2 (proj2 (buildTransaction_slippage_bounds K E
                           (Sample.build_params (Finite 1))) 1%Q
                    eq_refl (or_intror (Qeq_refl 1)))
             METEORA_DLMM Buy [SwapIx Sample.swapIx]); reflexivity.
Defined.

(** ** The trade surface *)

Lemma normalizeSlippage_ok_inv (p f : number) :
  normalizeSlippage p = Ok f ->
  exists q : Q, f = Finite q /\ (0 <= q)%Q /\ (q <= 1)%Q.
Proof.
  destruct p as [| |q|]; try discriminate.
  destruct (normalizeSlippage_finite q) as (f' & Hf & _ & H0 & H1).
  rewrite Hf. intros [= <-]. now exists f'.
Qed.

(** The shape of every transaction [trade] hands on: the compute-budget
    instructions, the venue instructions, the developer tip, the relay tip. *)
Lemma trade_ok (K : Constants) (E : Env) (p : TradeParams)
  (mint : PublicKey) (pool : option PublicKey) (f : number)
  (m : Market) (side : Side) (ixs tips : list TransactionInstruction) :
  let tip := default JS.zero (tp_tipAmountSol p) in
  let provider := chooseProvider (tp_sender p) tip in
  normalizeMint E (tp_mint p) = Ok mint ->
  normalizePoolAddress E (tp_poolAddress p) = Ok pool ->
  normalizeSlippage (tp_slippage p) = Ok f ->
  createMarketClient K (tp_market p) = Ok m ->
  createDirectionInvoker K (tp_direction p) = Ok side ->
  MarketClient E m side
    {| mintAddress := mint; wallet := publicKey (tp_wallet p);
       amount := tp_amount p; slippage := f |} = Ok ixs ->
  provider_tip K E provider (tp_wallet p) tip = Ok tips ->
  exists o : TradeOutcome,
    trade K E p = Ok o
    /\ instructions (outcome_tx o) =
       (createComputeBudgetInstructions E
          (default (Finite (1 # 10000)) (tp_priorityFeeSol p))
        ++ ixs
        ++ dev_tip K (tp_direction p) (tp_wallet p) (tp_amount p)
        ++ tips)%list
    /\ outcome_sender o =
       (if default true (tp_send p) then Some (route provider) else None).
Proof.
  intros tip provider Hmint Hpool Hslip Hm Hs Hix Htip.
  destruct (normalizeSlippage_ok_inv _ _ Hslip) as (q & -> & H0 & H1).
  unfold trade. rewrite Hmint. cbn [mbind result_bind].
  rewrite Hpool. cbn [mbind result_bind].
  rewrite Hslip. cbn [mbind result_bind].
  unfold buildTransaction. cbn [bp_slippage].
  rewrite (slippage_check_passes q H0 H1).
  erewrite assemble_ok; [| exact Hm | exact Hs | exact Hix].
  cbn [mbind result_bind bp_priorityFeeSol bp_tipAmountSol bp_wallet default].
  fold tip. fold provider. rewrite Htip. cbn [mbind result_bind].
  destruct (default true (tp_send p)); cbn [negb];
    (eexists; split; [reflexivity|]; split; [|reflexivity]);
    cbn [outcome_tx sub_tx];
    rewrite !tx_add_all_instructions; cbn [instructions];
    change (default JS.zero None) with JS.zero;
    unfold builder_tip; cbn [JS.gt JS.lt JS.zero];
    now rewrite <- !app_assoc.
Qed.

Lemma trade_invalid_slippage (K : Constants) (E : Env) (params : TradeParams) :
  JS.isFinite (tp_slippage params) = false ->
  trade K E params =
  (_ ← normalizeMint E (tp_mint params);
   _ ← normalizePoolAddress E (tp_poolAddress params);
   Err (Throw "Invalid slippage")).
Proof.
  intros H. unfold trade.
  destruct (normalizeMint E (tp_mint params)); [|reflexivity].
  cbn [mbind result_bind].
  destruct (normalizePoolAddress E (tp_poolAddress params)); [|reflexivity].
  cbn [mbind result_bind].
  now rewrite (normalizeSlippage_not_finite _ H).
Qed.

(** [trade] is: normalise the three arguments, call [buildTransaction] on
    the record [forwarded], go on with [after_build]. *)
Lemma trade_steps (K : Constants) (E : Env) (params : TradeParams) :
  trade K E params =
  (mint ← normalizeMint E (tp_mint params);
   pool ← normalizePoolAddress E (tp_poolAddress params);
   f ← normalizeSlippage (tp_slippage params);
   tx ← buildTransaction K E (forwarded params mint pool f);
   after_build K E params tx).
Proof. reflexivity. Qed.

Lemma trade_finite_slippage (K : Constants) (E : Env) (params : TradeParams)
  (q : Q) :
  tp_slippage params = Finite q ->
  trade K E params =
  (mint ← normalizeMint E (tp_mint params);
   pool ← normalizePoolAddress E (tp_poolAddress params);
   tx ← assemble K E
          (forwarded params mint pool
             (JS.div (Math_max (Finite 0) (Math_min (Finite 100) (Finite q)))
                (Finite 100)));
   after_build K E params tx).
Proof.
  intros Hq. rewrite trade_steps, Hq.
  destruct (normalizeSlippage_finite q) as (f & Hf & Hdiv & H0 & H1).
  change (Math_max (Finite 0) (Math_min (Finite 100) (Finite q)))
    with (clamp_percent (Finite q)).
  rewrite Hf, <- Hdiv.
  destruct (normalizeMint E (tp_mint params)); [|reflexivity].
  cbn [mbind result_bind].
  destruct (normalizePoolAddress E (tp_poolAddress params)); [|reflexivity].
  cbn [mbind result_bind].
  unfold buildTransaction. cbn [forwarded bp_slippage].
  now rewrite (slippage_check_passes f H0 H1).
Qed.

(** C10: a finite slippage [p] given to [buy] or [sell] reaches
    [buildTransaction] as [clamp(p, 0, 100) / 100], a value of [[0, 1]] on
    which the compiler's range check passes.  So [buy] and [sell] are: the
    normalisation of the mint and of the pool address, then the compiler
    past its range check ([assemble]) on the record that carries this
    fraction as its slippage, then the tips and the hand-over; the range
    error is not among their outcomes.  A slippage that is not finite makes
    [buy] and [sell] fail, with ['Invalid slippage'] once the mint and the
    pool address are accepted, and in no case is a transaction built. *)
Theorem normalizeSlippage_forwards_fraction (K : Constants) (E : Env) :
  (forall q : Q, exists f : Q,
      normalizeSlippage (Finite q) = Ok (Finite f)
      /\ Finite f = JS.div (Math_max (Finite 0) (Math_min (Finite 100) (Finite q)))
                      (Finite 100)
      /\ (0 <= f)%Q /\ (f <= 1)%Q
      /\ forall bp : BuildTransactionParams,
          bp_slippage bp = Finite f ->
          buildTransaction K E bp = assemble K E bp)
  /\ (forall (params : TradeParams) (q : Q),
         tp_slippage params = Finite q ->
         let fraction :=
           JS.div (Math_max (Finite 0) (Math_min (Finite 100) (Finite q)))
             (Finite 100) in
         let run (direction : string) :=
           let request := with_direction params direction in
           mint ← normalizeMint E (tp_mint params);
           pool ← normalizePoolAddress E (tp_poolAddress params);
           tx ← assemble K E (forwarded request mint pool fraction);
           after_build K E request tx in
         buy K E params = run (SwapDirection_BUY K)
         /\ sell K E params = run (SwapDirection_SELL K))
  /\ (forall p : number, JS.isFinite p = false ->
      normalizeSlippage p = Err (Throw "Invalid slippage")
      /\ forall params : TradeParams, tp_slippage params = p ->
          buy K E params =
            (_ ← normalizeMint E (tp_mint params);
             _ ← normalizePoolAddress E (tp_poolAddress params);
             Err (Throw "Invalid slippage"))
          /\ sell K E params =
            (_ ← normalizeMint E (tp_mint params);
             _ ← normalizePoolAddress E (tp_poolAddress params);
             Err (Throw "Invalid slippage"))
          /\ is_ok (buy K E params) = false
          /\ is_ok (sell K E params) = false).
Proof.
  split; [|split].
  - intros q. destruct (normalizeSlippage_finite q) as (f & Hf & Hdiv & H0 & H1).
    exists f. repeat split; try assumption.
    intros bp Hbp. unfold buildTransaction. rewrite Hbp.
    now rewrite (slippage_check_passes f H0 H1).
  - intros params q Hq fraction run. subst run fraction. unfold buy, sell.
    split.
    + exact (trade_finite_slippage K E
               (with_direction params (SwapDirection_BUY K)) q Hq).
    + exact (trade_finite_slippage K E
               (with_direction params (SwapDirection_SELL K)) q Hq).
  - intros p Hp. split; [now apply normalizeSlippage_not_finite|].
    intros params Hparams.
    assert (Hb : buy K E params =
                 (_ ← normalizeMint E (tp_mint params);
                  _ ← normalizePoolAddress E (tp_poolAddress params);
                  Err (Throw "Invalid slippage"))).
    { unfold buy. rewrite trade_invalid_slippage; [reflexivity|].
      cbn [with_direction tp_slippage]. now rewrite Hparams. }
    assert (Hs : sell K E params =
                 (_ ← normalizeMint E (tp_mint params);
                  _ ← normalizePoolAddress E (tp_poolAddress params);
                  Err (Throw "Invalid slippage"))).
    { unfold sell. rewrite trade_invalid_slippage; [reflexivity|].
      cbn [with_direction tp_slippage]. now rewrite Hparams. }
    split; [exact Hb|]. split; [exact Hs|].
    rewrite Hb, Hs.
    destruct (normalizeMint E (tp_mint params)); [|split; reflexivity].
    cbn [mbind result_bind].
    destruct (normalizePoolAddress E (tp_poolAddress params)); split; reflexivity.
Qed.

Lemma normalizeSlippage_forwards_fraction_witness :
  let K := Sample.constants (Finite 0) in
  let E := Sample.env [Sample.swapIx] in
  let request (slippage : number) :=
    {| tp_market := "METEORA_DLMM"; tp_direction := "buy";
       tp_wallet := Sample.wallet; tp_mint := KeyText "MintM";
       tp_amount := Finite (3 # 2); tp_slippage := slippage;
       tp_priorityFeeSol := None; tp_tipAmountSol := None;
       tp_poolAddress := None; tp_send := None; tp_sender := None;
       tp_antimev := None; tp_region := None |} in
  normalizeSlippage NaN = Err (Throw "Invalid slippage")
  /\ (buy K E (request Infinity) = Err (Throw "Invalid slippage")
      /\ is_ok (sell K E (request Infinity)) = false)
  /\ (exists f : Q,
         normalizeSlippage (Finite 250) = Ok (Finite f)
         /\ buildTransaction K E (Sample.build_params (Finite f))
            = assemble K E (Sample.build_params (Finite f)))
  /\ buy K E (request (Finite 250)) =
     (tx ← assemble K E
            (forwarded (with_direction (request (Finite 250)) "buy")
               "MintM" None (Finite (100 / 100)));
      after_build K E (with_direction (request (Finite 250)) "buy") tx).
Proof.
  intros K E request.
  split; [exact (proj1 (proj2 (proj2 (normalizeSlippage_forwards_fraction K E))
                         NaN eq_refl))|].
  split; [|split].
  - pose proof (proj2 (proj2 (proj2 (normalizeSlippage_forwards_fraction K E))
                         Infinity eq_refl) (request Infinity) eq_refl)
      as (Hb & _ & _ & Hs).
    split; [exact Hb | exact Hs].
  - destruct (proj1 (normalizeSlippage_forwards_fraction K E) 250%Q)
      as (f & Hf & _ & _ & _ & Hbuild).
    exists f. split; [exact Hf|]. apply Hbuild. reflexivity.
  - exact (proj1 (proj1 (proj2 (normalizeSlippage_forwards_fraction K E))
                    (request (Finite 250)) 250%Q eq_refl)).
Defined.

Lemma Qeq_bool_pos (x : Q) : Qlt_bool 0 x = true -> Qeq_bool x 0 = false.
Proof.
  intros H. apply Qlt_bool_iff in H.
  destruct (Qeq_bool x 0) eqn:He; [|reflexivity].
  apply Qeq_bool_iff in He. rewrite He in H. discriminate.
Qed.

Lemma or_zero_pos (a : number) : JS.gt a JS.zero = true -> JS.or a JS.zero = a.
Proof.
  unfold JS.gt, JS.or. destruct a as [| |q|]; simpl; try discriminate;
    [|reflexivity].
  intros H. now rewrite (Qeq_bool_pos q H).
Qed.

Lemma dev_tip_buy (K : Constants) (w : Keypair) (a : number) :
  JS.gt a JS.zero = true ->
  dev_tip K (SwapDirection_BUY K) w a =
  if JS.gt (JS.mul a (DEV_TIP_RATE K)) JS.zero
  then [TipIx (DEV_TIP_ADDRESS K) (publicKey w) (JS.mul a (DEV_TIP_RATE K))]
  else [].
Proof.
  intros Ha. unfold dev_tip. rewrite String.eqb_refl.
  now rewrite (or_zero_pos a Ha).
Qed.

Lemma dev_tip_sell (K : Constants) (w : Keypair) (a : number) :
  SwapDirection_SELL K <> SwapDirection_BUY K ->
  dev_tip K (SwapDirection_SELL K) w a = [].
Proof.
  intros Hne. unfold dev_tip.
  destruct (String.eqb_spec (SwapDirection_SELL K) (SwapDirection_BUY K));
    [contradiction|reflexivity].
Qed.

Lemma createDirectionInvoker_buy (K : Constants) :
  createDirectionInvoker K (SwapDirection_BUY K) = Ok Buy.
Proof. unfold createDirectionInvoker. now rewrite String.eqb_refl. Qed.

Lemma createDirectionInvoker_sell (K : Constants) :
  SwapDirection_SELL K <> SwapDirection_BUY K ->
  createDirectionInvoker K (SwapDirection_SELL K) = Ok Sell.
Proof.
  intros Hne. unfold createDirectionInvoker.
  destruct (String.eqb_spec (SwapDirection_SELL K) (SwapDirection_BUY K));
    [contradiction|]. now rewrite String.eqb_refl.
Qed.

(** C9, as stated, fails on a buy whose amount is so small that the
    product [amount * DEV_TIP_RATE] underflows: for the least positive
    number, [5e-324], and a rate of 0.001 the product is 0 and the
    transaction carries no developer tip. *)
Lemma tiny_buy_has_no_dev_tip :
  let K := Sample.constants (Finite (1 # 1000)) in
  let E := Sample.env [Sample.swapIx] in
  let params :=
    {| tp_market := "METEORA_DLMM"; tp_direction := "buy";
       tp_wallet := Sample.wallet; tp_mint := KeyText "MintM";
       tp_amount := Finite (1 # 2 ^ 1074); tp_slippage := Finite 1;
       tp_priorityFeeSol := None; tp_tipAmountSol := Some (Finite 0);
       tp_poolAddress := None; tp_send := None; tp_sender := None;
       tp_antimev := None; tp_region := None |} in
  JS.gt (tp_amount params) (Finite 0) = true
  /\ JS.gt (DEV_TIP_RATE K) (Finite 0) = true
  /\ JS.gt (JS.mul (tp_amount params) (DEV_TIP_RATE K)) (Finite 0) = false
  /\ exists o : TradeOutcome,
       buy K E params = Ok o
       /\ instructions (outcome_tx o) =
          [ComputeBudgetIx "setComputeUnitPrice"; SwapIx Sample.swapIx].
Proof.
  intros K E params. split; [reflexivity|]. split; [reflexivity|].
  split; [now vm_compute|]. eexists. split; now vm_compute.
Qed.

(** C9 (amended): a buy with a positive amount, under a positive
    [DEV_TIP_RATE], yields a transaction in which the venue instructions are
    followed by a tip instruction paying [amount * DEV_TIP_RATE] to
    [DEV_TIP_ADDRESS] whenever that product, as [*] computes it, is
    positive, whatever [tipAmountSol] is (the relay tip, when there is one,
    comes after it); for finite values the product is positive exactly when
    the exact product lies above [2^-1075], half the least positive number.
    When the product is 0 the buy has no such instruction, and the
    transaction of a sell never has one. *)
Theorem buy_appends_dev_tip (K : Constants) (E : Env) (params : TradeParams)
  (mint : PublicKey) (pool : option PublicKey) (f : number) (m : Market)
  (ixs tips : list TransactionInstruction) :
  let tip := default JS.zero (tp_tipAmountSol params) in
  let budget :=
    createComputeBudgetInstructions E
      (default (Finite (1 # 10000)) (tp_priorityFeeSol params)) in
  let devTipSol := JS.mul (tp_amount params) (DEV_TIP_RATE K) in
  normalizeMint E (tp_mint params) = Ok mint ->
  normalizePoolAddress E (tp_poolAddress params) = Ok pool ->
  normalizeSlippage (tp_slippage params) = Ok f ->
  createMarketClient K (tp_market params) = Ok m ->
  provider_tip K E (chooseProvider (tp_sender params) tip)
    (tp_wallet params) tip = Ok tips ->
  (JS.gt (tp_amount params) (Finite 0) = true ->
   JS.gt (DEV_TIP_RATE K) (Finite 0) = true ->
   MarketClient E m Buy
     {| mintAddress := mint; wallet := publicKey (tp_wallet params);
        amount := tp_amount params; slippage := f |} = Ok ixs ->
   (JS.gt devTipSol (Finite 0) = true ->
    exists o : TradeOutcome,
      buy K E params = Ok o
      /\ instructions (outcome_tx o) =
         (budget ++ ixs
          ++ [TipIx (DEV_TIP_ADDRESS K) (publicKey (tp_wallet params))
                devTipSol]
          ++ tips)%list)
   /\ (JS.gt devTipSol (Finite 0) = false ->
       exists o : TradeOutcome,
         buy K E params = Ok o
         /\ instructions (outcome_tx o) = (budget ++ ixs ++ tips)%list)
   /\ (forall a r : Q,
          tp_amount params = Finite a -> DEV_TIP_RATE K = Finite r ->
          JS.gt devTipSol (Finite 0) = true <-> (2 ^ (-1075) < a * r)%Q))
  /\ (SwapDirection_SELL K <> SwapDirection_BUY K ->
      MarketClient E m Sell
        {| mintAddress := mint; wallet := publicKey (tp_wallet params);
           amount := tp_amount params; slippage := f |} = Ok ixs ->
      exists o : TradeOutcome,
        sell K E params = Ok o
        /\ instructions (outcome_tx o) = (budget ++ ixs ++ tips)%list).
Proof.
  intros tip budget devTipSol Hmint Hpool Hslip Hm Htip. split.
  - intros Ha Hr Hix.
    destruct (trade_ok K E (with_direction params (SwapDirection_BUY K))
                mint pool f m Buy ixs tips) as (o & Ho & Hi & _);
      [ exact Hmint | exact Hpool | exact Hslip | exact Hm
      | apply createDirectionInvoker_buy | exact Hix | exact Htip |].
    cbn [with_direction tp_direction tp_wallet tp_amount tp_priorityFeeSol]
      in Hi.
    rewrite (dev_tip_buy K _ _ Ha) in Hi. unfold JS.zero in Hi.
    fold devTipSol budget in Hi.
    split; [|split].
    + intros Hpos. exists o. split; [exact Ho|]. now rewrite Hpos in Hi.
    + intros Hzero. exists o. split; [exact Ho|]. now rewrite Hzero in Hi.
    + intros a r Hamount Hrate. subst devTipSol. rewrite Hamount, Hrate.
      apply binary64_pos.
  - intros Hne Hix. unfold sell.
    destruct (trade_ok K E (with_direction params (SwapDirection_SELL K))
                mint pool f m Sell ixs tips) as (o & Ho & Hi & _);
      [ exact Hmint | exact Hpool | exact Hslip | exact Hm
      | now apply createDirectionInvoker_sell | exact Hix | exact Htip |].
    exists o. split; [exact Ho|]. rewrite Hi. cbn [with_direction tp_direction tp_wallet tp_amount tp_priorityFeeSol].
    now rewrite (dev_tip_sell K _ _ Hne).
Qed.

Lemma buy_appends_dev_tip_witness :
  let K := Sample.constants (Finite (1 # 1000)) in
  let E := Sample.env [Sample.swapIx] in
  (exists o : TradeOutcome,
      buy K E (Sample.request "buy" (Some (Finite 0))) = Ok o
      /\ instructions (outcome_tx o) =
         [ComputeBudgetIx "setComputeUnitPrice"; SwapIx Sample.swapIx;
          TipIx "DevTip1" "Wallet1" (JS.mul (Finite (3 # 2)) (Finite (1 # 1000)))])
  /\ (JS.gt (JS.mul (Finite (3 # 2)) (Finite (1 # 1000))) (Finite 0) = true
      <-> (2 ^ (-1075) < (3 # 2) * (1 # 1000))%Q)
  /\ (exists o : TradeOutcome,
         sell K E (Sample.request "sell" (Some (Finite 0))) = Ok o
         /\ instructions (outcome_tx o) =
            [ComputeBudgetIx "setComputeUnitPrice"; SwapIx Sample.swapIx]).
Proof.
  intros K E.
  pose proof (proj1 (buy_appends_dev_tip K E
                       (Sample.request "buy" (Some (Finite 0)))
                       "MintM" None (Finite (1 / 100)) METEORA_DLMM
                       [SwapIx Sample.swapIx] []
                       eq_refl eq_refl eq_refl eq_refl eq_refl)
                eq_refl eq_refl eq_refl) as (Hpos & _ & Hiff).
  split; [|split].
  - apply Hpos. now vm_compute.
  - exact (Hiff (3 # 2) (1 # 1000) eq_refl eq_refl).
  - apply (proj2 (buy_appends_dev_tip K E (Sample.request "sell" (Some (Finite 0)))
                    "MintM" None (Finite (1 / 100)) METEORA_DLMM
                    [SwapIx Sample.swapIx] []
                    eq_refl eq_refl eq_refl eq_refl eq_refl));
      [discriminate | reflexivity].
Defined.

(** ** The relay router *)

Lemma chooseProvider_high_tip (q : Q) :
  (q == 2 # 1000)%Q ->
  chooseProvider None (Finite q) = Some NOZOMI
  /\ JS.gt (JS.or (Finite q) JS.zero) JS.zero = true
  /\ JS.or (Finite q) JS.zero = Finite q.
Proof.
  intros Hq.
  assert (Hpos : Qlt_bool 0 q = true) by (apply Qlt_bool_iff; now rewrite Hq).
  assert (Hge : Qle_bool (1 # 1000) q = true)
    by (apply Qle_bool_iff; rewrite Hq; discriminate).
  assert (Hor : JS.or (Finite q) JS.zero = Finite q)
    by (unfold JS.or, truthy; now rewrite (Qeq_bool_pos q Hpos)).
  unfold chooseProvider. rewrite Hor.
  unfold JS.ge, JS.gt, JS.le, JS.lt, JS.zero.
  rewrite Hge, Hpos.
  replace (Qle_bool q 0) with false; [repeat split|].
  symmetry. unfold Qlt_bool in Hpos. now apply negb_true_iff.
Qed.

Lemma Math_max_pos (q : Q) (min : number) :
  (0 < q)%Q -> min <> NaN -> JS.gt (Math_max (Finite q) min) JS.zero = true.
Proof.
  intros Hq Hmin. unfold Math_max, JS.gt, JS.zero.
  destruct min as [| |y|]; [congruence| | |].
  - simpl. now apply Qlt_bool_iff.
  - cbn [JS.lt]. destruct (Qlt_bool q y) eqn:Hy; cbn [JS.lt].
    + apply Qlt_bool_iff. apply Qlt_bool_iff in Hy. now apply Qlt_trans with q.
    + now apply Qlt_bool_iff.
  - reflexivity.
Qed.

(** With a relay tip the transaction of the scenario is not laid out as C1
    words it: on a sell for mint [M] with tip 0.002 the one tip instruction
    comes after the venue instruction, not before it. *)
Lemma relay_tip_follows_swap :
  let K := Sample.constants (Finite (1 # 1000)) in
  let E := Sample.env [Sample.swapIx] in
  exists o : TradeOutcome,
    sell K E (Sample.request "sell" (Some (Finite (2 # 1000)))) = Ok o
    /\ instructions (outcome_tx o) =
       [ComputeBudgetIx "setComputeUnitPrice"; SwapIx Sample.swapIx;
        TipIx "NozomiTip1" "Wallet1" (Finite (2 # 1000))]
    /\ tip_then_swap (instructions (outcome_tx o)) = false.
Proof.
  intros K E. eexists. split; [reflexivity|]. split; reflexivity.
Qed.

(** C1 (amended): with tip 0.002 and no requested backend the router selects
    Nozomi, the final tip is [max(0.002, NOZOMI_MIN_TIP_SOL)], and the
    transaction ends with exactly one relay tip instruction of that amount,
    placed after the compute-budget instructions, after the venue swap
    instructions and after the developer tip of a buy. *)
Theorem relay_tip_is_appended_last (K : Constants) (E : Env)
  (params : TradeParams) (q : Q) (mint : PublicKey) (pool : option PublicKey)
  (f : number) (m : Market) (side : Side)
  (ixs : list TransactionInstruction) (addr : string) :
  tp_tipAmountSol params = Some (Finite q) -> (q == 2 # 1000)%Q ->
  tp_sender params = None ->
  NOZOMI_MIN_TIP_SOL K <> NaN ->
  nth_error (NOZOMI_TIP_ADDRESSES K)
    (random_index (random_tip E) (List.length (NOZOMI_TIP_ADDRESSES K)))
  = Some addr ->
  isPublicKey E addr = true ->
  normalizeMint E (tp_mint params) = Ok mint ->
  normalizePoolAddress E (tp_poolAddress params) = Ok pool ->
  normalizeSlippage (tp_slippage params) = Ok f ->
  createMarketClient K (tp_market params) = Ok m ->
  createDirectionInvoker K (tp_direction params) = Ok side ->
  MarketClient E m side
    {| mintAddress := mint; wallet := publicKey (tp_wallet params);
       amount := tp_amount params; slippage := f |} = Ok ixs ->
  let finalTip := Math_max (Finite q) (NOZOMI_MIN_TIP_SOL K) in
  chooseProvider (tp_sender params) (Finite q) = Some NOZOMI
  /\ computeProviderTip K E NOZOMI (Finite q) = Ok (addr, finalTip)
  /\ exists o : TradeOutcome,
      trade K E params = Ok o
      /\ instructions (outcome_tx o) =
         (createComputeBudgetInstructions E
            (default (Finite (1 # 10000)) (tp_priorityFeeSol params))
          ++ ixs
          ++ dev_tip K (tp_direction params) (tp_wallet params) (tp_amount params)
          ++ [TipIx addr (publicKey (tp_wallet params)) finalTip])%list
      /\ outcome_sender o =
         (if default true (tp_send params) then Some NozomiSenderClient else None).
Proof.
  intros Htip Hq Hsender Hmin Haddr Hvalid Hmint Hpool Hslip Hm Hs Hix finalTip.
  destruct (chooseProvider_high_tip q Hq) as (Hprov & Hgt & Hor).
  assert (Hcompute : computeProviderTip K E NOZOMI (Finite q) = Ok (addr, finalTip)).
  { unfold computeProviderTip. cbn [provider_tip_addresses provider_min_tip].
    rewrite Haddr. unfold new_PublicKey. rewrite Hvalid.
    cbn [mbind result_bind]. now rewrite Hor. }
  rewrite Hsender. split; [exact Hprov|]. split; [exact Hcompute|].
  assert (Hpos : JS.gt finalTip JS.zero = true).
  { apply Math_max_pos; [|exact Hmin]. rewrite Hq. reflexivity. }
  destruct (trade_ok K E params mint pool f m side ixs
              [TipIx addr (publicKey (tp_wallet params)) finalTip])
    as (o & Ho & Hi & Hroute); try assumption.
  - rewrite Htip, Hsender. cbn [default from_option id]. rewrite Hprov.
    unfold provider_tip. rewrite Hgt, Hcompute. cbn [mbind result_bind].
    now rewrite Hpos.
  - exists o. split; [exact Ho|]. split; [exact Hi|].
    rewrite Hroute, Htip, Hsender. cbn [default from_option id]. now rewrite Hprov.
Qed.

Lemma relay_tip_is_appended_last_witness :
  let K := Sample.constants (Finite (1 # 1000)) in
  let E := Sample.env [Sample.swapIx] in
  let params := Sample.request "buy" (Some (Finite (2 # 1000))) in
  chooseProvider (tp_sender params) (Finite (2 # 1000)) = Some NOZOMI
  /\ computeProviderTip K E NOZOMI (Finite (2 # 1000))
     = Ok ("NozomiTip1", Math_max (Finite (2 # 1000)) (Finite (1 # 1000)))
  /\ exists o : TradeOutcome,
      trade K E params = Ok o
      /\ instructions (outcome_tx o) =
         [ComputeBudgetIx "setComputeUnitPrice"; SwapIx Sample.swapIx;
          TipIx "DevTip1" "Wallet1" (JS.mul (Finite (3 # 2)) (Finite (1 # 1000)));
          TipIx "NozomiTip1" "Wallet1"
            (Math_max (Finite (2 # 1000)) (Finite (1 # 1000)))]
      /\ outcome_sender o = Some NozomiSenderClient.
Proof.
  intros K E params.
  apply (relay_tip_is_appended_last K E params (2 # 1000) "MintM" None
           (Finite (1 / 100)) METEORA_DLMM Buy [SwapIx Sample.swapIx] "NozomiTip1");
    try reflexivity; discriminate.
Defined.

Lemma chooseProvider_no_tip (provided : option Provider) (q : Q) :
  (q == 0)%Q -> chooseProvider provided (Finite q) = None.
Proof.
  intros Hq. unfold chooseProvider, JS.or, truthy.
  rewrite (Qeq_eq_bool _ _ Hq). reflexivity.
Qed.

(** A buy with tip 0 is not free of tip instructions, as C3 has it: with a
    positive [DEV_TIP_RATE] (here 0.001) the buy of 1.5 for mint [M] carries
    the developer tip after the venue instruction. *)
Lemma buy_without_tip_has_dev_tip :
  let K := Sample.constants (Finite (1 # 1000)) in
  let E := Sample.env [Sample.swapIx] in
  exists o : TradeOutcome,
    buy K E (Sample.request "buy" (Some (Finite 0))) = Ok o
    /\ instructions (outcome_tx o) =
       [ComputeBudgetIx "setComputeUnitPrice"; SwapIx Sample.swapIx;
        TipIx "DevTip1" "Wallet1" (JS.mul (Finite (3 # 2)) (Finite (1 # 1000)))]
    /\ JS.gt (JS.mul (Finite (3 # 2)) (Finite (1 # 1000))) JS.zero = true
    /\ count_tips (instructions (outcome_tx o)) = 1%nat
    /\ outcome_sender o = Some StandardClient.
Proof.
  intros K E. eexists. split; [now vm_compute|]. repeat split; now vm_compute.
Qed.

Lemma filter_SwapIx (p : TransactionInstruction -> bool)
  (raw : list VenueInstruction) :
  List.filter p (map SwapIx raw)
  = map SwapIx (List.filter (fun v => p (SwapIx v)) raw).
Proof.
  induction raw as [|v raw IH]; simpl; [reflexivity|].
  destruct (p (SwapIx v)); simpl; now rewrite IH.
Qed.

(** Whatever a venue client returns is made of venue instructions only. *)
Lemma MarketClient_swap_only (E : Env) (m : Market) (s : Side) (a : SwapArgs)
  (ixs : list TransactionInstruction) :
  MarketClient E m s a = Ok ixs -> exists raw, ixs = map SwapIx raw.
Proof.
  destruct m; cbn [MarketClient];
    unfold MeteoraDlmmClient, MeteoraDammV1Client, MeteoraDammV2Client,
      MeteoraDbcClient, RaydiumClmmClient, stripNonEssentialInstructions;
    match goal with
    | |- context [sdkTransaction E ?mk s a] => destruct (sdkTransaction E mk s a)
    | |- context [foreignClient E ?mk s a] => destruct (foreignClient E mk s a)
    end; cbn [mbind result_bind]; intros [= <-] || discriminate;
    rewrite ?filter_SwapIx; eexists; reflexivity.
Qed.

Lemma no_tip_among_swap (raw : list VenueInstruction) :
  List.filter is_tip (map SwapIx raw) = [].
Proof. induction raw; simpl; auto. Qed.

Lemma no_tip_among_budget (l : list string) :
  List.filter is_tip (map ComputeBudgetIx l) = [].
Proof. induction l; simpl; auto. Qed.

(** C3 (amended): a buy with tip 0 is routed to the standard backend and its
    instruction list is the compute-budget instructions of
    [createComputeBudgetInstructions] (one instruction when that helper makes
    one), then the venue swap instructions, with no tip instruction before
    or between them and no relay tip; after the swap instructions comes the
    developer tip [amount * DEV_TIP_RATE] when that product is positive, and
    nothing when it is not. *)
Theorem buy_with_zero_tip (K : Constants) (E : Env) (params : TradeParams)
  (q : Q) (mint : PublicKey) (pool : option PublicKey) (f : number)
  (m : Market) (ixs : list TransactionInstruction) :
  let budget :=
    createComputeBudgetInstructions E
      (default (Finite (1 # 10000)) (tp_priorityFeeSol params)) in
  let devTipSol := JS.mul (JS.or (tp_amount params) JS.zero) (DEV_TIP_RATE K) in
  default JS.zero (tp_tipAmountSol params) = Finite q -> (q == 0)%Q ->
  normalizeMint E (tp_mint params) = Ok mint ->
  normalizePoolAddress E (tp_poolAddress params) = Ok pool ->
  normalizeSlippage (tp_slippage params) = Ok f ->
  createMarketClient K (tp_market params) = Ok m ->
  MarketClient E m Buy
    {| mintAddress := mint; wallet := publicKey (tp_wallet params);
       amount := tp_amount params; slippage := f |} = Ok ixs ->
  exists o : TradeOutcome,
    buy K E params = Ok o
    /\ outcome_sender o =
       (if default true (tp_send params) then Some StandardClient else None)
    /\ instructions (outcome_tx o) =
       (budget ++ ixs
        ++ (if JS.gt devTipSol JS.zero
            then [TipIx (DEV_TIP_ADDRESS K) (publicKey (tp_wallet params)) devTipSol]
            else []))%list
    /\ count_tips (budget ++ ixs) = 0%nat
    /\ count_tips (instructions (outcome_tx o)) =
       (if JS.gt devTipSol JS.zero then 1%nat else 0%nat)
    /\ (forall d : string,
           computeBudgetData E
             (default (Finite (1 # 10000)) (tp_priorityFeeSol params)) = [d] ->
           exists rest, instructions (outcome_tx o) =
                        (ComputeBudgetIx d :: ixs ++ rest)%list).
Proof.
  intros budget devTipSol Htip Hq Hmint Hpool Hslip Hm Hix.
  pose proof (chooseProvider_no_tip (tp_sender params) q Hq) as Hprov.
  destruct (trade_ok K E (with_direction params (SwapDirection_BUY K))
              mint pool f m Buy ixs [])
    as (o & Ho & Hi & Hroute);
    [ exact Hmint | exact Hpool | exact Hslip | exact Hm
    | apply createDirectionInvoker_buy | exact Hix | |].
  { cbn [with_direction tp_tipAmountSol tp_sender tp_wallet].
    rewrite Htip, Hprov. reflexivity. }
  cbn [with_direction tp_tipAmountSol tp_sender tp_wallet tp_direction
         tp_amount tp_priorityFeeSol tp_send] in Hi, Hroute.
  rewrite Htip, Hprov in Hroute. cbn [route] in Hroute.
  assert (Hdev : dev_tip K (SwapDirection_BUY K) (tp_wallet params) (tp_amount params)
                 = if JS.gt devTipSol JS.zero
                   then [TipIx (DEV_TIP_ADDRESS K) (publicKey (tp_wallet params)) devTipSol]
                   else []).
  { unfold dev_tip. now rewrite String.eqb_refl. }
  rewrite Hdev, app_nil_r in Hi. fold budget in Hi.
  destruct (MarketClient_swap_only _ _ _ _ _ Hix) as (raw & ->).
  assert (Hnone : count_tips (budget ++ map SwapIx raw) = 0%nat).
  { unfold count_tips, budget, createComputeBudgetInstructions.
    now rewrite List.filter_app, no_tip_among_budget, no_tip_among_swap. }
  exists o. split; [exact Ho|]. split; [exact Hroute|]. split; [exact Hi|].
  split; [exact Hnone|]. split.
  - rewrite Hi. unfold count_tips in *.
    rewrite app_assoc, List.filter_app, length_app, Hnone.
    now destruct (JS.gt devTipSol JS.zero).
  - intros d Hd. rewrite Hi. unfold budget, createComputeBudgetInstructions.
    rewrite Hd. cbn [map app]. eexists. reflexivity.
Qed.

Lemma buy_with_zero_tip_witness :
  let K := Sample.constants (Finite (1 # 1000)) in
  let E := Sample.env [Sample.swapIx] in
  exists o : TradeOutcome,
    buy K E (Sample.request "buy" None) = Ok o
    /\ outcome_sender o = Some StandardClient
    /\ instructions (outcome_tx o) =
       [ComputeBudgetIx "setComputeUnitPrice"; SwapIx Sample.swapIx;
        TipIx "DevTip1" "Wallet1" (JS.mul (Finite (3 # 2)) (Finite (1 # 1000)))]
    /\ count_tips (instructions (outcome_tx o)) = 1%nat.
Proof.
  intros K E.
  destruct (buy_with_zero_tip K E (Sample.request "buy" None) 0 "MintM" None
              (Finite (1 / 100)) METEORA_DLMM [SwapIx Sample.swapIx]
              eq_refl (Qeq_refl 0) eq_refl eq_refl eq_refl eq_refl eq_refl)
    as (o & Ho & Hs & Hi & _ & Hc & _).
  exists o. split; [exact Ho|]. split; [exact Hs|]. split; [exact Hi|exact Hc].
Defined.

(** ** Compute-budget instructions in what the clients return *)

Lemma strip_removes_compute_budget (ixs : list TransactionInstruction) :
  Forall (fun ix => is_compute_budget ix = false)
    (stripNonEssentialInstructions ixs).
Proof.
  unfold stripNonEssentialInstructions, is_compute_budget.
  apply List.Forall_forall. intros ix Hin.
  apply List.filter_In in Hin. destruct Hin as [_ Hin].
  now apply negb_true_iff.
Qed.

(** The four Meteora clients return no compute-budget instruction, whatever
    their SDK put in the transaction. *)
Lemma meteora_clients_strip (E : Env) (m : Market) (s : Side) (a : SwapArgs)
  (ixs : list TransactionInstruction) :
  In m [METEORA_DLMM; METEORA_DAMM_V1; METEORA_DAMM_V2; METEORA_DBC] ->
  MarketClient E m s a = Ok ixs ->
  Forall (fun ix => is_compute_budget ix = false) ixs.
Proof.
  intros Hm. simpl in Hm.
  destruct Hm as [<- | [<- | [<- | [<- | []]]]];
    cbn [MarketClient];
    unfold MeteoraDlmmClient, MeteoraDammV1Client, MeteoraDammV2Client,
      MeteoraDbcClient;
    match goal with
    | |- context [sdkTransaction E ?mk s a] => destruct (sdkTransaction E mk s a)
    end; cbn [mbind result_bind]; intros [= <-] || discriminate;
    apply strip_removes_compute_budget.
Qed.

(** C6 at the Raydium CLMM client: the compute-budget instruction its SDK
    puts in the transaction is returned as it came, and the compiled
    transaction then holds it next to the compiler's own. *)
Theorem raydium_clmm_keeps_compute_budget :
  let K := Sample.constants (Finite 0) in
  let E := Sample.env [Sample.setLimit; Sample.swapIx] in
  let args := {| mintAddress := "MintM"; wallet := "Wallet1";
                 amount := Finite (3 # 2); slippage := Finite (1 # 100) |} in
  RaydiumClmmClient E Buy args
  = Ok [SwapIx Sample.setLimit; SwapIx Sample.swapIx]
  /\ RaydiumClmmClient E Sell args
     = Ok [SwapIx Sample.setLimit; SwapIx Sample.swapIx]
  /\ is_compute_budget (SwapIx Sample.setLimit) = true
  /\ MeteoraDlmmClient E Buy args = Ok [SwapIx Sample.swapIx]
  /\ exists tx : Transaction,
      buildTransaction K E
        {| bp_market := "RAYDIUM_CLMM"; bp_direction := "buy";
           bp_wallet := Sample.wallet; bp_mint := "MintM";
           bp_poolAddress := None; bp_amount := Finite (3 # 2);
           bp_slippage := Finite (1 # 100); bp_priorityFeeSol := None;
           bp_tipAmountSol := None |} = Ok tx
      /\ List.filter is_compute_budget (instructions tx)
         = [ComputeBudgetIx "setComputeUnitPrice"; SwapIx Sample.setLimit].
Proof.
  intros K E args. repeat split. eexists. split; reflexivity.
Qed.

(** ** Choosing among candidate pools *)

Lemma Qle_bool_false_iff (x y : Q) : Qle_bool x y = false <-> (y < x)%Q.
Proof.
  rewrite <- Qlt_bool_iff. unfold JS.Qlt_bool. now rewrite negb_true_iff.
Qed.

Lemma not_ge_lt_trans (a b c : number) :
  JS.ge a b = false -> JS.gt c b = true -> JS.ge a c = false.
Proof.
  unfold JS.ge, JS.gt.
  destruct a as [| |x|], b as [| |y|], c as [| |z|]; simpl;
    try congruence; try reflexivity.
  rewrite !Qle_bool_false_iff, Qlt_bool_iff. apply Qlt_trans.
Qed.

Lemma not_gt_lt_trans (a b c : number) :
  JS.gt a b = false -> JS.gt c b = true -> JS.ge a c = false.
Proof.
  unfold JS.ge, JS.gt.
  destruct a as [| |x|], b as [| |y|], c as [| |z|]; simpl;
    try congruence; try reflexivity.
  rewrite Qlt_bool_false_iff, Qle_bool_false_iff, Qlt_bool_iff.
  apply Qle_lt_trans.
Qed.

Lemma gt_not_ge (a b : number) : JS.gt a b = true -> JS.ge b a = false.
Proof.
  unfold JS.ge, JS.gt.
  destruct a as [| |x|], b as [| |y|]; simpl; try congruence; try reflexivity.
  now rewrite Qle_bool_false_iff, Qlt_bool_iff.
Qed.

Lemma gt_is_number (a b : number) : JS.gt a b = true -> a <> NaN.
Proof. unfold JS.gt. now destruct a, b. Qed.

(** A [reduce] that replaces its accumulator only on a strictly larger score
    keeps for good a first candidate whose score is [NaN], which no score
    exceeds. *)
Lemma fold_keeps_nan_first {A B : Type} (sc : A -> number) (mk : A -> B)
  (sc_of : B -> number) (red : option B -> A -> option B) :
  (forall a, sc_of (mk a) = sc a) ->
  (forall b it, red (Some b) it =
                if JS.gt (sc it) (sc_of b) then Some (mk it) else Some b) ->
  forall (l : list A) (b : A),
    sc b = NaN -> fold_left red l (Some (mk b)) = Some (mk b).
Proof.
  intros Hmk Hred l b Hb. induction l as [|x l IH]; [reflexivity|].
  cbn [fold_left]. rewrite Hred, Hmk, Hb.
  replace (JS.gt (sc x) NaN) with false by (now destruct (sc x)).
  exact IH.
Qed.

(** Started on a candidate whose score is a number, it ends on the first
    candidate of maximal score among those whose score is a number: no
    earlier candidate reaches its score and no later one exceeds it. *)
Lemma fold_keeps_first_max {A B : Type} (sc : A -> number) (mk : A -> B)
  (sc_of : B -> number) (red : option B -> A -> option B) :
  (forall a, sc_of (mk a) = sc a) ->
  (forall b it, red (Some b) it =
                if JS.gt (sc it) (sc_of b) then Some (mk it) else Some b) ->
  forall (l pre mid : list A) (b : A),
    sc b <> NaN ->
    Forall (fun it => JS.ge (sc it) (sc b) = false) pre ->
    Forall (fun it => JS.gt (sc it) (sc b) = false) mid ->
    exists pre' b' post',
      (pre ++ b :: mid ++ l = pre' ++ b' :: post')%list
      /\ fold_left red l (Some (mk b)) = Some (mk b')
      /\ sc b' <> NaN
      /\ Forall (fun it => JS.ge (sc it) (sc b') = false) pre'
      /\ Forall (fun it => JS.gt (sc it) (sc b') = false) post'.
Proof.
  intros Hmk Hred l.
  induction l as [|x l IH]; intros pre mid b Hb Hpre Hmid.
  - exists pre, b, mid. rewrite app_nil_r. auto.
  - cbn [fold_left]. rewrite Hred, Hmk.
    destruct (JS.gt (sc x) (sc b)) eqn:Hgt.
    + destruct (IH (pre ++ b :: mid)%list [] x (gt_is_number _ _ Hgt))
        as (pre' & b' & post' & Heq & Hfold & Hn & H1 & H2).
      * apply Forall_app. split.
        -- eapply List.Forall_impl; [|exact Hpre]. intros a Ha. cbv beta in *.
           now apply not_ge_lt_trans with (sc b).
        -- apply Forall_cons_iff. split; [now apply gt_not_ge|].
           eapply List.Forall_impl; [|exact Hmid]. intros a Ha. cbv beta in *.
           now apply not_gt_lt_trans with (sc b).
      * constructor.
      * exists pre', b', post'. split; [|auto].
        rewrite <- Heq. cbn [app]. rewrite <- !app_assoc. reflexivity.
    + destruct (IH pre (mid ++ [x])%list b Hb Hpre)
        as (pre' & b' & post' & Heq & Hfold & Hn & H1 & H2).
      * apply Forall_app. split; [exact Hmid|].
        apply Forall_cons_iff. split; [exact Hgt|constructor].
      * exists pre', b', post'. split; [|auto].
        rewrite <- Heq. rewrite <- !app_assoc. reflexivity.
Qed.

Lemma dlmm_reducer_some (R : JsRuntime) (token : string) (b : Dlmm.Best)
  (it : Dlmm.Pair) :
  Dlmm.reducer R token (Some b) it =
  if JS.gt (Dlmm.score R token it) (Dlmm.best_score b)
  then Some {| Dlmm.best_address := Dlmm.address it;
               Dlmm.best_score := Dlmm.score R token it |}
  else Some b.
Proof. reflexivity. Qed.

Lemma v2_reducer_some (R : JsRuntime) (token : string)
  (b : DammV2.DammV2Pool * number) (it : DammV2.DammV2Pool) :
  DammV2.reducer R token (Some b) it =
  if JS.gt (DammV2.score R token it) (snd b)
  then Some (it, DammV2.score R token it)
  else Some b.
Proof. destruct b. reflexivity. Qed.

(** C2, as stated, fails where a pool without target-side reserve is scored
    by its TVL: that pool is chosen over one with a larger reserve, by the
    DAMM v2 resolver and by the DLMM resolver alike. *)
Lemma tvl_score_beats_larger_reserve :
  let R := Sample.runtime in
  let p1 := Sample.v2_pool "Pool1" 0 1000 in
  let p2 := Sample.v2_pool "Pool2" 5 1 in
  let d1 := Sample.dlmm_pair (Some "Pool1") 0 1000 in
  let d2 := Sample.dlmm_pair (Some "Pool2") 5 1 in
  DammV2.chooseBestPool R [p1; p2] "MintM" WSOL = Some p1
  /\ JS.gt (DammV2.tokenReserve R "MintM" p2) (DammV2.tokenReserve R "MintM" p1)
     = true
  /\ Dlmm.snapshot_best R "MintM" [d1; d2] = Some "Pool1"
  /\ JS.gt (Dlmm.tokenReserve R "MintM" d2) (Dlmm.tokenReserve R "MintM" d1)
     = true.
Proof. repeat split. Qed.

Lemma v2_two_candidates (R : JsRuntime) (token : string)
  (p1 p2 : DammV2.DammV2Pool) :
  DammV2.is_candidate token WSOL p1 = true ->
  DammV2.is_candidate token WSOL p2 = true ->
  DammV2.chooseBestPool R [p1; p2] token WSOL =
  Some (if JS.gt (DammV2.score R token p2) (DammV2.score R token p1)
        then p2 else p1).
Proof.
  intros H1 H2. unfold DammV2.chooseBestPool. cbn [List.filter].
  rewrite H1, H2. cbn [fold_left DammV2.reducer].
  now destruct (JS.gt (DammV2.score R token p2) (DammV2.score R token p1)).
Qed.

Lemma dlmm_two_candidates (R : JsRuntime) (token : string) (d1 d2 : Dlmm.Pair) :
  Dlmm.is_candidate token d1 = true ->
  Dlmm.is_candidate token d2 = true ->
  Dlmm.snapshot_best R token [d1; d2] =
  let best := if JS.gt (Dlmm.score R token d2) (Dlmm.score R token d1)
              then d2 else d1 in
  if truthy_str (Dlmm.address best) then Dlmm.address best else None.
Proof.
  intros H1 H2. unfold Dlmm.snapshot_best. cbn [List.filter].
  rewrite H1, H2. cbn [fold_left Dlmm.reducer Dlmm.best_score].
  now destruct (JS.gt (Dlmm.score R token d2) (Dlmm.score R token d1)).
Qed.

(** C2 (amended): among the candidate pools of the pair the snapshot step
    of the resolver selects by score, the score of a pool being its
    target-side reserve when that is positive and its total liquidity/TVL
    otherwise.  When the score of the first candidate is [NaN] that
    candidate is selected; otherwise the first candidate, in snapshot order,
    of maximal score among those whose score is a number.  So of two
    candidates with positive reserves the larger reserve wins, of two
    candidates without positive reserve the higher TVL wins, and on equal
    scores the first candidate is kept.  The selection is final: when the
    selected candidate has no address the DLMM snapshot step gives no pool
    and the resolver goes on to its later strategies, and the DAMM v2
    resolver fails with its not-found error. *)
Theorem resolver_selects_first_maximal_score (R : JsRuntime) (token : string) :
  (forall p1 p2 : DammV2.DammV2Pool,
      DammV2.is_candidate token WSOL p1 = true ->
      DammV2.is_candidate token WSOL p2 = true ->
      let pick (b : bool) := Some (if b then p2 else p1) in
      let chosen := DammV2.chooseBestPool R [p1; p2] token WSOL in
      (JS.gt (DammV2.tokenReserve R token p1) JS.zero = true ->
       JS.gt (DammV2.tokenReserve R token p2) JS.zero = true ->
       chosen = pick (JS.gt (DammV2.tokenReserve R token p2)
                        (DammV2.tokenReserve R token p1)))
      /\ (JS.gt (DammV2.tokenReserve R token p1) JS.zero = false ->
          JS.gt (DammV2.tokenReserve R token p2) JS.zero = false ->
          chosen = pick (JS.gt (DammV2.pool_tvl R p2) (DammV2.pool_tvl R p1)))
      /\ (DammV2.score R token p2 = DammV2.score R token p1 -> chosen = Some p1))
  /\ (forall d1 d2 : Dlmm.Pair,
         Dlmm.is_candidate token d1 = true ->
         Dlmm.is_candidate token d2 = true ->
         let pick (b : bool) :=
           let best := if b then d2 else d1 in
           if truthy_str (Dlmm.address best) then Dlmm.address best else None in
         let chosen := Dlmm.snapshot_best R token [d1; d2] in
         (JS.gt (Dlmm.tokenReserve R token d1) JS.zero = true ->
          JS.gt (Dlmm.tokenReserve R token d2) JS.zero = true ->
          chosen = pick (JS.gt (Dlmm.tokenReserve R token d2)
                           (Dlmm.tokenReserve R token d1)))
         /\ (JS.gt (Dlmm.tokenReserve R token d1) JS.zero = false ->
             JS.gt (Dlmm.tokenReserve R token d2) JS.zero = false ->
             chosen = pick (JS.gt (Dlmm.totalLiq R d2) (Dlmm.totalLiq R d1)))
         /\ (Dlmm.score R token d2 = Dlmm.score R token d1 -> chosen = pick false))
  /\ (forall items : list DammV2.DammV2Pool,
         let chosen := DammV2.chooseBestPool R items token WSOL in
         match List.filter (DammV2.is_candidate token WSOL) items with
         | [] => chosen = None
         | first :: rest =>
             (DammV2.score R token first = NaN -> chosen = Some first)
             /\ (DammV2.score R token first <> NaN ->
                 exists pre best post,
                   first :: rest = (pre ++ best :: post)%list
                   /\ chosen = Some best
                   /\ DammV2.score R token best <> NaN
                   /\ Forall (fun it => JS.ge (DammV2.score R token it)
                                          (DammV2.score R token best) = false) pre
                   /\ Forall (fun it => JS.gt (DammV2.score R token it)
                                          (DammV2.score R token best) = false) post)
         end)
  /\ (forall items : list Dlmm.Pair,
         let chosen := Dlmm.snapshot_best R token items in
         let address_of (best : Dlmm.Pair) :=
           if truthy_str (Dlmm.address best) then Dlmm.address best else None in
         match List.filter (Dlmm.is_candidate token) items with
         | [] => chosen = None
         | first :: rest =>
             (Dlmm.score R token first = NaN -> chosen = address_of first)
             /\ (Dlmm.score R token first <> NaN ->
                 exists pre best post,
                   first :: rest = (pre ++ best :: post)%list
                   /\ chosen = address_of best
                   /\ Dlmm.score R token best <> NaN
                   /\ Forall (fun it => JS.ge (Dlmm.score R token it)
                                          (Dlmm.score R token best) = false) pre
                   /\ Forall (fun it => JS.gt (Dlmm.score R token it)
                                          (Dlmm.score R token best) = false) post)
         end)
  /\ (forall (w w1 : Dlmm.World) (items : list Dlmm.Pair),
         Dlmm.ensureRawPairs w = (Ok items, w1) ->
         Dlmm.findMintWsolPair R token w =
         match Dlmm.snapshot_best R token items with
         | Some a => Dlmm.new_PublicKey a w1
         | None => Dlmm.prebuilt_cache token w1
         end)
  /\ (forall (w w1 : PairCache.World DammV2.DammV2Pool)
        (items : list DammV2.DammV2Pool),
         DammV2.fetchPoolsForTokenPair token WSOL w = (Ok items, w1) ->
         (forall best,
             DammV2.chooseBestPool R items token WSOL = Some best ->
             truthy_str (DammV2.pool_address best) = false ->
             DammV2.findPoolAddressForMint R token w
             = (Err DammV2.not_found, w1))
         /\ (forall best a,
                DammV2.chooseBestPool R items token WSOL = Some best ->
                truthy_str (DammV2.pool_address best) = true ->
                DammV2.pool_address best = Some a ->
                DammV2.findPoolAddressForMint R token w
                = PairCache.new_PublicKey a w1)).
Proof.
  split; [|split; [|split; [|split; [|split]]]].
  - intros p1 p2 H1 H2 pick chosen. subst chosen pick.
    rewrite (v2_two_candidates R token p1 p2 H1 H2). unfold DammV2.score.
    split; [|split].
    + intros -> ->. reflexivity.
    + intros -> ->. reflexivity.
    + fold (DammV2.score R token p1). fold (DammV2.score R token p2).
      intros ->. unfold JS.gt. now rewrite lt_irrefl.
  - intros d1 d2 H1 H2 pick chosen. subst chosen pick.
    rewrite (dlmm_two_candidates R token d1 d2 H1 H2). unfold Dlmm.score.
    split; [|split].
    + intros -> ->. reflexivity.
    + intros -> ->. reflexivity.
    + fold (Dlmm.score R token d1). fold (Dlmm.score R token d2).
      intros ->. unfold JS.gt. now rewrite lt_irrefl.
  - intros items chosen. subst chosen. unfold DammV2.chooseBestPool.
    destruct (List.filter (DammV2.is_candidate token WSOL) items) as [|x l];
      [reflexivity|].
    cbn [fold_left DammV2.reducer]. split.
    + intros Hx.
      now rewrite (fold_keeps_nan_first (DammV2.score R token)
                     (fun it => (it, DammV2.score R token it)) snd
                     (DammV2.reducer R token) (fun _ => eq_refl)
                     (v2_reducer_some R token) l x Hx).
    + intros Hx.
      destruct (fold_keeps_first_max (DammV2.score R token)
                  (fun it => (it, DammV2.score R token it)) snd
                  (DammV2.reducer R token) (fun _ => eq_refl)
                  (v2_reducer_some R token) l [] [] x Hx
                  (List.Forall_nil _) (List.Forall_nil _))
        as (pre & best & post & Heq & Hfold & Hn & Hpre & Hpost).
      exists pre, best, post. cbn [app] in Heq. split; [exact Heq|].
      rewrite Hfold. auto.
  - intros items chosen address_of. subst chosen address_of.
    unfold Dlmm.snapshot_best.
    destruct (List.filter (Dlmm.is_candidate token) items) as [|x l];
      [reflexivity|].
    cbn [fold_left Dlmm.reducer]. split.
    + intros Hx.
      now rewrite (fold_keeps_nan_first (Dlmm.score R token)
                     (fun it => {| Dlmm.best_address := Dlmm.address it;
                                   Dlmm.best_score := Dlmm.score R token it |})
                     Dlmm.best_score
                     (Dlmm.reducer R token) (fun _ => eq_refl)
                     (dlmm_reducer_some R token) l x Hx).
    + intros Hx.
      destruct (fold_keeps_first_max (Dlmm.score R token)
                  (fun it => {| Dlmm.best_address := Dlmm.address it;
                                Dlmm.best_score := Dlmm.score R token it |})
                  Dlmm.best_score
                  (Dlmm.reducer R token) (fun _ => eq_refl)
                  (dlmm_reducer_some R token) l [] [] x Hx
                  (List.Forall_nil _) (List.Forall_nil _))
        as (pre & best & post & Heq & Hfold & Hn & Hpre & Hpost).
      exists pre, best, post. cbn [app] in Heq. split; [exact Heq|].
      rewrite Hfold. auto.
  - intros w w1 items Hraw. unfold Dlmm.findMintWsolPair. now rewrite Hraw.
  - intros w w1 items Hfetch. split.
    + intros best Hbest Haddr. unfold DammV2.findPoolAddressForMint.
      rewrite Hfetch, Hbest. destruct best as [[[|c s]|] ? ? ? ? ? ?];
        [reflexivity|discriminate|reflexivity].
    + intros best a Hbest Haddr Ha. unfold DammV2.findPoolAddressForMint.
      rewrite Hfetch, Hbest. destruct best as [[[|c s]|] ? ? ? ? ? ?];
        cbn in Haddr, Ha; try discriminate. now injection Ha as <-.
Qed.

Lemma resolver_selects_first_maximal_score_witness :
  let R := Sample.runtime in
  let p1 := Sample.v2_pool "Pool1" 10 1 in
  let p2 := Sample.v2_pool "Pool2" 20 1 in
  let z1 := Sample.v2_pool "Pool1" 0 30 in
  let z2 := Sample.v2_pool "Pool2" 0 40 in
  let d1 := Sample.dlmm_pair (Some "Pool1") 20 1 in
  let d2 := Sample.dlmm_pair (Some "Pool2") 20 9 in
  let unparsable :=
    {| DammV2.pool_address := Some "Pool0";
       DammV2.token_a_mint := Some "MintM";
       DammV2.token_b_mint := Some WSOL;
       DammV2.token_a_amount := Str "n/a";
       DammV2.token_b_amount := Num (Finite 7);
       DammV2.liquidity := Undefined;
       DammV2.tvl := Str "n/a" |} in
  DammV2.chooseBestPool R [p1; p2] "MintM" WSOL = Some p2
  /\ DammV2.chooseBestPool R [z1; z2] "MintM" WSOL = Some z2
  /\ Dlmm.snapshot_best R "MintM" [d1; d2] = Some "Pool1"
  /\ (exists pre best post,
         [p1; p2; z1] = (pre ++ best :: post)%list
         /\ DammV2.chooseBestPool R [p1; p2; z1] "MintM" WSOL = Some best)
  /\ DammV2.chooseBestPool R [unparsable; p1; p2] "MintM" WSOL = Some unparsable
  /\ Dlmm.snapshot_best R "MintM" [Sample.dlmm_pair None 20 1; d2] = None.
Proof.
  intros R p1 p2 z1 z2 d1 d2 unparsable.
  pose proof (resolver_selects_first_maximal_score R "MintM")
    as (H2 & Hd & Hn & Hm & _).
  split; [exact (proj1 (H2 p1 p2 eq_refl eq_refl) eq_refl eq_refl)|].
  split; [exact (proj1 (proj2 (H2 z1 z2 eq_refl eq_refl)) eq_refl eq_refl)|].
  split; [exact (proj2 (proj2 (Hd d1 d2 eq_refl eq_refl)) eq_refl)|].
  split; [|split].
  - destruct (proj2 (Hn [p1; p2; z1])) as (pre & best & post & Heq & Hbest & _);
      [discriminate|].
    exists pre, best, post. split; [exact Heq | exact Hbest].
  - exact (proj1 (Hn [unparsable; p1; p2]) eq_refl).
  - destruct (proj2 (Hm [Sample.dlmm_pair None 20 1; d2]))
      as (pre & best & post & Heq & Hbest & Hnum & Hpre & Hpost);
      [discriminate|].
    destruct pre as [|x pre].
    + injection Heq as <- _. exact Hbest.
    + injection Heq as <- Heq. destruct pre as [|y pre].
      * apply Forall_cons_iff in Hpre. destruct Hpre as [Hpre _].
        injection Heq as <- _. discriminate Hpre.
      * injection Heq as _ Heq. now destruct pre.
Defined.

(** ** The listing caches *)



Lemma dlmm_ensure_cases (w : Dlmm.World) :
  Dlmm.ensureRawPairs w =
  if dlmm_memory_hit w then (Ok (Dlmm.rawPairs w), w)
  else match Dlmm.disk_lookup w with
       | Some data => (Ok data, Dlmm.with_raw w data (Dlmm.clock w))
       | None => Dlmm.fetch_pairs w
       end.
Proof.
  unfold Dlmm.ensureRawPairs, dlmm_memory_hit.
  destruct (younger _ _ _ && _)%bool; [reflexivity|].
  now destruct (Dlmm.disk_lookup w).
Qed.


Lemma v2_queryPools_world (w : PairCache.World DammV2.DammV2Pool) :
  snd (DammV2.queryPools w)
  = PairCache.with_requests w (S (PairCache.requests w)).
Proof.
  unfold DammV2.queryPools, PairCache.request.
  now destruct (PairCache.network w (PairCache.requests w)).
Qed.

Lemma v2_query_world (w : PairCache.World DammV2.DammV2Pool) :
  snd (DammV2.query_both w)
  = PairCache.with_requests w (S (S (PairCache.requests w))).
Proof.
  unfold DammV2.query_both.
  pose proof (v2_queryPools_world w) as H1.
  destruct (DammV2.queryPools w) as [r1 w1]. cbn [snd] in H1. subst w1.
  pose proof (v2_queryPools_world
                (PairCache.with_requests w (S (PairCache.requests w)))) as H2.
  destruct (DammV2.queryPools _) as [r2 w2]. cbn [snd] in H2. subst w2.
  destruct r1, r2; reflexivity.
Qed.



(** The guards of the two tiers of the DLMM cache: an empty listing held in
    memory is not served, so that with a disk that refuses the write two
    calls one second apart both go to the network; and a cache file younger
    than the TTL that does not hold an array is passed over. *)
Lemma young_entry_refetched :
  (let w0 := Sample.dlmm_world None false (HttpOk (JArray [])) None [] in
   let '(r1, w1) := Dlmm.ensureRawPairs w0 in
   let w1' := Dlmm.at_time w1 (Dlmm.clock w1 + 1000) in
   let '(r2, w2) := Dlmm.ensureRawPairs w1' in
   r1 = Ok [] /\ r2 = Ok []
   /\ younger (Dlmm.clock w1') (Dlmm.rawLoadedAt w1') (Dlmm.ttl w1') = true
   /\ Dlmm.requests w2 = 2%nat)
  /\ (let file := {| mtimeMs := 1700000000000 - 1000; content := JsonOther |} in
      let w0 := Sample.dlmm_world (Some file) true (HttpOk (JArray [])) None [] in
      younger (Dlmm.clock w0) (mtimeMs file) (Dlmm.ttl w0) = true
      /\ Dlmm.requests (snd (Dlmm.ensureRawPairs w0)) = 1%nat).
Proof. split; vm_compute; repeat split. Qed.





(** ** The order of the resolution strategies *)

(** C5, as stated, leaves out a strategy: between the snapshot filter and the
    SDK helper the DLMM resolver consults its prebuilt pair cache.  Here the
    best-scored candidate of the snapshot has no address, so the snapshot
    strategy yields nothing; the SDK helper knows a pool, but the resolver
    answers from the pair cache and never calls the helper. *)
Lemma pair_cache_precedes_sdk_helper :
  let R := Sample.runtime in
  let d0 := Sample.dlmm_pair None 10 1 in
  let dA := Sample.dlmm_pair (Some "PoolA") 5 1 in
  let w := Sample.dlmm_world None true (HttpOk (JArray [d0; dA]))
             (Some "HelperPool") [] in
  Dlmm.snapshot_best R "MintM" [d0; dA] = None
  /\ Dlmm.lbPairIfExists w "MintM" WSOL = Ok (Some "HelperPool")
  /\ fst (Dlmm.findMintWsolPair R "MintM" w) = Ok "PoolA"
  /\ Dlmm.sdkCalls (snd (Dlmm.findMintWsolPair R "MintM" w)) = []
  /\ fst (resolve_as_worded R "MintM" w) = Ok "HelperPool".
Proof. vm_compute. repeat split. Qed.

(** Reading the listing leaves the SDK, and the record of the calls made to
    it, as they were. *)
Lemma dlmm_ensure_frame (w : Dlmm.World) :
  let w' := snd (Dlmm.ensureRawPairs w) in
  Dlmm.lbPairIfExists w' = Dlmm.lbPairIfExists w
  /\ Dlmm.lbPairs w' = Dlmm.lbPairs w
  /\ Dlmm.sdkCalls w' = Dlmm.sdkCalls w
  /\ Dlmm.isPublicKey w' = Dlmm.isPublicKey w.
Proof.
  cbv zeta. rewrite dlmm_ensure_cases.
  destruct (dlmm_memory_hit w); [auto|].
  destruct (Dlmm.disk_lookup w); [cbn; auto|].
  unfold Dlmm.fetch_pairs.
  destruct (Dlmm.network w (Dlmm.requests w)); cbn; auto.
  destruct (Dlmm.diskWritable w); cbn; auto.
Qed.

Lemma dlmm_load_frame (w : Dlmm.World) :
  let w' := snd (Dlmm.loadPairsFromApiIfNeeded w) in
  Dlmm.lbPairIfExists w' = Dlmm.lbPairIfExists w
  /\ Dlmm.lbPairs w' = Dlmm.lbPairs w
  /\ Dlmm.sdkCalls w' = Dlmm.sdkCalls w
  /\ Dlmm.isPublicKey w' = Dlmm.isPublicKey w.
Proof.
  cbv zeta. unfold Dlmm.loadPairsFromApiIfNeeded.
  destruct (younger _ _ _ && _)%bool; [auto|].
  pose proof (dlmm_ensure_frame w) as Hf. cbv zeta in Hf.
  destruct (Dlmm.ensureRawPairs w) as [[items|e] w1]; cbn [snd] in *; [|exact Hf].
  cbn. exact Hf.
Qed.

(** What the two SDK fallbacks do, from the answers of the SDK. *)
Lemma dlmm_sdk_helper_cases (token : string) (w : Dlmm.World) :
  let h1 := Dlmm.GetCustomizablePermissionlessLbPairIfExists token WSOL in
  let h2 := Dlmm.GetCustomizablePermissionlessLbPairIfExists WSOL token in
  let r := fst (Dlmm.sdk_helper token w) in
  let calls := Dlmm.sdkCalls (snd (Dlmm.sdk_helper token w)) in
  match Dlmm.lbPairIfExists w token WSOL with
  | Err e => r = Err e /\ calls = (Dlmm.sdkCalls w ++ [h1])%list
  | Ok (Some p) => r = Ok p /\ calls = (Dlmm.sdkCalls w ++ [h1])%list
  | Ok None =>
      match Dlmm.lbPairIfExists w WSOL token with
      | Err e => r = Err e /\ calls = (Dlmm.sdkCalls w ++ [h1; h2])%list
      | Ok (Some p) => r = Ok p /\ calls = (Dlmm.sdkCalls w ++ [h1; h2])%list
      | Ok None =>
          calls = (Dlmm.sdkCalls w ++ [h1; h2; Dlmm.GetLbPairs])%list
          /\ r = match Dlmm.lbPairs w with
                 | Ok all =>
                     match Dlmm.scan token all with
                     | Some pk => Ok pk
                     | None => Err Dlmm.not_found
                     end
                 | Err _ => Err Dlmm.not_found
                 end
      end
  end.
Proof.
  cbv zeta. unfold Dlmm.sdk_helper, Dlmm.full_scan.
  cbn [Dlmm.with_call Dlmm.lbPairIfExists Dlmm.lbPairs Dlmm.sdkCalls].
  destruct (Dlmm.lbPairIfExists w token WSOL) as [[p|]|e]; cbn; auto.
  destruct (Dlmm.lbPairIfExists w WSOL token) as [[p|]|e]; cbn;
    rewrite <- ?app_assoc; auto.
  destruct (Dlmm.lbPairs w) as [all|e]; cbn; rewrite <- ?app_assoc; auto.
  destruct (Dlmm.scan token all); cbn; rewrite <- ?app_assoc; auto.
Qed.

(** C5 (amended): given the listing, the DLMM resolver tries, in this order,
    the snapshot filter, its prebuilt pair cache, the SDK helper for the
    pair (token, WSOL), the same helper for (WSOL, token), and the scan of
    all pairs; a strategy runs only when every earlier one yielded nothing,
    the first match is the answer and ends the search, and the not-found
    error is raised exactly when all five yielded nothing, never an empty
    success.  The DAMM v1 resolver has the snapshot filter alone and raises
    its not-found error when the filter leaves no candidate. *)
Theorem resolution_strategies_in_order (R : JsRuntime) (mint : PublicKey) :
  (forall (w w0 : Dlmm.World) (items : list Dlmm.Pair),
      Dlmm.ensureRawPairs w = (Ok items, w0) ->
      let w1 := snd (Dlmm.loadPairsFromApiIfNeeded w0) in
      let snapshot := Dlmm.snapshot_best R mint items in
      let cached := Dlmm.cache_hit w1 (Dlmm.normalizeKey mint WSOL) in
      let helper1 := Dlmm.lbPairIfExists w mint WSOL in
      let helper2 := Dlmm.lbPairIfExists w WSOL mint in
      let scanned := match Dlmm.lbPairs w with
                     | Ok all => Dlmm.scan mint all
                     | Err _ => None
                     end in
      let h1 := Dlmm.GetCustomizablePermissionlessLbPairIfExists mint WSOL in
      let h2 := Dlmm.GetCustomizablePermissionlessLbPairIfExists WSOL mint in
      let r := fst (Dlmm.findMintWsolPair R mint w) in
      let calls := Dlmm.sdkCalls (snd (Dlmm.findMintWsolPair R mint w)) in
      (forall a, snapshot = Some a ->
                 Dlmm.findMintWsolPair R mint w = Dlmm.new_PublicKey a w0)
      /\ (forall c, snapshot = None -> cached = Some c ->
                    Dlmm.findMintWsolPair R mint w = Dlmm.new_PublicKey c w1)
      /\ (forall p, snapshot = None -> cached = None ->
                    helper1 = Ok (Some p) ->
                    r = Ok p /\ calls = (Dlmm.sdkCalls w ++ [h1])%list)
      /\ (forall p, snapshot = None -> cached = None ->
                    helper1 = Ok None -> helper2 = Ok (Some p) ->
                    r = Ok p /\ calls = (Dlmm.sdkCalls w ++ [h1; h2])%list)
      /\ (forall pk, snapshot = None -> cached = None ->
                     helper1 = Ok None -> helper2 = Ok None ->
                     scanned = Some pk ->
                     r = Ok pk
                     /\ calls = (Dlmm.sdkCalls w ++ [h1; h2; Dlmm.GetLbPairs])%list)
      /\ (snapshot = None -> cached = None ->
          helper1 = Ok None -> helper2 = Ok None -> scanned = None ->
          r = Err Dlmm.not_found
          /\ calls = (Dlmm.sdkCalls w ++ [h1; h2; Dlmm.GetLbPairs])%list)
      /\ (r = Err Dlmm.not_found ->
          (forall x y, Dlmm.lbPairIfExists w x y <> Err Dlmm.not_found) ->
          snapshot = None /\ cached = None /\ helper1 = Ok None
          /\ helper2 = Ok None /\ scanned = None))
  /\ (forall (w w0 : PairCache.World DammV1.Pool) (items : list DammV1.Pool),
         DammV1.fetchPoolsForTokenPair mint WSOL w = (Ok items, w0) ->
         (List.filter (DammV1.is_candidate mint) items = [] ->
          DammV1.findPoolAddressForMint R mint w = (Err DammV1.not_found, w0))
         /\ (forall a, fst (DammV1.findPoolAddressForMint R mint w) = Ok a ->
                       List.filter (DammV1.is_candidate mint) items <> []
                       /\ a <> "")).
Proof.
  split.
  - intros w w0 items Hens w1 snapshot cached helper1 helper2 scanned h1 h2 r calls.
    pose proof (dlmm_ensure_frame w) as (Fa1 & Fa2 & Fa3 & _).
    rewrite Hens in Fa1, Fa2, Fa3. cbn [snd] in Fa1, Fa2, Fa3.
    pose proof (dlmm_load_frame w0) as (Fb1 & Fb2 & Fb3 & _).
    fold w1 in Fb1, Fb2, Fb3.
    pose proof (dlmm_sdk_helper_cases mint w1) as Hh. cbv zeta in Hh.
    rewrite Fb1, Fb2, Fb3, Fa1, Fa2, Fa3 in Hh.
    fold helper1 helper2 h1 h2 in Hh.
    assert (Hfind : Dlmm.findMintWsolPair R mint w =
                    match snapshot with
                    | Some a => Dlmm.new_PublicKey a w0
                    | None =>
                        match cached with
                        | Some c => Dlmm.new_PublicKey c w1
                        | None => Dlmm.sdk_helper mint w1
                        end
                    end).
    { unfold Dlmm.findMintWsolPair. rewrite Hens. fold snapshot.
      destruct snapshot; [reflexivity|]. unfold Dlmm.prebuilt_cache.
      subst cached w1.
      now destruct (Dlmm.loadPairsFromApiIfNeeded w0). }
    assert (Hkey : forall a u, fst (Dlmm.new_PublicKey a u) <> Err Dlmm.not_found).
    { intros a u. unfold Dlmm.new_PublicKey.
      destruct (Dlmm.isPublicKey u a); discriminate. }
    subst r calls. rewrite Hfind.
    split; [intros a ->; reflexivity|].
    split; [intros c -> ->; reflexivity|].
    split; [intros p -> -> Hp; now rewrite Hp in Hh|].
    split; [intros p -> -> H1 H2; now rewrite H1, H2 in Hh|].
    split.
    { intros pk -> -> H1 H2 Hsc. rewrite H1, H2 in Hh. destruct Hh as [Hc Hr].
      split; [|exact Hc]. rewrite Hr. subst scanned.
      destruct (Dlmm.lbPairs w); [now rewrite Hsc|discriminate]. }
    split.
    { intros -> -> H1 H2 Hsc. rewrite H1, H2 in Hh. destruct Hh as [Hc Hr].
      split; [|exact Hc]. rewrite Hr. subst scanned.
      destruct (Dlmm.lbPairs w); [now rewrite Hsc|reflexivity]. }
    intros Hnf Hsdk.
    destruct snapshot as [a|]; [now apply Hkey in Hnf|].
    destruct cached as [c|]; [now apply Hkey in Hnf|].
    destruct helper1 as [[p|]|e] eqn:H1.
    + destruct Hh as [Hr _]. rewrite Hr in Hnf. discriminate.
    + destruct helper2 as [[p|]|e] eqn:H2.
      * destruct Hh as [Hr _]. rewrite Hr in Hnf. discriminate.
      * destruct Hh as [_ Hr]. rewrite Hr in Hnf. subst scanned.
        repeat split; auto.
        destruct (Dlmm.lbPairs w) as [all|]; [|reflexivity].
        destruct (Dlmm.scan mint all); [discriminate|reflexivity].
      * destruct Hh as [Hr _]. rewrite Hr in Hnf.
        exfalso. apply (Hsdk WSOL mint). injection Hnf as ->. exact H2.
    + destruct Hh as [Hr _]. rewrite Hr in Hnf.
      exfalso. apply (Hsdk mint WSOL). injection Hnf as ->. exact H1.
  - intros w w0 items Hfetch. unfold DammV1.findPoolAddressForMint.
    rewrite Hfetch. split.
    + intros ->. reflexivity.
    + intros a.
      destruct (List.filter (DammV1.is_candidate mint) items) as [|x l] eqn:Hf;
        [discriminate|].
      destruct (fold_left (DammV1.reducer R mint) (x :: l) None)
        as [[[[|c a']|] s]|]; cbn [fst]; try discriminate.
      unfold PairCache.new_PublicKey.
      destruct (PairCache.isPublicKey w0 (String c a')); cbn [fst];
        [|discriminate].
      intros [= <-]. split; discriminate.
Qed.

Lemma resolution_strategies_in_order_witness :
  let R := Sample.runtime in
  let dA := Sample.dlmm_pair (Some "PoolA") 5 1 in
  let listed := Sample.dlmm_world None true (HttpOk (JArray [dA])) None [] in
  let account := {| Dlmm.lb_publicKey := "ScannedPool";
                    Dlmm.tokenXMint := Some WSOL;
                    Dlmm.tokenYMint := Some "MintM" |} in
  let scanned := Sample.dlmm_world None true (HttpOk (JArray [])) None [account] in
  let nowhere := Sample.dlmm_world None true (HttpOk (JArray [])) None [] in
  let h1 := Dlmm.GetCustomizablePermissionlessLbPairIfExists "MintM" WSOL in
  let h2 := Dlmm.GetCustomizablePermissionlessLbPairIfExists WSOL "MintM" in
  fst (Dlmm.findMintWsolPair R "MintM" listed) = Ok "PoolA"
  /\ (fst (Dlmm.findMintWsolPair R "MintM" scanned) = Ok "ScannedPool"
      /\ Dlmm.sdkCalls (snd (Dlmm.findMintWsolPair R "MintM" scanned))
         = [h1; h2; Dlmm.GetLbPairs])
  /\ (fst (Dlmm.findMintWsolPair R "MintM" nowhere) = Err Dlmm.not_found
      /\ Dlmm.sdkCalls (snd (Dlmm.findMintWsolPair R "MintM" nowhere))
         = [h1; h2; Dlmm.GetLbPairs])
  /\ fst (DammV1.findPoolAddressForMint R "MintM"
            (Sample.v1_world (HttpOk (JObject (Some []) None))))
     = Err DammV1.not_found.
Proof.
  intros R dA listed account scanned nowhere h1 h2.
  pose proof (resolution_strategies_in_order R "MintM") as (Hd & Hv).
  split.
  - rewrite (proj1 (Hd listed (snd (Dlmm.ensureRawPairs listed)) [dA] eq_refl)
               "PoolA" eq_refl).
    reflexivity.
  - split.
    + exact (proj1 (proj2 (proj2 (proj2 (proj2
                (Hd scanned (snd (Dlmm.ensureRawPairs scanned)) [] eq_refl)))))
               "ScannedPool" eq_refl eq_refl eq_refl eq_refl eq_refl).
    + split.
      * exact (proj1 (proj2 (proj2 (proj2 (proj2 (proj2
                  (Hd nowhere (snd (Dlmm.ensureRawPairs nowhere)) [] eq_refl))))))
                 eq_refl eq_refl eq_refl eq_refl eq_refl).
      * set (v := Sample.v1_world (HttpOk (JObject (Some []) None))).
        rewrite (proj1 (Hv v (snd (DammV1.fetchPoolsForTokenPair "MintM" WSOL v))
                          [] eq_refl) eq_refl).
        reflexivity.
Defined.

(** * Further properties of the sources *)

(** ** The relay router *)

Lemma or_zero_not_pos (tip : number) :
  JS.gt tip JS.zero = false -> JS.le (JS.or tip JS.zero) JS.zero = true.
Proof.
  unfold JS.gt, JS.or, JS.zero. destruct tip as [| |q|]; simpl; try reflexivity;
    try discriminate.
  intros H. apply Qlt_bool_false_iff in H.
  destruct (Qeq_bool q 0); simpl; apply Qle_bool_iff; [apply Qle_refl|exact H].
Qed.

Lemma pos_not_le (tip : number) :
  JS.gt tip JS.zero = true -> JS.le tip JS.zero = false.
Proof.
  unfold JS.gt, JS.zero. destruct tip as [| |q|]; simpl; try reflexivity;
    try discriminate.
  intros H. unfold Qlt_bool in H. now apply negb_true_iff.
Qed.

(** X1: [chooseProvider] answers [undefined] (the standard sender) exactly
    when the tip is not positive, whatever backend was asked for; with a
    positive tip it returns the backend asked for, and without one Nozomi
    from 0.001 on and Astralane below. *)
Theorem chooseProvider_gate (provided : option Provider) (tip : number) :
  (JS.gt tip JS.zero = false -> chooseProvider provided tip = None)
  /\ (JS.gt tip JS.zero = true ->
      chooseProvider provided tip =
      Some (match provided with
            | Some p => p
            | None => if JS.ge tip (Finite (1 # 1000)) then NOZOMI else ASTRALANE
            end)).
Proof.
  split; intros H; unfold chooseProvider.
  - now rewrite (or_zero_not_pos tip H).
  - rewrite (or_zero_pos tip H), (pos_not_le tip H).
    destruct provided; [reflexivity|].
    now destruct (JS.ge tip (Finite (1 # 1000))).
Qed.

Lemma chooseProvider_gate_witness :
  chooseProvider (Some JITO) NaN = None
  /\ chooseProvider (Some JITO) (Finite (-1)) = None
  /\ chooseProvider (Some JITO) (Finite (5 # 10000)) = Some JITO
  /\ chooseProvider None (Finite (5 # 10000)) = Some ASTRALANE
  /\ chooseProvider None (Finite (1 # 1000)) = Some NOZOMI.
Proof.
  split; [exact (proj1 (chooseProvider_gate (Some JITO) NaN) eq_refl)|].
  split; [exact (proj1 (chooseProvider_gate (Some JITO) (Finite (-1))) eq_refl)|].
  split; [exact (proj2 (chooseProvider_gate (Some JITO) (Finite (5 # 10000))) eq_refl)|].
  split; [exact (proj2 (chooseProvider_gate None (Finite (5 # 10000))) eq_refl)|].
  exact (proj2 (chooseProvider_gate None (Finite (1 # 1000))) eq_refl).
Defined.

Lemma record_get_In (map : list (string * string)) (key v : string) :
  record_get map key = Some v -> In key (List.map fst map).
Proof.
  induction map as [|[k x] rest IH]; simpl; [discriminate|].
  destruct (String.eqb_spec k key) as [->|Hne]; [now left|].
  intros H. right. now apply IH.
Qed.

Lemma random_index_lt (r : Q) (n : nat) :
  (0 <= r)%Q -> (r < 1)%Q -> (0 < n)%nat -> (random_index r n < n)%nat.
Proof.
  intros H0 H1 Hn. unfold random_index.
  set (x := (r * inject_Z (Z.of_nat n))%Q).
  assert (Hn' : (0 < inject_Z (Z.of_nat n))%Q).
  { rewrite <- (Zlt_Qlt 0). lia. }
  assert (Hx0 : (0 <= x)%Q).
  { subst x. apply Qmult_le_0_compat; [exact H0|now apply Qlt_le_weak]. }
  assert (Hx1 : (x < inject_Z (Z.of_nat n))%Q).
  { subst x. rewrite <- (Qmult_1_l (inject_Z (Z.of_nat n))) at 2.
    now apply Qmult_lt_compat_r. }
  assert (Hf0 : 0 <= Qfloor x).
  { change 0 with (Qfloor 0). now apply Qfloor_resp_le. }
  assert (Hf1 : Qfloor x < Z.of_nat n).
  { rewrite Zlt_Qlt. eapply Qle_lt_trans; [apply Qfloor_le|exact Hx1]. }
  lia.
Qed.

(** X2: the region [chooseRegion] returns is always a key of the table of
    the chosen backend; there is none for the standard sender or an empty
    table, and one is always found when the table is not empty and the
    random draw lies in [[0, 1)]. *)
Theorem chooseRegion_in_table (K : Constants) (E : Env)
  (provider : option Provider) (desired : option string) :
  (forall r, chooseRegion K E provider desired = Some r ->
             exists p, provider = Some p
                       /\ In r (List.map fst (provider_regions K p)))
  /\ (forall p, provider = Some p -> provider_regions K p = [] ->
                chooseRegion K E provider desired = None)
  /\ (forall p, provider = Some p -> provider_regions K p <> [] ->
                (0 <= random_region E)%Q -> (random_region E < 1)%Q ->
                exists r, chooseRegion K E provider desired = Some r).
Proof.
  split; [|split].
  - intros r. unfold chooseRegion. destruct provider as [p|]; [|discriminate].
    intros H. exists p. split; [reflexivity|].
    destruct (List.map fst (provider_regions K p)) as [|k ks] eqn:Hk;
      [discriminate|].
    rewrite <- Hk in *.
    assert (Hpick : forall x,
               nth_error (List.map fst (provider_regions K p))
                 (random_index (random_region E)
                    (List.length (List.map fst (provider_regions K p)))) = Some x ->
               In x (List.map fst (provider_regions K p))).
    { intros x Hx. eapply nth_error_In. exact Hx. }
    destruct desired as [[|c d]|]; try (now apply Hpick).
    destruct (record_get (provider_regions K p) (toUpperCase (String c d)))
      as [v|] eqn:Hget; cbn [truthy_str] in H; [|now apply Hpick].
    destruct v; [now apply Hpick|].
    injection H as <-. eapply record_get_In. exact Hget.
  - intros p -> Hempty. unfold chooseRegion. now rewrite Hempty.
  - intros p -> Hne H0 H1. unfold chooseRegion.
    destruct (List.map fst (provider_regions K p)) as [|k ks] eqn:Hk.
    { destruct (provider_regions K p); [congruence|discriminate]. }
    rewrite <- Hk.
    assert (Hpick : exists x,
               nth_error (List.map fst (provider_regions K p))
                 (random_index (random_region E)
                    (List.length (List.map fst (provider_regions K p)))) = Some x).
    { destruct (nth_error _ _) as [x|] eqn:Hx; [now exists x|].
      apply nth_error_None in Hx.
      pose proof (random_index_lt (random_region E)
                    (List.length (List.map fst (provider_regions K p))) H0 H1) as Hlt.
      rewrite Hk in Hlt, Hx. cbn [List.length] in Hlt, Hx. lia. }
    destruct desired as [[|c d]|]; try exact Hpick.
    destruct (truthy_str _); [eauto|exact Hpick].
Qed.

Lemma chooseRegion_in_table_witness :
  let K := Sample.constants (Finite 0) in
  let E := Sample.env [] in
  (exists p, Some NOZOMI = Some p /\ In "FRA" (List.map fst (provider_regions K p)))
  /\ chooseRegion SampleMore.constants_without_nozomi E (Some NOZOMI) (Some "ny")
     = None
  /\ exists r, chooseRegion K E (Some NOZOMI) (Some "lon") = Some r.
Proof.
  intros K E.
  split; [exact (proj1 (chooseRegion_in_table K E (Some NOZOMI) (Some "fra"))
                   "FRA" eq_refl)|].
  split; [exact (proj1 (proj2 (chooseRegion_in_table
                                 SampleMore.constants_without_nozomi E
                                 (Some NOZOMI) (Some "ny")))
                   NOZOMI eq_refl eq_refl)|].
  apply (proj2 (proj2 (chooseRegion_in_table K E (Some NOZOMI) (Some "lon")))
           NOZOMI eq_refl); [discriminate | discriminate | reflexivity].
Defined.

Lemma upper_ascii_idempotent (c : ascii) :
  upper_ascii (upper_ascii c) = upper_ascii c.
Proof.
  destruct c as [[] [] [] [] [] [] [] []]; reflexivity.
Qed.

Lemma toUpperCase_idempotent (s : string) :
  toUpperCase (toUpperCase s) = toUpperCase s.
Proof.
  induction s as [|c s IH]; simpl; [reflexivity|].
  now rewrite upper_ascii_idempotent, IH.
Qed.

(** X3: the requested region is matched without regard to the case of its
    ASCII letters: a request and its upper-case form select the same
    region. *)
Theorem chooseRegion_ignores_case (K : Constants) (E : Env)
  (provider : option Provider) (desired : string) :
  chooseRegion K E provider (Some desired)
  = chooseRegion K E provider (Some (toUpperCase desired)).
Proof.
  unfold chooseRegion. destruct provider as [p|]; [|reflexivity].
  destruct (List.map fst (provider_regions K p)); [reflexivity|].
  destruct desired as [|c d]; [reflexivity|].
  cbn [toUpperCase]. now rewrite upper_ascii_idempotent, toUpperCase_idempotent.
Qed.

Lemma Math_max_bounds (a b : number) :
  a <> NaN -> b <> NaN ->
  JS.le a (Math_max a b) = true /\ JS.le b (Math_max a b) = true.
Proof.
  intros Ha Hb. unfold Math_max.
  destruct a as [| |x|], b as [| |y|]; try congruence; cbn; auto;
    try (split; [apply Qle_bool_iff; apply Qle_refl | reflexivity]);
    try (split; [reflexivity | apply Qle_bool_iff; apply Qle_refl]).
  destruct (Qlt_bool x y) eqn:Hxy; cbn; split.
  - apply Qle_bool_iff. apply Qlt_le_weak. now apply Qlt_bool_iff.
  - apply Qle_bool_iff. apply Qle_refl.
  - apply Qle_bool_iff. apply Qle_refl.
  - apply Qle_bool_iff. now apply Qlt_bool_false_iff.
Qed.

Lemma or_zero_number (a : number) : JS.or a JS.zero <> NaN.
Proof. unfold JS.or. destruct a; simpl; try discriminate.
       destruct (negb (Qeq_bool q 0)); discriminate. Qed.

(** X4: when [computeProviderTip] answers, the tip address is an accepted
    key taken from the table of the backend, and the final tip is neither
    below the backend's minimum nor below the requested tip. *)
Theorem computeProviderTip_floor (K : Constants) (E : Env) (provider : Provider)
  (userTip : number) (tipAddress : PublicKey) (finalTip : number) :
  computeProviderTip K E provider userTip = Ok (tipAddress, finalTip) ->
  In tipAddress (provider_tip_addresses K provider)
  /\ isPublicKey E tipAddress = true
  /\ finalTip = Math_max (JS.or userTip JS.zero) (provider_min_tip K provider)
  /\ (provider_min_tip K provider <> NaN ->
      JS.le (provider_min_tip K provider) finalTip = true
      /\ JS.le (JS.or userTip JS.zero) finalTip = true).
Proof.
  unfold computeProviderTip.
  destruct (nth_error _ _) as [addr|] eqn:Hnth; [|discriminate].
  unfold new_PublicKey. destruct (isPublicKey E addr) eqn:Hvalid;
    cbn [mbind result_bind]; [|discriminate].
  intros [= <- <-]. split; [eapply nth_error_In; exact Hnth|].
  split; [exact Hvalid|]. split; [reflexivity|].
  intros Hmin.
  destruct (Math_max_bounds _ _ (or_zero_number userTip) Hmin). auto.
Qed.

Lemma computeProviderTip_floor_witness :
  let K := Sample.constants (Finite 0) in
  let E := Sample.env [] in
  In "AstralaneTip1" (provider_tip_addresses K ASTRALANE)
  /\ isPublicKey E "AstralaneTip1" = true
  /\ Math_max (Finite (1 # 1000000)) (Finite (1 # 100000))
     = Math_max (JS.or (Finite (1 # 1000000)) JS.zero) (provider_min_tip K ASTRALANE)
  /\ (provider_min_tip K ASTRALANE <> NaN ->
      JS.le (provider_min_tip K ASTRALANE)
        (Math_max (Finite (1 # 1000000)) (Finite (1 # 100000))) = true
      /\ JS.le (JS.or (Finite (1 # 1000000)) JS.zero)
           (Math_max (Finite (1 # 1000000)) (Finite (1 # 100000))) = true).
Proof.
  intros K E.
  exact (computeProviderTip_floor K E ASTRALANE (Finite (1 # 1000000))
           "AstralaneTip1" _ eq_refl).
Defined.

Lemma chooseProvider_some_pos (provided : option Provider) (tip : number)
  (p : Provider) :
  chooseProvider provided tip = Some p ->
  JS.gt (JS.or tip JS.zero) JS.zero = true.
Proof.
  unfold chooseProvider.
  destruct (JS.le (JS.or tip JS.zero) JS.zero) eqn:Hle; [discriminate|].
  intros _. pose proof (or_zero_number tip) as Hn.
  destruct (JS.gt (JS.or tip JS.zero) JS.zero) eqn:Hgt; [reflexivity|].
  rewrite (not_gt_le _ _ Hn) in Hle; [discriminate|discriminate|exact Hgt].
Qed.

(** X5: when a tip is given and the tip-address table of the backend it
    selects is empty, [trade] does not fall back to the standard sender: it
    returns no transaction, and once the swap has been built its error is
    the [TypeError] of [new PublicKey(undefined)], which reads
    [undefined._bn]. *)
Theorem trade_fails_without_tip_addresses (K : Constants) (E : Env)
  (params : TradeParams) (provider : Provider) :
  chooseProvider (tp_sender params) (default JS.zero (tp_tipAmountSol params))
  = Some provider ->
  provider_tip_addresses K provider = [] ->
  is_ok (trade K E params) = false
  /\ (forall mint pool f tx,
         normalizeMint E (tp_mint params) = Ok mint ->
         normalizePoolAddress E (tp_poolAddress params) = Ok pool ->
         normalizeSlippage (tp_slippage params) = Ok f ->
         buildTransaction K E
           {| bp_market := tp_market params;
              bp_direction := tp_direction params;
              bp_wallet := tp_wallet params;
              bp_mint := mint;
              bp_poolAddress := pool;
              bp_amount := tp_amount params;
              bp_slippage := f;
              bp_priorityFeeSol :=
                Some (default (Finite (1 # 10000)) (tp_priorityFeeSol params));
              bp_tipAmountSol := None |} = Ok tx ->
         trade K E params
         = Err (Throw "Cannot read properties of undefined (reading '_bn')")).
Proof.
  intros Hprov Hempty.
  assert (Htip : provider_tip K E (Some provider) (tp_wallet params)
                   (default JS.zero (tp_tipAmountSol params))
                 = Err (Throw
                          "Cannot read properties of undefined (reading '_bn')")).
  { unfold provider_tip. rewrite (chooseProvider_some_pos _ _ _ Hprov).
    unfold computeProviderTip. rewrite Hempty.
    assert (Hnil : forall n, @nth_error string [] n = None) by (intros []; reflexivity).
    rewrite Hnil. reflexivity. }
  assert (Hgen : forall mint pool f tx,
             normalizeMint E (tp_mint params) = Ok mint ->
             normalizePoolAddress E (tp_poolAddress params) = Ok pool ->
             normalizeSlippage (tp_slippage params) = Ok f ->
             buildTransaction K E
               {| bp_market := tp_market params;
                  bp_direction := tp_direction params;
                  bp_wallet := tp_wallet params;
                  bp_mint := mint;
                  bp_poolAddress := pool;
                  bp_amount := tp_amount params;
                  bp_slippage := f;
                  bp_priorityFeeSol :=
                    Some (default (Finite (1 # 10000)) (tp_priorityFeeSol params));
                  bp_tipAmountSol := None |} = Ok tx ->
             trade K E params
         = Err (Throw "Cannot read properties of undefined (reading '_bn')")).
  { intros mint pool f tx Hm Hp Hs Hb. unfold trade.
    rewrite Hm. cbn [mbind result_bind]. rewrite Hp. cbn [mbind result_bind].
    rewrite Hs. cbn [mbind result_bind]. rewrite Hb. cbn [mbind result_bind].
    rewrite Hprov, Htip. reflexivity. }
  split; [|exact Hgen].
  destruct (normalizeMint E (tp_mint params)) as [mint|e] eqn:Hm;
    [|unfold trade; now rewrite Hm].
  destruct (normalizePoolAddress E (tp_poolAddress params)) as [pool|e] eqn:Hp;
    [|unfold trade; rewrite Hm; cbn [mbind result_bind]; now rewrite Hp].
  destruct (normalizeSlippage (tp_slippage params)) as [f|e] eqn:Hs;
    [|unfold trade; rewrite Hm; cbn [mbind result_bind]; rewrite Hp;
      cbn [mbind result_bind]; now rewrite Hs].
  destruct (buildTransaction K E
              {| bp_market := tp_market params;
                 bp_direction := tp_direction params;
                 bp_wallet := tp_wallet params;
                 bp_mint := mint;
                 bp_poolAddress := pool;
                 bp_amount := tp_amount params;
                 bp_slippage := f;
                 bp_priorityFeeSol :=
                   Some (default (Finite (1 # 10000)) (tp_priorityFeeSol params));
                 bp_tipAmountSol := None |}) as [tx|e] eqn:Hb.
  - now rewrite (Hgen mint pool f tx).
  - unfold trade. rewrite Hm. cbn [mbind result_bind]. rewrite Hp.
    cbn [mbind result_bind]. rewrite Hs. cbn [mbind result_bind].
    now rewrite Hb.
Qed.

Lemma trade_fails_without_tip_addresses_witness :
  let K := SampleMore.constants_without_nozomi in
  let E := Sample.env [Sample.swapIx] in
  let params := Sample.request "sell" (Some (Finite (2 # 1000))) in
  is_ok (trade K E params) = false
  /\ trade K E params
     = Err (Throw "Cannot read properties of undefined (reading '_bn')").
Proof.
  intros K E params.
  destruct (trade_fails_without_tip_addresses K E params NOZOMI eq_refl eq_refl)
    as [H1 H2].
  split; [exact H1|].
  eapply (H2 "MintM" None (Finite (1 / 100))); reflexivity.
Defined.

Lemma dev_tip_shape (K : Constants) (direction : string) (w : Keypair)
  (a : number) :
  forallb is_tip (dev_tip K direction w a) = true
  /\ (List.length (dev_tip K direction w a) <= 1)%nat
  /\ (direction <> SwapDirection_BUY K -> dev_tip K direction w a = []).
Proof.
  unfold dev_tip.
  destruct (String.eqb_spec direction (SwapDirection_BUY K)) as [->|Hne].
  - destruct (JS.gt _ _); cbn; repeat split; auto; congruence.
  - cbn. repeat split; auto.
Qed.

Lemma provider_tip_shape (K : Constants) (E : Env) (provider : option Provider)
  (w : Keypair) (tip : number) (ixs : list TransactionInstruction) :
  provider_tip K E provider w tip = Ok ixs ->
  forallb is_tip ixs = true /\ (List.length ixs <= 1)%nat.
Proof.
  unfold provider_tip. destruct provider as [p|]; [|intros [= <-]; cbn; auto].
  destruct (JS.gt (JS.or tip JS.zero) JS.zero); [|intros [= <-]; cbn; auto].
  destruct (computeProviderTip K E p tip) as [[addr final]|e];
    cbn [mbind result_bind]; [|discriminate].
  destruct (JS.gt final JS.zero); intros [= <-]; cbn; auto.
Qed.

Lemma buildTransaction_ok_inv (K : Constants) (E : Env)
  (params : BuildTransactionParams) (tx : Transaction) :
  buildTransaction K E params = Ok tx ->
  exists m side raw,
    createMarketClient K (bp_market params) = Ok m
    /\ createDirectionInvoker K (bp_direction params) = Ok side
    /\ MarketClient E m side (swap_args params) = Ok (map SwapIx raw)
    /\ (JS.lt (bp_slippage params) JS.zero
        || JS.gt (bp_slippage params) (Finite 1))%bool = false
    /\ instructions tx =
       (createComputeBudgetInstructions E
          (default (Finite (1 # 10000)) (bp_priorityFeeSol params))
        ++ builder_tip E (bp_wallet params)
             (default JS.zero (bp_tipAmountSol params))
        ++ map SwapIx raw)%list
    /\ feePayer tx = Some (publicKey (bp_wallet params)).
Proof.
  unfold buildTransaction.
  destruct (_ || _)%bool eqn:Hcheck; [discriminate|].
  intros Ha.
  destruct (createMarketClient K (bp_market params)) as [m|e] eqn:Hm;
    [|unfold assemble in Ha; rewrite Hm in Ha; discriminate].
  destruct (createDirectionInvoker K (bp_direction params)) as [side|e] eqn:Hs;
    [|unfold assemble in Ha; rewrite Hm in Ha; cbn [mbind result_bind] in Ha;
      rewrite Hs in Ha; discriminate].
  destruct (MarketClient E m side (swap_args params)) as [ixs|e] eqn:Hix.
  - destruct (MarketClient_swap_only _ _ _ _ _ Hix) as (raw & ->).
    rewrite (assemble_ok K E params m side _ Hm Hs Hix) in Ha.
    injection Ha as <-. exists m, side, raw. cbn. auto 10.
  - unfold assemble in Ha. rewrite Hm in Ha. cbn [mbind result_bind] in Ha.
    rewrite Hs in Ha. cbn [mbind result_bind] in Ha.
    unfold swap_args in Hix. rewrite Hix in Ha. discriminate.
Qed.

(** X6: every transaction [trade] returns or submits is laid out as the
    compute-budget instructions, then instructions of the venue only, then
    at most two tip instructions (at most one on anything but a buy), and
    has the wallet as fee payer. *)
Theorem trade_layout (K : Constants) (E : Env) (params : TradeParams)
  (o : TradeOutcome) :
  trade K E params = Ok o ->
  exists (raw : list VenueInstruction) (tips : list TransactionInstruction),
    instructions (outcome_tx o) =
    (createComputeBudgetInstructions E
       (default (Finite (1 # 10000)) (tp_priorityFeeSol params))
     ++ map SwapIx raw ++ tips)%list
    /\ forallb is_tip tips = true
    /\ (List.length tips <= 2)%nat
    /\ (tp_direction params <> SwapDirection_BUY K -> (List.length tips <= 1)%nat)
    /\ feePayer (outcome_tx o) = Some (publicKey (tp_wallet params)).
Proof.
  unfold trade.
  destruct (normalizeMint E (tp_mint params)) as [mint|]; [|discriminate].
  cbn [mbind result_bind].
  destruct (normalizePoolAddress E (tp_poolAddress params)) as [pool|];
    [|discriminate].
  cbn [mbind result_bind].
  destruct (normalizeSlippage (tp_slippage params)) as [f|]; [|discriminate].
  cbn [mbind result_bind].
  destruct (buildTransaction K E _) as [tx|] eqn:Hb; [|discriminate].
  cbn [mbind result_bind].
  destruct (provider_tip K E _ _ _) as [relay|] eqn:Ht; [|discriminate].
  cbn [mbind result_bind].
  destruct (buildTransaction_ok_inv _ _ _ _ Hb)
    as (m & side & raw & _ & _ & _ & _ & Hi & Hfee).
  cbn [bp_priorityFeeSol bp_tipAmountSol bp_wallet] in Hi, Hfee.
  change (builder_tip E (tp_wallet params) (default JS.zero None)) with
    (@nil TransactionInstruction) in Hi.
  destruct (provider_tip_shape _ _ _ _ _ _ Ht) as [Hrt Hrl].
  destruct (dev_tip_shape K (tp_direction params) (tp_wallet params)
              (tp_amount params)) as (Hdt & Hdl & Hdn).
  intros Ho.
  assert (Htx : outcome_tx o =
                tx_add_all (tx_add_all tx
                              (dev_tip K (tp_direction params) (tp_wallet params)
                                 (tp_amount params))) relay).
  { destruct (negb (default true (tp_send params)));
      injection Ho as <-; reflexivity. }
  exists raw, (dev_tip K (tp_direction params) (tp_wallet params)
                 (tp_amount params) ++ relay)%list.
  rewrite Htx, !tx_add_all_instructions, !tx_add_all_feePayer, Hi.
  split; [cbn [app]; now rewrite <- !app_assoc|].
  split; [rewrite forallb_app; now rewrite Hdt, Hrt|].
  rewrite length_app. split; [lia|]. split; [|exact Hfee].
  intros Hne. rewrite (Hdn Hne). cbn. lia.
Qed.

Lemma trade_layout_witness :
  let K := Sample.constants (Finite (1 # 1000)) in
  let E := Sample.env [Sample.swapIx] in
  exists o raw tips,
    trade K E (Sample.request "buy" (Some (Finite (2 # 1000)))) = Ok o
    /\ instructions (outcome_tx o) =
       (createComputeBudgetInstructions E (Finite (1 # 10000))
        ++ map SwapIx raw ++ tips)%list
    /\ (List.length tips <= 2)%nat.
Proof.
  intros K E.
  destruct (trade K E (Sample.request "buy" (Some (Finite (2 # 1000)))))
    as [o|e] eqn:Ho; [|discriminate Ho].
  destruct (trade_layout K E _ o Ho) as (raw & tips & Hi & _ & Hl & _).
  exists o, raw, tips. auto.
Defined.

(** ** The compiler *)

Lemma market_cases_complete (m : Market) : In m market_cases.
Proof. destruct m; simpl; tauto. Qed.

(** X7: [buildTransaction] accepts every market constant and answers any
    other market string with [Unsupported market], also when the direction
    is unsupported as well; with a supported market, a direction that is
    neither constant is answered with [Unsupported direction]. *)
Theorem buildTransaction_unsupported (K : Constants) (E : Env)
  (params : BuildTransactionParams) :
  (JS.lt (bp_slippage params) JS.zero
   || JS.gt (bp_slippage params) (Finite 1))%bool = false ->
  (forall m, exists m', createMarketClient K (Markets K m) = Ok m'
                        /\ Markets K m' = Markets K m)
  /\ ((forall m, Markets K m <> bp_market params) ->
      buildTransaction K E params
      = Err (Throw ("Unsupported market: " ++ bp_market params)))
  /\ (forall m, createMarketClient K (bp_market params) = Ok m ->
                bp_direction params <> SwapDirection_BUY K ->
                bp_direction params <> SwapDirection_SELL K ->
                buildTransaction K E params
                = Err (Throw ("Unsupported direction: " ++ bp_direction params))).
Proof.
  intros Hcheck. split; [|split].
  - intros m. unfold createMarketClient.
    destruct (List.find _ market_cases) as [m'|] eqn:Hf.
    + exists m'. split; [reflexivity|].
      apply List.find_some in Hf. destruct Hf as [_ Hf].
      symmetry. now apply String.eqb_eq.
    + exfalso.
      pose proof (List.find_none _ _ Hf m (market_cases_complete m)) as Hm.
      cbv beta in Hm. now rewrite String.eqb_refl in Hm.
  - intros Hnone. unfold buildTransaction. rewrite Hcheck.
    unfold assemble, createMarketClient.
    destruct (List.find _ market_cases) as [m|] eqn:Hf; [|reflexivity].
    apply List.find_some in Hf. destruct Hf as [_ Hf].
    apply String.eqb_eq in Hf. exfalso. now apply (Hnone m).
  - intros m Hm Hb Hs. unfold buildTransaction. rewrite Hcheck.
    unfold assemble. rewrite Hm. cbn [mbind result_bind].
    unfold createDirectionInvoker.
    destruct (String.eqb_spec (bp_direction params) (SwapDirection_BUY K));
      [contradiction|].
    destruct (String.eqb_spec (bp_direction params) (SwapDirection_SELL K));
      [contradiction|reflexivity].
Qed.

Lemma buildTransaction_unsupported_witness :
  let K := Sample.constants (Finite 0) in
  let E := Sample.env [Sample.swapIx] in
  buildTransaction K E (SampleMore.build_params "UNISWAP" "hold" None)
  = Err (Throw "Unsupported market: UNISWAP")
  /\ buildTransaction K E (SampleMore.build_params "METEORA_DBC" "hold" None)
     = Err (Throw "Unsupported direction: hold").
Proof.
  intros K E. split.
  - apply (proj1 (proj2 (buildTransaction_unsupported K E
                           (SampleMore.build_params "UNISWAP" "hold" None)
                           eq_refl))).
    intros []; discriminate.
  - apply (proj2 (proj2 (buildTransaction_unsupported K E
                           (SampleMore.build_params "METEORA_DBC" "hold" None)
                           eq_refl)) METEORA_DBC); [reflexivity| |]; discriminate.
Defined.

(** X8: the upfront tip of [buildTransaction] needs a positive
    [tipAmountSol] and a [TIP_ADDRESS] that is a valid key: then the
    transaction built has exactly that tip instruction between the
    compute-budget instructions and the venue instructions; when the
    variable is unset, empty or not a valid key the tip is dropped without an
    error and the transaction is the one built without a tip. *)
Theorem buildTransaction_upfront_tip (K : Constants) (E : Env)
  (params : BuildTransactionParams) (t : number) (tx : Transaction) :
  bp_tipAmountSol params = Some t ->
  JS.gt t JS.zero = true ->
  buildTransaction K E params = Ok tx ->
  let budget :=
    createComputeBudgetInstructions E
      (default (Finite (1 # 10000)) (bp_priorityFeeSol params)) in
  exists raw : list VenueInstruction,
    (forall a, env_TIP_ADDRESS E = Some a -> a <> "" -> isPublicKey E a = true ->
               instructions tx =
               (budget ++ [TipIx a (publicKey (bp_wallet params)) t]
                ++ map SwapIx raw)%list)
    /\ (env_TIP_ADDRESS E = None \/ env_TIP_ADDRESS E = Some ""
        \/ (exists a, env_TIP_ADDRESS E = Some a /\ isPublicKey E a = false) ->
        instructions tx = (budget ++ map SwapIx raw)%list).
Proof.
  intros Htip Hpos Hb budget.
  destruct (buildTransaction_ok_inv _ _ _ _ Hb)
    as (m & side & raw & _ & _ & _ & _ & Hi & _).
  exists raw. rewrite Hi, Htip. cbn [default from_option id].
  unfold builder_tip. rewrite Hpos. split.
  - intros a Ha Hne Hvalid. rewrite Ha.
    destruct a as [|c a']; [congruence|].
    unfold new_PublicKey. now rewrite Hvalid.
  - intros [Ha | [Ha | (a & Ha & Hinvalid)]]; rewrite Ha; try reflexivity.
    destruct a as [|c a']; [reflexivity|].
    unfold new_PublicKey. now rewrite Hinvalid.
Qed.

Lemma buildTransaction_upfront_tip_witness :
  let K := Sample.constants (Finite 0) in
  let params :=
    SampleMore.build_params "METEORA_DLMM" "buy" (Some (Finite (1 # 1000))) in
  let E := SampleMore.env_with_tip_address (Some "TipAccount") (fun _ => true) in
  let E' := SampleMore.env_with_tip_address (Some "not a key") (fun _ => false) in
  let budget := createComputeBudgetInstructions E (Finite (1 # 10000)) in
  (exists raw,
      [ComputeBudgetIx "setComputeUnitPrice";
       TipIx "TipAccount" "Wallet1" (Finite (1 # 1000)); SwapIx Sample.swapIx]
      = (budget ++ [TipIx "TipAccount" "Wallet1" (Finite (1 # 1000))]
         ++ map SwapIx raw)%list)
  /\ (exists raw,
         [ComputeBudgetIx "setComputeUnitPrice"; SwapIx Sample.swapIx]
         = (budget ++ map SwapIx raw)%list).
Proof.
  intros K params E E' budget. split.
  - destruct (buildTransaction_upfront_tip K E params (Finite (1 # 1000))
                {| instructions :=
                     [ComputeBudgetIx "setComputeUnitPrice";
                      TipIx "TipAccount" "Wallet1" (Finite (1 # 1000));
                      SwapIx Sample.swapIx];
                   feePayer := Some "Wallet1" |} eq_refl eq_refl eq_refl)
      as (raw & H1 & _).
    exists raw. apply (H1 "TipAccount"); [reflexivity|discriminate|reflexivity].
  - destruct (buildTransaction_upfront_tip K E' params (Finite (1 # 1000))
                {| instructions :=
                     [ComputeBudgetIx "setComputeUnitPrice"; SwapIx Sample.swapIx];
                   feePayer := Some "Wallet1" |} eq_refl eq_refl eq_refl)
      as (raw & _ & H2).
    exists raw. apply H2. right. right. exists "not a key". split; reflexivity.
Defined.

(** X9: each of the four Meteora clients returns the instructions of its
    SDK in their order with exactly those of the compute-budget program
    taken out, and passes an error of the SDK on unchanged. *)
Theorem meteora_clients_drop_only_compute_budget (E : Env) (m : Market)
  (s : Side) (a : SwapArgs) :
  In m [METEORA_DLMM; METEORA_DAMM_V1; METEORA_DAMM_V2; METEORA_DBC] ->
  (forall raw, sdkTransaction E m s a = Ok raw ->
               MarketClient E m s a =
               Ok (map SwapIx
                     (List.filter
                        (fun v => negb (String.eqb (v_programId v)
                                          ComputeBudgetProgram_programId))
                        raw)))
  /\ (forall e, sdkTransaction E m s a = Err e -> MarketClient E m s a = Err e)
  /\ (forall ixs, MarketClient E m s a = Ok ixs ->
                  Forall (fun ix => is_compute_budget ix = false) ixs).
Proof.
  intros Hm. split; [|split].
  - intros raw Hraw. simpl in Hm.
    destruct Hm as [<- | [<- | [<- | [<- | []]]]]; cbn [MarketClient];
      unfold MeteoraDlmmClient, MeteoraDammV1Client, MeteoraDammV2Client,
        MeteoraDbcClient, stripNonEssentialInstructions;
      rewrite Hraw; cbn [mbind result_bind]; now rewrite filter_SwapIx.
  - intros e He. simpl in Hm.
    destruct Hm as [<- | [<- | [<- | [<- | []]]]]; cbn [MarketClient];
      unfold MeteoraDlmmClient, MeteoraDammV1Client, MeteoraDammV2Client,
        MeteoraDbcClient; now rewrite He.
  - intros ixs. now apply meteora_clients_strip.
Qed.

Lemma meteora_clients_drop_only_compute_budget_witness :
  let E := Sample.env [Sample.setLimit; Sample.swapIx; Sample.setLimit] in
  let a := {| mintAddress := "MintM"; wallet := "Wallet1";
              amount := Finite (3 # 2); slippage := Finite (1 # 100) |} in
  MarketClient E METEORA_DBC Sell a = Ok [SwapIx Sample.swapIx].
Proof.
  intros E a.
  apply (proj1 (meteora_clients_drop_only_compute_budget E METEORA_DBC Sell a
                  (or_intror (or_intror (or_intror (or_introl eq_refl)))))
           [Sample.setLimit; Sample.swapIx; Sample.setLimit] eq_refl).
Defined.

(** ** The DLMM caches *)

Lemma cache_pair_keeps (m : gmap string string) (it : Dlmm.Pair) (k : string) :
  is_Some (m !! k) -> is_Some (Dlmm.cache_pair m it !! k).
Proof.
  intros Hk. unfold Dlmm.cache_pair.
  destruct (_ || _)%bool; [exact Hk|].
  destruct (Dlmm.mint_x it) as [mx|]; [|exact Hk].
  destruct (Dlmm.mint_y it) as [my|]; [|exact Hk].
  destruct (_ && _)%bool; [exact Hk|].
  destruct (_ || _)%bool; [exact Hk|].
  destruct (Dlmm.address it) as [a|]; [|exact Hk].
  rewrite !lookup_insert_is_Some'. auto.
Qed.

Lemma fold_cache_pair_keeps (items : list Dlmm.Pair) (m : gmap string string)
  (k : string) :
  is_Some (m !! k) -> is_Some (fold_left Dlmm.cache_pair items m !! k).
Proof.
  revert m. induction items as [|it items IH]; intros m Hk; [exact Hk|].
  cbn [fold_left]. apply IH. now apply cache_pair_keeps.
Qed.

Lemma dlmm_ensure_pairCache (w : Dlmm.World) :
  Dlmm.pairCache (snd (Dlmm.ensureRawPairs w)) = Dlmm.pairCache w.
Proof.
  rewrite dlmm_ensure_cases.
  destruct (dlmm_memory_hit w); [reflexivity|].
  destruct (Dlmm.disk_lookup w); [reflexivity|].
  unfold Dlmm.fetch_pairs.
  destruct (Dlmm.network w (Dlmm.requests w)); cbn; try reflexivity.
  destruct (Dlmm.diskWritable w); reflexivity.
Qed.

Lemma dlmm_load_keeps (w : Dlmm.World) (k : string) :
  is_Some (Dlmm.pairCache w !! k) ->
  is_Some (Dlmm.pairCache (snd (Dlmm.loadPairsFromApiIfNeeded w)) !! k).
Proof.
  intros Hk. unfold Dlmm.loadPairsFromApiIfNeeded.
  destruct (younger _ _ _ && _)%bool; [exact Hk|].
  pose proof (dlmm_ensure_pairCache w) as Hp.
  destruct (Dlmm.ensureRawPairs w) as [[items|e] w1]; cbn [snd] in *.
  - cbn. apply fold_cache_pair_keeps. now rewrite Hp.
  - now rewrite Hp.
Qed.

Lemma dlmm_sdk_helper_pairCache (token : string) (w : Dlmm.World) :
  Dlmm.pairCache (snd (Dlmm.sdk_helper token w)) = Dlmm.pairCache w.
Proof.
  unfold Dlmm.sdk_helper, Dlmm.full_scan.
  cbn [Dlmm.with_call Dlmm.lbPairIfExists Dlmm.lbPairs].
  destruct (Dlmm.lbPairIfExists w token WSOL) as [[p|]|e]; try reflexivity.
  destruct (Dlmm.lbPairIfExists w WSOL token) as [[p|]|e]; try reflexivity.
  destruct (Dlmm.lbPairs w) as [all|e]; [|reflexivity].
  destruct (Dlmm.scan token all); reflexivity.
Qed.

Lemma dlmm_new_PublicKey_world (s : string) (w : Dlmm.World) :
  snd (Dlmm.new_PublicKey s w) = w.
Proof. unfold Dlmm.new_PublicKey. now destruct (Dlmm.isPublicKey w s). Qed.

(** X10: the static pair cache of the DLMM client only grows: a key it
    holds is still held after [loadPairsFromApiIfNeeded] and after a whole
    [findMintWsolPair], whatever the listing has become and whether or not
    the call succeeds. *)
Theorem dlmm_pair_cache_never_evicts (R : JsRuntime) (mint : PublicKey)
  (w : Dlmm.World) (k : string) :
  is_Some (Dlmm.pairCache w !! k) ->
  is_Some (Dlmm.pairCache (snd (Dlmm.loadPairsFromApiIfNeeded w)) !! k)
  /\ is_Some (Dlmm.pairCache (snd (Dlmm.findMintWsolPair R mint w)) !! k).
Proof.
  intros Hk. split; [now apply dlmm_load_keeps|].
  unfold Dlmm.findMintWsolPair.
  pose proof (dlmm_ensure_pairCache w) as Hp.
  destruct (Dlmm.ensureRawPairs w) as [[items|e] w0]; cbn [snd] in *;
    [|now rewrite Hp].
  destruct (Dlmm.snapshot_best R mint items) as [a|].
  - rewrite dlmm_new_PublicKey_world. now rewrite Hp.
  - unfold Dlmm.prebuilt_cache.
    assert (Hk1 : is_Some (Dlmm.pairCache
                             (snd (Dlmm.loadPairsFromApiIfNeeded w0)) !! k)).
    { apply dlmm_load_keeps. now rewrite Hp. }
    destruct (Dlmm.loadPairsFromApiIfNeeded w0) as [u w1]. cbn [snd] in Hk1.
    destruct (Dlmm.cache_hit w1 (Dlmm.normalizeKey mint WSOL)).
    + now rewrite dlmm_new_PublicKey_world.
    + now rewrite dlmm_sdk_helper_pairCache.
Qed.

Lemma dlmm_pair_cache_never_evicts_witness :
  let R := Sample.runtime in
  let dA := Sample.dlmm_pair (Some "PoolA") 5 1 in
  let w0 := Sample.dlmm_world None false (HttpOk (JArray [dA])) None [] in
  let w1 := snd (Dlmm.loadPairsFromApiIfNeeded w0) in
  let later := Dlmm.at_time w1 (Dlmm.clock w1 + 3600000) in
  is_Some (Dlmm.pairCache (snd (Dlmm.loadPairsFromApiIfNeeded later))
             !! Dlmm.normalizeKey "MintM" WSOL)
  /\ is_Some (Dlmm.pairCache (snd (Dlmm.findMintWsolPair R "OtherMint" later))
                !! Dlmm.normalizeKey "MintM" WSOL).
Proof.
  intros R dA w0 w1 later.
  apply (dlmm_pair_cache_never_evicts R "OtherMint" later).
  exists "PoolA". reflexivity.
Defined.

(** X11: when the listing cannot be fetched, [ensureRawPairs] throws the
    error of the request (the API status when the answer is not ok) even if
    an older listing is still in memory, and leaves memory and cache file as
    they were; [findMintWsolPair] then fails with the same error without
    calling any SDK fallback. *)
Theorem dlmm_fetch_failure (R : JsRuntime) (mint : PublicKey) (w : Dlmm.World) :
  let w' := snd (Dlmm.ensureRawPairs w) in
  (forall status, dlmm_memory_hit w = false -> Dlmm.disk_lookup w = None ->
                  Dlmm.network w (Dlmm.requests w) = HttpStatus status ->
                  fst (Dlmm.ensureRawPairs w)
                  = Err (Throw ("DLMM API status " ++ status)))
  /\ (forall e, fst (Dlmm.ensureRawPairs w) = Err e ->
                Dlmm.rawPairs w' = Dlmm.rawPairs w
                /\ Dlmm.rawLoadedAt w' = Dlmm.rawLoadedAt w
                /\ Dlmm.cacheFile w' = Dlmm.cacheFile w
                /\ Dlmm.requests w' = S (Dlmm.requests w)
                /\ Dlmm.findMintWsolPair R mint w = (Err e, w')
                /\ Dlmm.sdkCalls w' = Dlmm.sdkCalls w).
Proof.
  cbv zeta. split.
  - intros status Hmem Hdisk Hnet. rewrite dlmm_ensure_cases, Hmem, Hdisk.
    unfold Dlmm.fetch_pairs. now rewrite Hnet.
  - intros e. unfold Dlmm.findMintWsolPair. rewrite dlmm_ensure_cases.
    destruct (dlmm_memory_hit w); [discriminate|].
    destruct (Dlmm.disk_lookup w); [discriminate|].
    unfold Dlmm.fetch_pairs.
    destruct (Dlmm.network w (Dlmm.requests w)) as [|status|json]; cbn;
      intros [= <-]; auto 10.
Qed.

Lemma dlmm_fetch_failure_witness :
  let R := Sample.runtime in
  let w := Sample.dlmm_world None true (HttpStatus "503") (Some "HelperPool") [] in
  fst (Dlmm.ensureRawPairs w) = Err (Throw "DLMM API status 503")
  /\ fst (Dlmm.findMintWsolPair R "MintM" w) = Err (Throw "DLMM API status 503")
  /\ Dlmm.sdkCalls (snd (Dlmm.findMintWsolPair R "MintM" w)) = [].
Proof.
  intros R w.
  pose proof (dlmm_fetch_failure R "MintM" w) as [H1 H2]. cbv zeta in H2.
  pose proof (H1 "503" eq_refl eq_refl eq_refl) as He.
  destruct (H2 _ He) as (_ & _ & _ & _ & Hfind & Hcalls).
  split; [exact He|]. rewrite Hfind. split; [reflexivity|exact Hcalls].
Defined.

(** ** The DAMM resolvers *)

Lemma ordered_set_keys {V : Type} (m : list (string * V)) (k : string) (v : V) :
  (In k (map fst m) /\ map fst (ordered_set m k v) = map fst m)
  \/ (~ In k (map fst m) /\ map fst (ordered_set m k v) = (map fst m ++ [k])%list).
Proof.
  induction m as [|[k' v'] m IH]; cbn [ordered_set map fst app].
  - right. split; [intros []|reflexivity].
  - destruct (String.eqb_spec k' k) as [->|Hne].
    + left. split; [now left|reflexivity].
    + cbn [map fst]. destruct IH as [[Hin ->]|[Hin ->]].
      * left. split; [now right|reflexivity].
      * right. split; [|reflexivity].
        intros [Heq|Hin']; [now apply Hne|now apply Hin].
Qed.

Lemma ordered_set_In {V : Type} (m : list (string * V)) (k : string) (v : V)
  (p : string * V) :
  In p (ordered_set m k v) -> p = (k, v) \/ In p m.
Proof.
  induction m as [|[k' v'] m IH]; cbn [ordered_set].
  - intros [<-|[]]. now left.
  - destruct (String.eqb_spec k' k) as [->|Hne].
    + intros [<-|Hin]; [now left|right; now right].
    + intros [<-|Hin]; [right; now left|].
      destruct (IH Hin) as [->|Hin']; [now left|right; now right].
Qed.

Lemma ordered_set_NoDup {V : Type} (m : list (string * V)) (k : string) (v : V) :
  List.NoDup (map fst m) -> List.NoDup (map fst (ordered_set m k v)).
Proof.
  intros Hnd. destruct (ordered_set_keys m k v) as [[_ ->]|[Hin ->]];
    [exact Hnd|].
  apply List.NoDup_app; [exact Hnd | repeat constructor; intros [] |].
  intros x Hx [<-|[]]. now apply Hin.
Qed.

Lemma ordered_set_has_key {V : Type} (m : list (string * V)) (k : string) (v : V) :
  forall k', (k' = k \/ In k' (map fst m)) -> In k' (map fst (ordered_set m k v)).
Proof.
  intros k' H. destruct (ordered_set_keys m k v) as [[Hin ->]|[Hin ->]].
  - destruct H as [->|H]; assumption.
  - apply in_or_app. destruct H as [->|H]; [right; now left|now left].
Qed.

(** The map built by the loop of [fetchPoolsForTokenPair]: its keys are
    distinct, each value is a pool of the input filed under its own address,
    and every address of the input is a key. *)
Lemma dedupe_map_invariant (pools : list DammV2.DammV2Pool) :
  forall acc : list (string * DammV2.DammV2Pool),
    let m :=
      fold_left
        (fun m it =>
           match DammV2.pool_address it with
           | Some (String _ _ as a) => ordered_set m a it
           | _ => m
           end) pools acc in
    (List.NoDup (map fst acc) -> List.NoDup (map fst m))
    /\ (forall k v, In (k, v) m ->
                    In (k, v) acc
                    \/ (In v pools /\ DammV2.pool_address v = Some k /\ k <> ""))
    /\ (forall k, In k (map fst acc) -> In k (map fst m))
    /\ (forall it c a, In it pools ->
                       DammV2.pool_address it = Some (String c a) ->
                       In (String c a) (map fst m)).
Proof.
  induction pools as [|it pools IH]; intros acc; cbn [fold_left].
  - cbv zeta. repeat split; auto. intros it c a [].
  - set (acc' := match DammV2.pool_address it with
                 | Some (String _ _ as a) => ordered_set acc a it
                 | _ => acc
                 end).
    specialize (IH acc'). cbv zeta in IH |- *.
    destruct IH as (Hnd & Hin & Hkeys & Hall).
    assert (Hacc_nd : List.NoDup (map fst acc) -> List.NoDup (map fst acc')).
    { subst acc'. destruct (DammV2.pool_address it) as [[|c a]|]; auto.
      apply ordered_set_NoDup. }
    assert (Hacc_in : forall k v, In (k, v) acc' ->
                In (k, v) acc
                \/ (v = it /\ DammV2.pool_address v = Some k /\ k <> "")).
    { subst acc'. intros k v.
      destruct (DammV2.pool_address it) as [[|c a]|] eqn:Ha; auto.
      intros H. apply ordered_set_In in H.
      destruct H as [[= -> ->]|H]; [right|now left].
      repeat split; [exact Ha|discriminate]. }
    assert (Hacc_keys : forall k, In k (map fst acc) -> In k (map fst acc')).
    { subst acc'. intros k Hk.
      destruct (DammV2.pool_address it) as [[|c a]|]; auto.
      apply ordered_set_has_key. now right. }
    split; [auto|]. split; [|split].
    + intros k v H. destruct (Hin k v H) as [H'|(Hv & Ha & Hk)].
      * destruct (Hacc_in k v H') as [|(-> & Ha & Hk)]; [now left|].
        right. repeat split; auto. now left.
      * right. repeat split; auto. now right.
    + auto.
    + intros it' c a [<-|Hin'] Ha.
      * apply Hkeys. subst acc'. rewrite Ha.
        apply ordered_set_has_key. now left.
      * now apply (Hall it' c a).
Qed.

Lemma NoDup_map_Some {A : Type} (l : list A) :
  List.NoDup l -> List.NoDup (map Some l).
Proof.
  induction 1 as [|x l Hx Hnd IH]; cbn; constructor; [|exact IH].
  intros Hin. apply in_map_iff in Hin. destruct Hin as (y & [= ->] & Hy).
  now apply Hx.
Qed.

(** X12: the listing [fetchPoolsForTokenPair] makes of the two answers
    holds no two pools with the same address; each of its pools comes from
    the answers and has an address; and every address of the answers is
    still there. *)
Theorem dedupe_by_pool_address (pools : list DammV2.DammV2Pool) :
  List.NoDup (map DammV2.pool_address (DammV2.dedupe pools))
  /\ (forall p, In p (DammV2.dedupe pools) ->
                In p pools /\ truthy_str (DammV2.pool_address p) = true)
  /\ (forall p, In p pools -> truthy_str (DammV2.pool_address p) = true ->
                In (DammV2.pool_address p)
                  (map DammV2.pool_address (DammV2.dedupe pools))).
Proof.
  unfold DammV2.dedupe.
  destruct (dedupe_map_invariant pools []) as (Hnd & Hin & _ & Hall).
  cbv zeta in *.
  set (m := fold_left _ pools []) in *.
  assert (Hval : forall k v, In (k, v) m ->
             In v pools /\ DammV2.pool_address v = Some k /\ k <> "").
  { intros k v H. destruct (Hin k v H) as [[]|]; assumption. }
  assert (Haddr : map DammV2.pool_address (map snd m) = map Some (map fst m)).
  { rewrite !map_map. apply map_ext_in. intros [k v] Hkv. cbn.
    now destruct (Hval k v Hkv) as (_ & -> & _). }
  split; [|split].
  - rewrite Haddr. apply NoDup_map_Some. apply Hnd. constructor.
  - intros p Hp. apply in_map_iff in Hp. destruct Hp as ([k v] & <- & Hkv).
    cbn. destruct (Hval k v Hkv) as (Hv & Ha & Hk). split; [exact Hv|].
    rewrite Ha. destruct k; [congruence|reflexivity].
  - intros p Hp Ht. rewrite Haddr.
    destruct (DammV2.pool_address p) as [[|c a]|] eqn:Ha; try discriminate.
    apply in_map. now apply (Hall p c a).
Qed.

Lemma dedupe_by_pool_address_witness :
  let first := Sample.v2_pool "Pool1" 1 1 in
  let other := Sample.v2_pool "Pool2" 2 2 in
  let again := Sample.v2_pool "Pool1" 9 9 in
  let pools := [first; other; again] in
  (In again pools /\ truthy_str (DammV2.pool_address again) = true)
  /\ In (DammV2.pool_address first)
       (map DammV2.pool_address (DammV2.dedupe pools)).
Proof.
  intros first other again pools.
  pose proof (dedupe_by_pool_address pools) as (_ & Hfrom & Hkept).
  split.
  - apply (Hfrom again). left. reflexivity.
  - apply (Hkept first); [left; reflexivity | reflexivity].
Defined.

(** A [reduce] that keeps or replaces its accumulator ends on an
    accumulator made from one of the candidates. *)
Lemma fold_picks_member {A B : Type} (mk : A -> B)
  (red : option B -> A -> option B) :
  (forall b it, red (Some b) it = Some (mk it) \/ red (Some b) it = Some b) ->
  forall (l : list A) (b0 : A),
    exists b', In b' (b0 :: l) /\ fold_left red l (Some (mk b0)) = Some (mk b').
Proof.
  intros Hred l. induction l as [|x l IH]; intros b0.
  - exists b0. split; [now left|reflexivity].
  - cbn [fold_left]. destruct (Hred (mk b0) x) as [-> | ->].
    + destruct (IH x) as (b' & Hin & Hf). exists b'. split; [now right|exact Hf].
    + destruct (IH b0) as (b' & Hin & Hf). exists b'. split; [|exact Hf].
      destruct Hin as [Heq|Hin]; [now left|right; now right].
Qed.

(** X13: a pool address given by a resolver is the address of a record of
    the listing whose two mints are exactly the token and WSOL: in the DLMM
    snapshot strategy, in [chooseBestPool] and [findPoolAddressForMint] of
    DAMM v2, and in [findPoolAddressForMint] of DAMM v1. *)
Theorem resolvers_return_listed_candidates (R : JsRuntime) (mint : PublicKey) :
  (forall items a,
      Dlmm.snapshot_best R mint items = Some a ->
      a <> ""
      /\ exists it, In it items /\ Dlmm.is_candidate mint it = true
                    /\ Dlmm.address it = Some a)
  /\ (forall items wsol best,
         DammV2.chooseBestPool R items mint wsol = Some best ->
         In best items /\ DammV2.is_candidate mint wsol best = true)
  /\ (forall w w0 items a,
         DammV2.fetchPoolsForTokenPair mint WSOL w = (Ok items, w0) ->
         fst (DammV2.findPoolAddressForMint R mint w) = Ok a ->
         exists it, In it items /\ DammV2.is_candidate mint WSOL it = true
                    /\ DammV2.pool_address it = Some a)
  /\ (forall w w0 items a,
         DammV1.fetchPoolsForTokenPair mint WSOL w = (Ok items, w0) ->
         fst (DammV1.findPoolAddressForMint R mint w) = Ok a ->
         exists it, In it items /\ DammV1.is_candidate mint it = true
                    /\ DammV1.pool_address it = Some a).
Proof.
  assert (Hv2 : forall items wsol best,
             DammV2.chooseBestPool R items mint wsol = Some best ->
             In best items /\ DammV2.is_candidate mint wsol best = true).
  { intros items wsol best. unfold DammV2.chooseBestPool.
    destruct (List.filter (DammV2.is_candidate mint wsol) items) as [|x l] eqn:Hf;
      [discriminate|].
    cbn [fold_left DammV2.reducer].
    destruct (fold_picks_member (fun it => (it, DammV2.score R mint it))
                (DammV2.reducer R mint)) with (l := l) (b0 := x)
      as (b' & Hin & ->).
    { intros [p s] it. cbn. destruct (JS.gt _ s); auto. }
    cbn. intros [= <-]. rewrite <- Hf in Hin.
    apply List.filter_In in Hin. exact Hin. }
  split; [|split; [exact Hv2|split]].
  - intros items a. unfold Dlmm.snapshot_best.
    destruct (List.filter (Dlmm.is_candidate mint) items) as [|x l] eqn:Hf;
      [discriminate|].
    cbn [fold_left Dlmm.reducer].
    destruct (fold_picks_member
                (fun it => {| Dlmm.best_address := Dlmm.address it;
                              Dlmm.best_score := Dlmm.score R mint it |})
                (Dlmm.reducer R mint)) with (l := l) (b0 := x)
      as (b' & Hin & ->).
    { intros b it. cbn. destruct (JS.gt _ _); auto. }
    cbn [Dlmm.best_address].
    destruct (Dlmm.address b') as [[|c a']|] eqn:Ha; cbn; try discriminate.
    intros [= <-]. split; [discriminate|].
    rewrite <- Hf in Hin. apply List.filter_In in Hin.
    exists b'. tauto.
  - intros w w0 items a Hfetch. unfold DammV2.findPoolAddressForMint.
    rewrite Hfetch.
    destruct (DammV2.chooseBestPool R items mint WSOL) as [best|] eqn:Hbest;
      [|discriminate].
    destruct (Hv2 _ _ _ Hbest) as [Hin Hcand].
    destruct best as [[[|c a']|] ta tb aa ab li tv]; cbn [fst]; try discriminate.
    unfold PairCache.new_PublicKey.
    destruct (PairCache.isPublicKey w0 _); cbn [fst]; [|discriminate].
    intros [= <-]. eexists. split; [exact Hin|]. split; [exact Hcand|reflexivity].
  - intros w w0 items a Hfetch. unfold DammV1.findPoolAddressForMint.
    rewrite Hfetch.
    destruct (List.filter (DammV1.is_candidate mint) items) as [|x l] eqn:Hf;
      [discriminate|].
    cbn [fold_left DammV1.reducer].
    destruct (fold_picks_member
                (fun it => (DammV1.pool_address it, DammV1.score R mint it))
                (DammV1.reducer R mint)) with (l := l) (b0 := x)
      as (b' & Hin & ->).
    { intros [p s] it. cbn. destruct (JS.gt _ s); auto. }
    destruct (DammV1.pool_address b') as [[|c a']|] eqn:Ha; cbn [fst];
      try discriminate.
    unfold PairCache.new_PublicKey.
    destruct (PairCache.isPublicKey w0 _); cbn [fst]; [|discriminate].
    intros [= <-]. rewrite <- Hf in Hin. apply List.filter_In in Hin.
    exists b'. tauto.
Qed.

Lemma resolvers_return_listed_candidates_witness :
  let R := Sample.runtime in
  let p1 := Sample.v2_pool "Pool1" 10 1 in
  let p2 := Sample.v2_pool "Pool2" 20 1 in
  let d1 := Sample.dlmm_pair (Some "Pool1") 20 1 in
  (In p2 [p1; p2] /\ DammV2.is_candidate "MintM" WSOL p2 = true)
  /\ ("Pool1" <> ""
      /\ exists it, In it [d1] /\ Dlmm.is_candidate "MintM" it = true
                    /\ Dlmm.address it = Some "Pool1")
  /\ (exists it, In it [p1; p2] /\ DammV2.is_candidate "MintM" WSOL it = true
                 /\ DammV2.pool_address it = Some "Pool2").
Proof.
  intros R p1 p2 d1.
  pose proof (resolvers_return_listed_candidates R "MintM") as (Hd & Hc & Hf & _).
  split; [exact (Hc [p1; p2] WSOL p2 eq_refl)|].
  split; [exact (Hd [d1] "Pool1" eq_refl)|].
  set (w := Sample.v2_world (HttpOk (JArray [p1; p2]))).
  exact (Hf w (snd (DammV2.fetchPoolsForTokenPair "MintM" WSOL w)) [p1; p2]
           "Pool2" eq_refl eq_refl).
Defined.

(** ** The two-tier pair cache *)

Lemma cached_failure {A : Type} (k : string)
  (query : PairCache.M A (list A)) (w : PairCache.World A) (e : Error) :
  (forall u, PairCache.pairCache (snd (query u)) = PairCache.pairCache u
             /\ PairCache.files (snd (query u)) = PairCache.files u) ->
  fst (PairCache.cached k query w) = Err e ->
  PairCache.pairCache (snd (PairCache.cached k query w)) = PairCache.pairCache w
  /\ PairCache.files (snd (PairCache.cached k query w)) = PairCache.files w
  /\ snd (PairCache.cached k query w) = snd (query w).
Proof.
  intros Hframe. unfold PairCache.cached.
  destruct (PairCache.memory_lookup w k); [discriminate|].
  destruct (PairCache.disk_lookup w k); [discriminate|].
  destruct (Hframe w) as [H1 H2].
  destruct (query w) as [[items|e'] w1]; cbn [fst snd] in *; [discriminate|].
  auto.
Qed.

Lemma v1_search_world (w : PairCache.World DammV1.Pool) :
  snd (DammV1.search w) = PairCache.with_requests w (S (PairCache.requests w)).
Proof.
  unfold DammV1.search, PairCache.request.
  now destruct (PairCache.network w (PairCache.requests w)).
Qed.

(** X14: a failed fetch of the DAMM clients is thrown to the caller and
    leaves both cache tiers as they were: nothing is stored in memory or on
    disk.  The DAMM v2 client has then sent both of its requests, also when
    the first one had already failed; the DAMM v1 client has sent one. *)
Theorem damm_fetch_failure_not_cached (tokenMint otherMint : string) (e : Error) :
  (forall w : PairCache.World DammV2.DammV2Pool,
      let w' := snd (DammV2.fetchPoolsForTokenPair tokenMint otherMint w) in
      fst (DammV2.fetchPoolsForTokenPair tokenMint otherMint w) = Err e ->
      PairCache.pairCache w' = PairCache.pairCache w
      /\ PairCache.files w' = PairCache.files w
      /\ PairCache.requests w' = S (S (PairCache.requests w)))
  /\ (forall w : PairCache.World DammV1.Pool,
         let w' := snd (DammV1.fetchPoolsForTokenPair tokenMint otherMint w) in
         fst (DammV1.fetchPoolsForTokenPair tokenMint otherMint w) = Err e ->
         PairCache.pairCache w' = PairCache.pairCache w
         /\ PairCache.files w' = PairCache.files w
         /\ PairCache.requests w' = S (PairCache.requests w)).
Proof.
  split; intros w w' He; subst w'.
  - unfold DammV2.fetchPoolsForTokenPair in *.
    destruct (cached_failure (DammV2.getPairCacheKey tokenMint otherMint)
                DammV2.query_both w e) as (H1 & H2 & H3);
      [intros u; now rewrite v2_query_world | exact He |].
    rewrite H1, H2, H3, v2_query_world. auto.
  - unfold DammV1.fetchPoolsForTokenPair in *.
    destruct (cached_failure (DammV1.getPairCacheKey tokenMint otherMint)
                DammV1.search w e) as (H1 & H2 & H3);
      [intros u; now rewrite v1_search_world | exact He |].
    rewrite H1, H2, H3, v1_search_world. auto.
Qed.

Lemma damm_fetch_failure_not_cached_witness :
  let w := Sample.v2_world (HttpStatus "500") in
  let w' := snd (DammV2.fetchPoolsForTokenPair "MintM" WSOL w) in
  PairCache.pairCache w' = PairCache.pairCache w
  /\ PairCache.files w' = PairCache.files w
  /\ PairCache.requests w' = 2%nat.
Proof.
  intros w w'.
  exact (proj1 (damm_fetch_failure_not_cached "MintM" WSOL
                  (Throw "DAMM v2 API status 500")) w eq_refl).
Defined.

(** X15: a listing read from a cache file is put in memory under the time
    of the read, not the time of the file: from then on it is served from
    memory, without a request, at every time less than a TTL after that
    read, however old the file has become. *)
Theorem disk_hit_is_restamped (tokenMint otherMint : string)
  (w : PairCache.World DammV2.DammV2Pool) (data : list DammV2.DammV2Pool) :
  let k := DammV2.getPairCacheKey tokenMint otherMint in
  let w' := snd (DammV2.fetchPoolsForTokenPair tokenMint otherMint w) in
  PairCache.memory_lookup w k = None ->
  PairCache.disk_lookup w k = Some data ->
  PairCache.pairCache w' !! k = Some (data, PairCache.clock w)
  /\ forall t, younger t (PairCache.clock w) (PairCache.ttl w) = true ->
               DammV2.fetchPoolsForTokenPair tokenMint otherMint
                 (PairCache.at_time w' t)
               = (Ok data, PairCache.at_time w' t).
Proof.
  intros k w' Hmem Hdisk.
  assert (Hw : w' = PairCache.with_entry w k data (PairCache.clock w)).
  { subst w'. unfold DammV2.fetchPoolsForTokenPair. fold k.
    unfold PairCache.cached. now rewrite Hmem, Hdisk. }
  rewrite Hw. cbn [PairCache.with_entry PairCache.pairCache].
  split; [apply lookup_insert_eq|].
  intros t Hyoung. unfold DammV2.fetchPoolsForTokenPair. fold k.
  unfold PairCache.cached, PairCache.memory_lookup, PairCache.ttl in *.
  cbn [PairCache.at_time PairCache.with_entry PairCache.pairCache
         PairCache.clock PairCache.ttlFromEnv].
  rewrite lookup_insert_eq. now rewrite Hyoung.
Qed.

Lemma disk_hit_is_restamped_witness :
  let p := Sample.v2_pool "Pool1" 20 1 in
  let w := SampleMore.v2_world_with_file (1700000000000 - 299000) [p] in
  let w' := snd (DammV2.fetchPoolsForTokenPair "MintM" WSOL w) in
  let t := 1700000000000 + 299000 in
  younger t (1700000000000 - 299000) (PairCache.ttl w) = false
  /\ DammV2.fetchPoolsForTokenPair "MintM" WSOL (PairCache.at_time w' t)
     = (Ok [p], PairCache.at_time w' t).
Proof.
  intros p w w' t. split; [reflexivity|].
  exact (proj2 (disk_hit_is_restamped "MintM" WSOL w [p] eq_refl eq_refl)
           t eq_refl).
Defined.

(** ** Slippage bounds *)

Lemma Qlt_bool_inject_Z (a b : Z) :
  Qlt_bool (inject_Z a) (inject_Z b) = (a <? b).
Proof.
  unfold Qlt_bool, Qle_bool. cbn. rewrite !Z.mul_1_r. symmetry.
  apply Z.ltb_antisym.
Qed.

Lemma mul_by_positive_is_number (s : number) (c : Q) :
  s <> NaN -> (0 < c)%Q -> JS.mul s (Finite c) <> NaN.
Proof.
  intros Hs Hc. apply Qlt_bool_iff in Hc.
  destruct s as [| |q|]; cbn [JS.mul]; try congruence;
    [|apply binary64_not_NaN|];
    rewrite (Qeq_bool_pos c Hc); unfold sign_pos; rewrite Hc; discriminate.
Qed.

(** Scaling by a whole factor keeps a number on its side of a whole bound,
    the rounding of the product notwithstanding. *)
Lemma mul_scale_le (s : number) (b c : Z) :
  0 < c -> 0 <= b * c < 2 ^ 53 ->
  JS.le s (Finite (inject_Z b)) = true ->
  JS.le (JS.mul s (Finite (inject_Z c))) (Finite (inject_Z (b * c))) = true.
Proof.
  intros Hc Hbc Hs.
  assert (Hc' : (0 < inject_Z c)%Q).
  { change 0%Q with (inject_Z 0). now rewrite <- Zlt_Qlt. }
  destruct s as [| |q|]; try discriminate.
  - cbn [JS.mul]. apply Qlt_bool_iff in Hc'.
    rewrite (Qeq_bool_pos _ Hc'). unfold sign_pos. now rewrite Hc'.
  - cbn [JS.mul]. apply binary64_le; [exact Hbc|].
    cbn [JS.le] in Hs. apply Qle_bool_iff in Hs. rewrite inject_Z_mult.
    apply Qmult_le_compat_r; [exact Hs|now apply Qlt_le_weak].
Qed.

Lemma mul_scale_ge (s : number) (b c : Z) :
  0 < c -> 0 <= b * c < 2 ^ 53 ->
  JS.le (Finite (inject_Z b)) s = true ->
  JS.le (Finite (inject_Z (b * c))) (JS.mul s (Finite (inject_Z c))) = true.
Proof.
  intros Hc Hbc Hs.
  assert (Hc' : (0 < inject_Z c)%Q).
  { change 0%Q with (inject_Z 0). now rewrite <- Zlt_Qlt. }
  destruct s as [| |q|]; try discriminate.
  - cbn [JS.mul]. apply binary64_ge; [exact Hbc|].
    cbn [JS.le] in Hs. apply Qle_bool_iff in Hs. rewrite inject_Z_mult.
    apply Qmult_le_compat_r; [exact Hs|now apply Qlt_le_weak].
  - cbn [JS.mul]. apply Qlt_bool_iff in Hc'.
    rewrite (Qeq_bool_pos _ Hc'). unfold sign_pos. now rewrite Hc'.
Qed.

(** Clamping a rounded number between two integers gives an integer between
    them: a bound, or the rounded number itself. *)
Lemma clamp_round_range (lo hi : Z) (y : number) :
  lo <= hi -> y <> NaN ->
  exists z : Z,
    Math_max (Finite (inject_Z lo))
      (Math_min (Finite (inject_Z hi)) (Math_round y)) = Finite (inject_Z z)
    /\ lo <= z <= hi
    /\ (forall q, y = Finite q ->
                  z = Z.max lo (Z.min hi (Qfloor (q + (1 # 2))))).
Proof.
  intros Hle Hy. destruct y as [| |q|]; [congruence| | |].
  - exists lo. cbn. split; [reflexivity|]. split; [lia|]. intros q [=].
  - set (r := Qfloor (q + (1 # 2))).
    exists (Z.max lo (Z.min hi r)). cbn [Math_round Math_min Math_max JS.lt].
    fold r. rewrite Qlt_bool_inject_Z.
    assert (Hq : forall q', Finite q = Finite q' ->
                            Z.max lo (Z.min hi r)
                            = Z.max lo (Z.min hi (Qfloor (q' + (1 # 2))))).
    { intros q' [= <-]. reflexivity. }
    destruct (r <? hi) eqn:Hr; cbn [JS.lt]; rewrite Qlt_bool_inject_Z.
    + apply Z.ltb_lt in Hr.
      destruct (lo <? r) eqn:Hl; [apply Z.ltb_lt in Hl|apply Z.ltb_ge in Hl];
        (split; [f_equal; f_equal; lia|]); (split; [lia|exact Hq]).
    + apply Z.ltb_ge in Hr.
      destruct (lo <? hi) eqn:Hl; [apply Z.ltb_lt in Hl|apply Z.ltb_ge in Hl];
        (split; [f_equal; f_equal; lia|]); (split; [lia|exact Hq]).
  - cbn. rewrite Qlt_bool_inject_Z.
    destruct (lo <? hi) eqn:Hlt; [exists hi|exists lo];
      (split; [reflexivity|]); (split; [lia|]); intros q [=].
Qed.

Lemma Qfloor_half (b : Z) : Qfloor (inject_Z b + (1 # 2)) = b.
Proof.
  unfold Qfloor, Qplus, inject_Z. cbn [Qnum Qden].
  symmetry. apply Z.div_unique with 1; lia.
Qed.

(** Where the number lies at or beyond a bound, the clamp gives the bound. *)
Lemma clamp_round_at_bounds (lo hi z : Z) (y : number) :
  lo <= hi ->
  Math_max (Finite (inject_Z lo))
    (Math_min (Finite (inject_Z hi)) (Math_round y)) = Finite (inject_Z z) ->
  (forall b, b <= lo -> JS.le y (Finite (inject_Z b)) = true -> z = lo)
  /\ (forall b, hi <= b -> JS.le (Finite (inject_Z b)) y = true -> z = hi).
Proof.
  intros Hle Hz.
  assert (Hy : y <> NaN) by (intros ->; discriminate Hz).
  destruct (clamp_round_range lo hi y Hle Hy) as (z' & Hz' & _ & Hval).
  rewrite Hz in Hz'. injection Hz' as Hz'. subst z'.
  destruct y as [| |q|]; [congruence| | |].
  - cbn in Hz. injection Hz as Hz. split; [intros; lia|discriminate].
  - specialize (Hval _ eq_refl). cbn [JS.le]. split; intros b Hb Hq;
      apply Qle_bool_iff in Hq.
    + assert (Hf : Qfloor (q + (1 # 2)) <= b); [|lia].
      rewrite <- (Qfloor_half b). apply Qfloor_resp_le. lra.
    + assert (Hf : b <= Qfloor (q + (1 # 2))); [|lia].
      rewrite <- (Qfloor_Z b). apply Qfloor_resp_le. lra.
  - cbn in Hz. rewrite Qlt_bool_inject_Z in Hz.
    split; [discriminate|]. intros _ _ _.
    destruct (lo <? hi) eqn:Hlt; injection Hz as Hz;
      [lia|apply Z.ltb_ge in Hlt; lia].
Qed.

(** X16: for every slippage that is a number, [toBpsFromFraction] of the DBC
    client and [maxFeeBps] of the DLMM client are the same whole number of
    basis points between 0 and 10000: 0 for a slippage of 0 or less, 10000
    for a slippage of 1 or more; nothing is thrown. *)
Theorem slippage_bps_clamped (s : number) :
  s <> NaN ->
  exists z : Z,
    Dbc.toBpsFromFraction s = Finite (inject_Z z)
    /\ dlmm_maxFeeBps s = Finite (inject_Z z)
    /\ 0 <= z <= 10000
    /\ (JS.le s (Finite 0) = true -> z = 0)
    /\ (JS.ge s (Finite 1) = true -> z = 10000).
Proof.
  intros Hs.
  destruct (clamp_round_range 0 10000 (JS.mul s (Finite 10000)))
    as (z & Hz & Hrange & _); [lia | now apply mul_by_positive_is_number |].
  exists z. split; [exact Hz|]. split; [exact Hz|]. split; [exact Hrange|].
  destruct (clamp_round_at_bounds 0 10000 z _ ltac:(lia) Hz) as [Hlow Hhigh].
  split.
  - intros H0. apply (Hlow 0); [lia|].
    exact (mul_scale_le s 0 10000 ltac:(lia) ltac:(lia) H0).
  - intros H1. apply (Hhigh 10000); [lia|].
    exact (mul_scale_ge s 1 10000 ltac:(lia) ltac:(lia) H1).
Qed.

Lemma slippage_bps_clamped_witness :
  exists z : Z,
    Dbc.toBpsFromFraction (Finite (1 # 100)) = Finite (inject_Z z)
    /\ dlmm_maxFeeBps (Finite (1 # 100)) = Finite (inject_Z z)
    /\ 0 <= z <= 10000.
Proof.
  destruct (slippage_bps_clamped (Finite (1 # 100))) as (z & H1 & H2 & H3 & _);
    [discriminate|].
  exists z. auto.
Defined.

(** X17: the DAMM v1 client quotes with a whole percentage between 1 and
    100 for every slippage that is a number, so a slippage of 0 (or less) is
    quoted as 1 percent, never as 0; the DAMM v2 client quotes with a
    percentage between 0 and 100 that has at most two decimals. *)
Theorem slippage_percent_clamped (s : number) :
  s <> NaN ->
  (exists z : Z,
      damm_v1_slippage s = Finite (inject_Z z)
      /\ 1 <= z <= 100
      /\ (JS.le s (Finite 0) = true -> z = 1))
  /\ (exists r : Z,
         toPercentFromFraction s = Finite (inject_Z r / 100)
         /\ 0 <= r <= 10000).
Proof.
  intros Hs. split.
  - destruct (clamp_round_range 1 100 (JS.mul s (Finite 100)))
      as (z & Hz & Hrange & _); [lia | now apply mul_by_positive_is_number |].
    exists z. split; [exact Hz|]. split; [exact Hrange|].
    intros H0.
    apply (proj1 (clamp_round_at_bounds 1 100 z _ ltac:(lia) Hz) 0); [lia|].
    exact (mul_scale_le s 0 100 ltac:(lia) ltac:(lia) H0).
  - unfold toPercentFromFraction.
    assert (Hpct : exists c : Q,
               Math_max JS.zero (Math_min (Finite 100) (JS.mul s (Finite 100)))
               = Finite c /\ (0 <= c)%Q /\ (c <= 100)%Q).
    { pose proof (mul_by_positive_is_number s 100 Hs eq_refl) as Hy.
      destruct (JS.mul s (Finite 100)) as [| |y|]; [congruence| | |].
      - exists 0%Q. cbn. repeat split; [apply Qle_refl|discriminate].
      - apply (clamp_percent_finite y).
      - exists 100%Q. cbn. repeat split; [discriminate|apply Qle_refl]. }
    destruct Hpct as (c & -> & H0 & H100).
    pose proof (mul_scale_ge (Finite c) 0 100 ltac:(lia) ltac:(lia)) as Hge.
    pose proof (mul_scale_le (Finite c) 100 100 ltac:(lia) ltac:(lia)) as Hle.
    cbn [JS.le] in Hge, Hle. rewrite Qle_bool_iff in Hge, Hle.
    specialize (Hge H0). specialize (Hle H100).
    change (Finite (inject_Z 100)) with (Finite 100) in Hge, Hle.
    destruct (JS.mul (Finite c) (Finite 100)) as [| |y|]; try discriminate.
    cbn [JS.le] in Hge, Hle. apply Qle_bool_iff in Hge, Hle.
    change (inject_Z (0 * 100)) with 0%Q in Hge.
    change (inject_Z (100 * 100)) with 10000%Q in Hle.
    exists (Qfloor (y + (1 # 2))). split; [reflexivity|]. split.
    + change 0 with (Qfloor (1 # 2)). apply Qfloor_resp_le. lra.
    + change 10000 with (Qfloor (10000 + (1 # 2))). apply Qfloor_resp_le. lra.
Qed.

Lemma slippage_percent_clamped_witness :
  (exists z : Z, damm_v1_slippage (Finite 0) = Finite (inject_Z z)
                 /\ 1 <= z <= 100 /\ z = 1)
  /\ (exists r : Z,
         toPercentFromFraction (Finite (12345 # 1000000))
         = Finite (inject_Z r / 100)
         /\ 0 <= r <= 10000).
Proof.
  split.
  - destruct (proj1 (slippage_percent_clamped (Finite 0) ltac:(discriminate)))
      as (z & H1 & H2 & H3).
    exists z. split; [exact H1|]. split; [exact H2|]. now apply H3.
  - exact (proj2 (slippage_percent_clamped (Finite (12345 # 1000000))
                    ltac:(discriminate))).
Defined.

(** ** The command line *)

Lemma is_option_dashes (k : string) : Cli.is_option ("--" ++ k) = true.
Proof. reflexivity. Qed.

Lemma is_option_inv (s : string) :
  Cli.is_option s = true -> s = "--" ++ Cli.slice2 s.
Proof.
  unfold Cli.is_option. destruct s as [|a [|b r]]; try discriminate.
  intros H. apply andb_true_iff in H. destruct H as [Ha Hb].
  apply Ascii.eqb_eq in Ha, Hb. now subst.
Qed.

Lemma dashes_inj (a b : string) : "--" ++ a = "--" ++ b -> a = b.
Proof. cbn. now intros [=]. Qed.

Lemma parse_from_spec (n : nat) :
  forall argv : list string, (List.length argv <= n)%nat ->
  forall (args : gmap string string) (k : string),
    (is_Some (Cli.parse_from argv args !! k)
     <-> is_Some (args !! k) \/ (k <> "__proto__" /\ In ("--" ++ k) argv))
    /\ (forall v, Cli.parse_from argv args !! k = Some v ->
                  args !! k = Some v \/ v = "true"
                  \/ (In v argv /\ v <> "" /\ Cli.is_option v = false)).
Proof.
  induction n as [|n IH]; intros argv Hlen args k.
  - destruct argv; [|cbn in Hlen; lia]. cbn. split; [tauto|auto].
  - destruct argv as [|arg rest]; [cbn; split; [tauto|auto]|].
    cbn [List.length] in Hlen. cbn [Cli.parse_from].
    destruct (Cli.is_option arg) eqn:Harg.
    + pose proof (is_option_inv arg Harg) as Hkey.
      assert (Hins : forall x : string,
                 is_Some (Cli.set_property (Cli.slice2 arg) x args !! k)
                 <-> is_Some (args !! k)
                     \/ (k <> "__proto__" /\ arg = "--" ++ k)).
      { intros x. unfold Cli.set_property.
        destruct (String.eqb_spec (Cli.slice2 arg) "__proto__") as [Hp|Hp].
        - split; [now left|]. intros [H|[Hk H]]; [exact H|].
          exfalso. apply Hk. rewrite Hkey in H. apply dashes_inj in H.
          congruence.
        - rewrite lookup_insert_is_Some'. split.
          + intros [H|H]; [right|now left]. subst k. now split.
          + intros [H|[_ H]]; [now right|]. left. rewrite Hkey in H.
            now apply dashes_inj. }
      assert (Hval : forall x v,
                 Cli.set_property (Cli.slice2 arg) x args !! k = Some v ->
                 args !! k = Some v \/ v = x).
      { intros x v. unfold Cli.set_property.
        destruct (String.eqb (Cli.slice2 arg) "__proto__"); [now left|].
        destruct (decide (Cli.slice2 arg = k)) as [->|Hne].
        - rewrite lookup_insert_eq. intros [= <-]. now right.
        - rewrite lookup_insert_ne by exact Hne. now left. }
      destruct rest as [|next after].
      * split.
        -- rewrite Hins. cbn [In]. tauto.
        -- intros v Hv. destruct (Hval _ _ Hv) as [H0 | ->]; auto.
      * destruct (truthy_str (Some next) && negb (Cli.is_option next))%bool
          eqn:Hnext.
        -- apply andb_true_iff in Hnext. destruct Hnext as [Htruthy Hplain].
           apply negb_true_iff in Hplain.
           destruct (IH after ltac:(cbn [List.length] in Hlen; lia)
                       (Cli.set_property (Cli.slice2 arg) next args) k) as [Hdom Hvals].
           split.
           ++ rewrite Hdom, Hins. cbn [In].
              assert (Hn : next <> "--" ++ k).
              { intros ->. rewrite is_option_dashes in Hplain. discriminate. }
              tauto.
           ++ intros v Hv. destruct (Hvals v Hv) as [H|[->|(H1 & H2 & H3)]].
              ** destruct (Hval _ _ H) as [H0 | ->]; [now left|].
                 right. right. split; [right; now left|]. split; [|exact Hplain].
                 destruct next; [discriminate|discriminate].
              ** auto.
              ** right. right. split; [right; now right|auto].
        -- destruct (IH (next :: after) ltac:(cbn [List.length] in *; lia)
                       (Cli.set_property (Cli.slice2 arg) "true" args) k) as [Hdom Hvals].
           split.
           ++ rewrite Hdom, Hins. cbn [In]. tauto.
           ++ intros v Hv. destruct (Hvals v Hv) as [H|[->|(H1 & H2 & H3)]].
              ** destruct (Hval _ _ H) as [H0 | ->]; auto.
              ** auto.
              ** right. right. split; [now right|auto].
    + destruct (IH rest ltac:(lia) args k) as [Hdom Hvals]. split.
      * rewrite Hdom. cbn [In].
        assert (Hn : arg <> "--" ++ k).
        { intros ->. rewrite is_option_dashes in Harg. discriminate. }
        tauto.
      * intros v Hv. destruct (Hvals v Hv) as [H|[->|(H1 & H2 & H3)]]; auto.
        right. right. split; [now right|auto].
Qed.

Lemma parseArgs_dom (argv : list string) (k : string) :
  is_Some (Cli.parseArgs argv !! k)
  <-> k <> "__proto__" /\ In ("--" ++ k) (drop 2 argv).
Proof.
  unfold Cli.parseArgs.
  destruct (parse_from_spec (List.length (drop 2 argv)) (drop 2 argv)
              (Nat.le_refl _) ∅ k) as [Hdom _].
  rewrite Hdom, lookup_empty. split; [intros [[? [=]]|]; auto|auto].
Qed.

Lemma required_not_proto (r : string) : In r Cli.required -> r <> "__proto__".
Proof.
  unfold Cli.required. cbn [In].
  intros [<-|[<-|[<-|[<-|[<-|[<-|[]]]]]]]; discriminate.
Qed.

(** X18: [parseArgs] ignores the first two entries of [argv]; after them an
    option [--name] is a key of the result exactly when it occurs (the name
    [__proto__] apart, which never becomes a key), and every value is either
    the text [true] or a following entry that is not empty and does not
    itself start with two dashes. *)
Theorem parseArgs_keys_and_values (argv : list string) (k : string) :
  (is_Some (Cli.parseArgs argv !! k)
   <-> k <> "__proto__" /\ In ("--" ++ k) (drop 2 argv))
  /\ (forall v, Cli.parseArgs argv !! k = Some v ->
                v = "true"
                \/ (In v (drop 2 argv) /\ v <> "" /\ Cli.is_option v = false)).
Proof.
  split; [apply parseArgs_dom|].
  unfold Cli.parseArgs.
  destruct (parse_from_spec (List.length (drop 2 argv)) (drop 2 argv)
              (Nat.le_refl _) ∅ k) as [_ Hvals].
  intros v Hv. destruct (Hvals v Hv) as [H|H]; [|exact H].
  rewrite lookup_empty in H. discriminate.
Qed.

Lemma parseArgs_keys_and_values_witness :
  let argv := ["node"; "cli"; "--market"; "PUMP_FUN"; "--send"; "--amount"; "-5"] in
  is_Some (Cli.parseArgs argv !! "send")
  /\ ("true" = "true"
      \/ (In "true" (drop 2 argv) /\ "true" <> "" /\ Cli.is_option "true" = false))
  /\ ("-5" = "true"
      \/ (In "-5" (drop 2 argv) /\ "-5" <> "" /\ Cli.is_option "-5" = false)).
Proof.
  intros argv.
  split; [apply (proj1 (parseArgs_keys_and_values argv "send"));
          split; [discriminate|cbn; tauto]|].
  split.
  - exact (proj2 (parseArgs_keys_and_values argv "send") "true" eq_refl).
  - exact (proj2 (parseArgs_keys_and_values argv "amount") "-5" eq_refl).
Defined.

(** X19: the check of [main] passes exactly when each of the six required
    options occurs as [--name] after the first two entries of [argv];
    otherwise it throws [Missing required arg] for a required option that
    does not occur. *)
Theorem required_options_checked (argv : list string) :
  (Cli.check_required (Cli.parseArgs argv) = Ok tt
   <-> forall r, In r Cli.required -> In ("--" ++ r) (drop 2 argv))
  /\ (Cli.check_required (Cli.parseArgs argv) <> Ok tt ->
      exists r, In r Cli.required /\ ~ In ("--" ++ r) (drop 2 argv)
                /\ Cli.check_required (Cli.parseArgs argv)
                   = Err (Throw ("Missing required arg --" ++ r))).
Proof.
  unfold Cli.check_required.
  destruct (List.find _ Cli.required) as [r|] eqn:Hfind.
  - apply List.find_some in Hfind. destruct Hfind as [Hin Hmiss].
    apply negb_true_iff, bool_decide_eq_false_1 in Hmiss.
    rewrite (parseArgs_dom argv r) in Hmiss.
    pose proof (required_not_proto r Hin) as Hr.
    split.
    + split; [discriminate|]. intros Hall. exfalso. apply Hmiss.
      split; [exact Hr|now apply Hall].
    + intros _. exists r. tauto.
  - split; [|congruence]. split; [|reflexivity]. intros _ r Hin.
    pose proof (List.find_none _ _ Hfind r Hin) as Hr. cbv beta in Hr.
    apply negb_false_iff, bool_decide_eq_true_1 in Hr.
    now apply (parseArgs_dom argv r).
Qed.

Lemma required_options_checked_witness :
  let argv := ["node"; "cli"; "--market"; "PUMP_FUN"; "--direction"; "buy";
               "--mint"; "MintM"; "--amount"; "1.5"; "--private-key"; "k"] in
  exists r, In r Cli.required /\ ~ In ("--" ++ r) (drop 2 argv)
            /\ Cli.check_required (Cli.parseArgs argv)
               = Err (Throw ("Missing required arg --" ++ r)).
Proof.
  intros argv.
  apply (proj2 (required_options_checked argv)). discriminate.
Defined.

(** ** The DBC pool lookup *)

(** X20: [resolvePoolAddressForBaseMint] remembers a pool it has resolved:
    the pool it returns is in memory, and at every time less than a TTL
    after the time it was stored the same pool is returned without asking
    the SDK.  A failed lookup (the SDK throws or
    knows no pool) is not remembered, and whenever there is no entry
    younger than the TTL the SDK is asked exactly once. *)
Theorem dbc_pool_is_memoised (baseMint : PublicKey) (w : Dbc.World) :
  let r := fst (Dbc.resolvePoolAddressForBaseMint baseMint w) in
  let w' := snd (Dbc.resolvePoolAddressForBaseMint baseMint w) in
  (forall pool, r = Ok pool ->
      exists loadedAt,
        Dbc.baseMintToPool w' !! baseMint = Some (pool, loadedAt)
        /\ forall t, younger t loadedAt (getCacheTtlMs (Dbc.ttlFromEnv w)) = true ->
                     Dbc.resolvePoolAddressForBaseMint baseMint (Dbc.at_time w' t)
                     = (Ok pool, Dbc.at_time w' t))
  /\ (forall e, r = Err e ->
                Dbc.baseMintToPool w' = Dbc.baseMintToPool w
                /\ Dbc.lookups w' = (Dbc.lookups w ++ [baseMint])%list)
  /\ ((forall pool loadedAt,
          Dbc.baseMintToPool w !! baseMint = Some (pool, loadedAt) ->
          younger (Dbc.clock w) loadedAt (getCacheTtlMs (Dbc.ttlFromEnv w)) = false) ->
      Dbc.lookups w' = (Dbc.lookups w ++ [baseMint])%list).
Proof.
  cbv zeta.
  assert (Hsdk : forall pool,
             fst (Dbc.resolve_via_sdk baseMint (Dbc.clock w) w) = Ok pool ->
             Dbc.baseMintToPool
               (snd (Dbc.resolve_via_sdk baseMint (Dbc.clock w) w)) !! baseMint
             = Some (pool, Dbc.clock w)
             /\ Dbc.ttlFromEnv (snd (Dbc.resolve_via_sdk baseMint (Dbc.clock w) w))
                = Dbc.ttlFromEnv w).
  { intros pool. unfold Dbc.resolve_via_sdk.
    destruct (Dbc.getPoolByBaseMint w baseMint) as [[p|]|e]; cbn;
      try discriminate.
    intros [= <-]. split; [apply lookup_insert_eq|reflexivity]. }
  assert (Hfail : forall e,
             fst (Dbc.resolve_via_sdk baseMint (Dbc.clock w) w) = Err e ->
             Dbc.baseMintToPool
               (snd (Dbc.resolve_via_sdk baseMint (Dbc.clock w) w))
             = Dbc.baseMintToPool w).
  { intros e. unfold Dbc.resolve_via_sdk.
    destruct (Dbc.getPoolByBaseMint w baseMint) as [[p|]|e']; cbn;
      try discriminate; reflexivity. }
  assert (Hcalls : Dbc.lookups (snd (Dbc.resolve_via_sdk baseMint (Dbc.clock w) w))
                   = (Dbc.lookups w ++ [baseMint])%list).
  { unfold Dbc.resolve_via_sdk.
    destruct (Dbc.getPoolByBaseMint w baseMint) as [[p|]|e']; reflexivity. }
  assert (Hagain : forall u pool loadedAt t,
             Dbc.baseMintToPool u !! baseMint = Some (pool, loadedAt) ->
             younger t loadedAt (getCacheTtlMs (Dbc.ttlFromEnv u)) = true ->
             Dbc.resolvePoolAddressForBaseMint baseMint (Dbc.at_time u t)
             = (Ok pool, Dbc.at_time u t)).
  { intros u pool loadedAt t Hget Hy. unfold Dbc.resolvePoolAddressForBaseMint.
    cbn [Dbc.at_time Dbc.baseMintToPool Dbc.clock Dbc.ttlFromEnv].
    now rewrite Hget, Hy. }
  unfold Dbc.resolvePoolAddressForBaseMint.
  destruct (Dbc.baseMintToPool w !! baseMint) as [[pool0 at0]|] eqn:Hmem.
  - destruct (younger (Dbc.clock w) at0 (getCacheTtlMs (Dbc.ttlFromEnv w)))
      eqn:Hy.
    + cbn [fst snd]. split; [|split].
      * intros pool [= <-]. exists at0. split; [exact Hmem|].
        intros t Ht. now apply (Hagain w pool0 at0 t).
      * discriminate.
      * intros Hold. rewrite (Hold pool0 at0 eq_refl) in Hy. discriminate.
    + split; [|split].
      * intros pool Hr. destruct (Hsdk pool Hr) as [Hget Httl].
        exists (Dbc.clock w). split; [exact Hget|]. intros t Ht.
        apply (Hagain _ pool (Dbc.clock w) t Hget). now rewrite Httl.
      * intros e He. split; [now apply (Hfail e)|exact Hcalls].
      * intros _. exact Hcalls.
  - split; [|split].
    + intros pool Hr. destruct (Hsdk pool Hr) as [Hget Httl].
      exists (Dbc.clock w). split; [exact Hget|]. intros t Ht.
      apply (Hagain _ pool (Dbc.clock w) t Hget). now rewrite Httl.
    + intros e He. split; [now apply (Hfail e)|exact Hcalls].
    + intros _. exact Hcalls.
Qed.

Lemma dbc_pool_is_memoised_witness :
  let w := SampleMore.dbc_world (Ok (Some "CurvePool")) in
  let w' := snd (Dbc.resolvePoolAddressForBaseMint "MintM" w) in
  let missing := SampleMore.dbc_world (Ok None) in
  (exists loadedAt,
      Dbc.baseMintToPool w' !! "MintM" = Some ("CurvePool", loadedAt)
      /\ Dbc.resolvePoolAddressForBaseMint "MintM"
           (Dbc.at_time w' (Dbc.clock w + 1000))
         = (Ok "CurvePool", Dbc.at_time w' (Dbc.clock w + 1000)))
  /\ Dbc.lookups w' = ["MintM"]
  /\ Dbc.baseMintToPool (snd (Dbc.resolvePoolAddressForBaseMint "MintM" missing))
     = ∅.
Proof.
  intros w w' missing.
  destruct (dbc_pool_is_memoised "MintM" w) as (Hok & _ & Hcalls).
  destruct (dbc_pool_is_memoised "MintM" missing) as (_ & Hfail & _).
  cbv zeta in *. split; [|split].
  - destruct (Hok "CurvePool" eq_refl) as (loadedAt & Hget & Hagain).
    exists loadedAt. split; [exact Hget|].
    apply Hagain.
    change (Dbc.baseMintToPool w' !! "MintM")
      with (Some ("CurvePool" : string, Dbc.clock w)) in Hget.
    injection Hget as <-. reflexivity.
  - apply Hcalls. intros pool loadedAt H. discriminate H.
  - exact (proj1 (Hfail Dbc.not_found eq_refl)).
Defined.
